(** * Rating-progression analysis of chess.com_API.py

    A shallow embedding of the analysis core of [chess.com_API.py]:
    the per-game rating selection and the construction of the rating
    history ([analyze_rating_progression]), the derived columns
    ([diff], [rolling(...).mean()]), the plateau scan
    ([find_rating_plateaus]) and the summary ([calculate_progress_metrics]).

    Modelling conventions.
    - A Python [int] is a [Z].  A pandas float cell is an [option Q]:
      [None] is NaN, [Some q] the exact rational value of the cell.  The
      differences and window means of integer ratings are exact in this
      model; rounding of binary floating point is not represented.
    - A [DataFrame] is a record of columns, one field per column the
      program creates; [rolling_change] is optional because the column
      only exists once [find_rating_plateaus] has run.
    - A function that mutates its [DataFrame] argument returns the new
      frame next to its result; an exception is the left injection.
    - [sort_values] is followed into numpy's indirect quicksort, the sort
      pandas runs when no [kind] is given.
    - The functions of the analysis core start from the decoded monthly
      game lists, with end times that [datetime.fromtimestamp] converts;
      the requests, pauses and handlers around them are the subject of
      [Run]. *)

From Stdlib Require Import ZArith QArith Qabs String Ascii Bool Lia List.
From Stdlib Require Import Sorted Permutation.
Import ListNotations.

Open Scope Z_scope.

(** ** Python values *)

(** A float cell: [None] is NaN. *)
Abbreviation float := (option Q) (only parsing).

Inductive exn : Type :=
| ValueError   (* pandas: window must be an integer 0 or greater *)
| IndexError.  (* pandas: single positional indexer is out-of-bounds *)

Definition result (A : Type) : Type := (exn + A)%type.

Definition is_defined (x : float) : bool :=
  match x with Some _ => true | None => false end.

(** [str.lower()] on the ASCII range, where chess.com usernames live. *)
Definition lower_ascii (c : ascii) : ascii :=
  let n := nat_of_ascii c in
  if (Nat.leb 65 n && Nat.leb n 90)%bool then ascii_of_nat (n + 32) else c.

Fixpoint lower (s : string) : string :=
  match s with
  | EmptyString => EmptyString
  | String c s' => String (lower_ascii c) (lower s')
  end.

(** ** Data model *)

Module Player.
Record t := mk { username : string; rating : Z }.
End Player.

(** One game object of a monthly archive. *)
Module Game.
Record t := mk {
  end_time : Z;
  white : Player.t;
  black : Player.t;
  time_control : string }.
End Game.

(** One dictionary appended to [rating_history]. *)
Module Entry.
Record t := mk { date : Z; rating : Z; time_control : string }.
End Entry.

Module DF.
Record t := mk {
  date : list Z;
  rating : list Z;
  time_control : list string;
  rating_change : list float;
  games_played : list Z;
  rolling_rating : list float;
  rating_change_rate : list float;
  rolling_change : option (list float) }.

(** [df['rolling_change'] = col] *)
Definition set_rolling_change (df : t) (col : list float) : t :=
  mk (date df) (rating df) (time_control df) (rating_change df)
     (games_played df) (rolling_rating df) (rating_change_rate df) (Some col).
End DF.

(** ** pandas column operations *)

(** An integer column read as floats. *)
Definition as_float (xs : list Z) : list float :=
  map (fun z => Some (inject_Z z)) xs.

(** [Series.diff()] on an integer column: NaN first, then the successive
    differences. *)
Definition diff (xs : list Z) : list float :=
  match xs with
  | [] => []
  | _ :: tl => None :: map (fun p => Some (inject_Z (snd p - fst p))) (combine xs tl)
  end.

(** The cells a fixed trailing window of size [w] covers at position [i]:
    positions [max 0 (i + 1 - w)] to [i]. *)
Definition window_at {A : Type} (w : nat) (xs : list A) (i : nat) : list A :=
  let stop := S i in
  let start := (stop - w)%nat in
  firstn (stop - start) (skipn start xs).

(** The non-NaN cells of a window. *)
Fixpoint observed (win : list float) : list Q :=
  match win with
  | [] => []
  | Some q :: tl => q :: observed tl
  | None :: tl => observed tl
  end.

Definition Qsum (qs : list Q) : Q := fold_right Qplus 0%Q qs.

(** The mean pandas reports for one window with [min_periods = w]: NaN
    unless the window holds at least [w] observations, and at least one. *)
Definition window_mean (w : nat) (win : list float) : float :=
  let obs := observed win in
  let nobs := length obs in
  if (Nat.leb w nobs && Nat.ltb 0 nobs)%bool
  then Some (Qred (Qsum obs / inject_Z (Z.of_nat nobs)))
  else None.

(** [col.rolling(window=w).mean()] for a validated window. *)
Definition rolling_window_mean (w : nat) (xs : list float) : list float :=
  map (fun i => window_mean w (window_at w xs i)) (seq 0 (length xs)).

(** [col.rolling(window=window).mean()]: pandas rejects a negative window
    and accepts zero. *)
Definition rolling_mean (window : Z) (xs : list float) : result (list float) :=
  if window <? 0 then inl ValueError
  else inr (rolling_window_mean (Z.to_nat window) xs).

(** ** The sort behind [DataFrame.sort_values]

    [df.sort_values('date')] passes no [kind], so pandas asks numpy for an
    argsort of the date column with [kind='quicksort'] and reorders the
    rows by the permutation it gets.  [Npy] follows numpy's generic
    indirect quicksort: median-of-three partitioning of segments with more
    than 16 cells, insertion sort below, heapsort once the depth budget is
    spent.  Positions are offsets into [tosort]; [None] is a read or write
    outside the array, or a loop that outlasts its fuel. *)

Module Npy.

Definition bind {A B : Type} (m : option A) (k : A -> option B) : option B :=
  match m with Some x => k x | None => None end.

Notation "x <- m ;; k" := (bind m (fun x => k))
  (at level 61, m at next level, right associativity).
Notation "' p <- m ;; k" := (bind m (fun x => let p := x in k))
  (at level 61, p pattern, m at next level, right associativity).

Definition SMALL_QUICKSORT : Z := 15.

Section Argsort.
Variable v : list Z.

(** [*p] *)
Definition rd (a : list nat) (p : Z) : option nat :=
  if p <? 0 then None else nth_error a (Z.to_nat p).

(** [v[*p]] *)
Definition val (a : list nat) (p : Z) : option Z :=
  i <- rd a p ;; nth_error v i.

(** [*p = x] *)
Definition wr (a : list nat) (p : Z) (x : nat) : option (list nat) :=
  if ((0 <=? p) && (p <? Z.of_nat (length a)))%bool
  then Some (firstn (Z.to_nat p) a ++ x :: skipn (S (Z.to_nat p)) a)
  else None.

Definition INTP_SWAP (a : list nat) (p q : Z) : option (list nat) :=
  x <- rd a p ;; y <- rd a q ;; a <- wr a p y ;; wr a q x.

(** [if (less(v[*p], v[*q]))] swap the cells [p] and [q]. *)
Definition swap_if_less (a : list nat) (p q : Z) : option (list nat) :=
  x <- val a p ;; y <- val a q ;;
  if x <? y then INTP_SWAP a p q else Some a.

(** [do { ++pi; } while (less(v[*pi], vp))] *)
Fixpoint scan_up (fuel : nat) (a : list nat) (vp pi : Z) : option Z :=
  match fuel with
  | O => None
  | S f =>
      let pi := pi + 1 in
      x <- val a pi ;;
      if x <? vp then scan_up f a vp pi else Some pi
  end.

(** [do { --pj; } while (less(vp, v[*pj]))] *)
Fixpoint scan_down (fuel : nat) (a : list nat) (vp pj : Z) : option Z :=
  match fuel with
  | O => None
  | S f =>
      let pj := pj - 1 in
      x <- val a pj ;;
      if vp <? x then scan_down f a vp pj else Some pj
  end.

(** The [for (;;)] loop of the partition; returns the array and [pi]. *)
Fixpoint cross (fuel F : nat) (a : list nat) (vp pi pj : Z)
  : option (list nat * Z) :=
  match fuel with
  | O => None
  | S f =>
      pi <- scan_up F a vp pi ;;
      pj <- scan_down F a vp pj ;;
      if pi >=? pj then Some (a, pi)
      else a <- INTP_SWAP a pi pj ;; cross f F a vp pi pj
  end.

(** One partition of the segment [pl .. pr]; returns the array and the
    final position of the pivot. *)
Definition partition (F : nat) (a : list nat) (pl pr : Z)
  : option (list nat * Z) :=
  let pm := pl + Z.shiftr (pr - pl) 1 in
  a <- swap_if_less a pm pl ;;
  a <- swap_if_less a pr pm ;;
  a <- swap_if_less a pm pl ;;
  vp <- val a pm ;;
  a <- INTP_SWAP a pm (pr - 1) ;;
  ' (a, pi) <- cross F F a vp pl (pr - 1) ;;
  a <- INTP_SWAP a pi (pr - 1) ;;
  Some (a, pi).

(** A pending segment with the depth budget stored next to it. *)
Definition frame : Type := (Z * Z * Z)%type.

(** [while ((pr - pl) > SMALL_QUICKSORT)]: partition, push the larger
    part, go on with the smaller. *)
Fixpoint split (fuel F : nat) (a : list nat) (pl pr : Z)
  (stack : list frame) (cdepth : Z)
  : option (list nat * Z * Z * list frame) :=
  match fuel with
  | O => None
  | S f =>
      if pr - pl >? SMALL_QUICKSORT then
        ' (a, pi) <- partition F a pl pr ;;
        let cdepth := cdepth - 1 in
        if pi - pl <? pr - pi
        then split f F a pl (pi - 1) ((pi + 1, pr, cdepth) :: stack) cdepth
        else split f F a (pi + 1) pr ((pl, pi - 1, cdepth) :: stack) cdepth
      else Some (a, pl, pr, stack)
  end.

(** [while (pj > pl && less(vp, v[*pk])) { *pj-- = *pk--; }] *)
Fixpoint shift (fuel : nat) (a : list nat) (pl vp pj pk : Z)
  : option (list nat * Z) :=
  match fuel with
  | O => None
  | S f =>
      if pj >? pl then
        x <- val a pk ;;
        if vp <? x
        then y <- rd a pk ;; a <- wr a pj y ;; shift f a pl vp (pj - 1) (pk - 1)
        else Some (a, pj)
      else Some (a, pj)
  end.

(** [for (pi = pl + 1; pi <= pr; ++pi)]: the insertion sort. *)
Fixpoint insertion (fuel F : nat) (a : list nat) (pl pr pi : Z)
  : option (list nat) :=
  match fuel with
  | O => None
  | S f =>
      if pi <=? pr then
        vi <- rd a pi ;;
        vp <- nth_error v vi ;;
        ' (a, pj) <- shift F a pl vp pi (pi - 1) ;;
        a <- wr a pj vi ;;
        insertion f F a pl pr (pi + 1)
      else Some a
  end.

(** The sift loop of the heapsort, on the one-based view [a = tosort - 1]
    of the segment ([base] is the offset of [a[0]]); returns the array and
    the hole [i]. *)
Fixpoint sift (fuel : nat) (a : list nat) (base n : Z) (tmp : nat) (i j : Z)
  : option (list nat * Z) :=
  match fuel with
  | O => None
  | S f =>
      if j <=? n then
        j <- (if j <? n
              then x <- val a (base + j) ;; y <- val a (base + j + 1) ;;
                   Some (if x <? y then j + 1 else j)
              else Some j) ;;
        t <- nth_error v tmp ;;
        x <- val a (base + j) ;;
        if t <? x
        then y <- rd a (base + j) ;; a <- wr a (base + i) y ;;
             sift f a base n tmp j (j + j)
        else Some (a, i)
      else Some (a, i)
  end.

(** [for (l = n >> 1; l > 0; --l)] *)
Fixpoint heapify (fuel F : nat) (a : list nat) (base n l : Z)
  : option (list nat) :=
  match fuel with
  | O => None
  | S f =>
      if l >? 0 then
        tmp <- rd a (base + l) ;;
        ' (a, i) <- sift F a base n tmp l (Z.shiftl l 1) ;;
        a <- wr a (base + i) tmp ;;
        heapify f F a base n (l - 1)
      else Some a
  end.

(** [for (; n > 1;)] *)
Fixpoint unheap (fuel F : nat) (a : list nat) (base n : Z)
  : option (list nat) :=
  match fuel with
  | O => None
  | S f =>
      if n >? 1 then
        tmp <- rd a (base + n) ;;
        top <- rd a (base + 1) ;;
        a <- wr a (base + n) top ;;
        let n := n - 1 in
        ' (a, i) <- sift F a base n tmp 1 2 ;;
        a <- wr a (base + i) tmp ;;
        unheap f F a base n
      else Some a
  end.

Definition aheapsort (F : nat) (a : list nat) (pl n : Z) : option (list nat) :=
  let base := pl - 1 in
  a <- heapify F F a base n (Z.shiftr n 1) ;;
  unheap F F a base n.

(** The outer [while (1)] with its segment stack. *)
Fixpoint run (fuel F : nat) (a : list nat) (pl pr : Z)
  (stack : list frame) (cdepth : Z) : option (list nat) :=
  match fuel with
  | O => None
  | S f =>
      ' (a, stack) <-
        (if cdepth <? 0
         then a <- aheapsort F a pl (pr - pl + 1) ;; Some (a, stack)
         else ' (a, pl, pr, stack) <- split F F a pl pr stack cdepth ;;
              a <- insertion F F a pl pr (pl + 1) ;;
              Some (a, stack)) ;;
      match stack with
      | [] => Some a
      | (pl, pr, cdepth) :: stack => run f F a pl pr stack cdepth
      end
  end.

(** [aquicksort(v, tosort, num)] on [tosort = arange(num)]. *)
Definition aquicksort : option (list nat) :=
  let num := Z.of_nat (length v) in
  let F := S (length v) in
  run F F (seq 0 (length v)) 0 (num - 1) [] (Z.log2 num * 2).

End Argsort.

(** [values.argsort(kind='quicksort')] *)
Definition argsort (v : list Z) : list nat :=
  match aquicksort v with Some a => a | None => [] end.

End Npy.

(** ** analyze_rating_progression *)

(** The rating the loop body picks for one game: white's when white's
    user name equals the queried one after lowering both, black's in
    every other case. *)
Definition rating_of (username : string) (game : Game.t) : Z :=
  if String.eqb (lower (Player.username (Game.white game))) (lower username)
  then Player.rating (Game.white game)
  else Player.rating (Game.black game).

(** Lines 118 to 127 once the frame is sorted: the frame of the entries
    with its derived columns. *)
Definition derived_columns (entries : list Entry.t) : DF.t :=
  let ratings := map Entry.rating entries in
  DF.mk (map Entry.date entries)
        ratings
        (map Entry.time_control entries)
        (diff ratings)
        (map Z.of_nat (seq 0 (length entries)))
        (rolling_window_mean 20 (as_float ratings))
        (rolling_window_mean 20 (diff ratings))
        None.

(** [df.take(indexer)]: the rows at the positions listed. *)
Definition take {A : Type} (indexer : list nat) (rows : list A) : list A :=
  flat_map (fun i => match nth_error rows i with Some r => [r] | None => [] end)
           indexer.

Section SeriesBuilder.

(** [datetime.fromtimestamp]: the wall-clock reading of an epoch second in
    the time zone of the host. *)
Variable fromtimestamp : Z -> Z.

Definition entry_of (username : string) (game : Game.t) : Entry.t :=
  Entry.mk (fromtimestamp (Game.end_time game))
           (rating_of username game)
           (Game.time_control game).

(** The list [rating_history] after the archive loop, for archives that
    were all fetched and decoded. *)
Definition rating_history (username : string) (archives : list (list Game.t))
  : list Entry.t :=
  flat_map (map (entry_of username)) archives.

(** [df.sort_values('date')] *)
Definition sort_values (entries : list Entry.t) : list Entry.t :=
  take (Npy.argsort (map Entry.date entries)) entries.

Definition analyze_rating_progression
  (username : string) (archives : list (list Game.t)) : option DF.t :=
  match rating_history username archives with
  | [] => None
  | history => Some (derived_columns (sort_values history))
  end.

End SeriesBuilder.

(** ** find_rating_plateaus *)

(** The cells of a row that the scan reads. *)
Module Row.
Record t := mk {
  date : Z;
  rating : Z;
  games_played : Z;
  rolling_change : float }.
End Row.

(** The dictionary [current_plateau]. *)
Module Current.
Record t := mk { start_rating : Z; start_game : Z; start_date : Z }.
End Current.

Module Plateau.
Record t := mk {
  start_rating : Z;
  end_rating : Z;
  games_span : Z;
  start_game_number : Z;
  end_game_number : Z;
  start_date : Z;
  end_date : Z }.
End Plateau.

(** [df.iterrows()]: the columns of a frame are equally long and are read
    in step.  The scan runs once [rolling_change] has been written. *)
Definition iterrows (df : DF.t) : list Row.t :=
  match DF.rolling_change df with
  | Some rc =>
      map (fun c => let '(d, r, g, x) := c in Row.mk d r g x)
          (combine (combine (combine (DF.date df) (DF.rating df))
                            (DF.games_played df)) rc)
  | None => []
  end.

(** [abs(x) < threshold]; every comparison with NaN is false.  The cell
    and the threshold are exact rationals here; the program compares
    their binary64 roundings. *)
Definition below (threshold : Q) (x : float) : bool :=
  match x with
  | Some q => negb (Qle_bool threshold (Qabs q))
  | None => false
  end.

Definition close (c : Current.t) (row : Row.t) : Plateau.t :=
  Plateau.mk (Current.start_rating c)
             (Row.rating row)
             (Row.games_played row - Current.start_game c)
             (Current.start_game c)
             (Row.games_played row)
             (Current.start_date c)
             (Row.date row).

Definition open (row : Row.t) : Current.t :=
  Current.mk (Row.rating row) (Row.games_played row) (Row.date row).

(** The body of the [for] loop on the pair [(current_plateau, plateaus)]. *)
Definition step (threshold : Q) (st : option Current.t * list Plateau.t)
  (row : Row.t) : option Current.t * list Plateau.t :=
  let (current_plateau, plateaus) := st in
  if below threshold (Row.rolling_change row) then
    match current_plateau with
    | None => (Some (open row), plateaus)
    | Some _ => st
    end
  else
    match current_plateau with
    | Some c => (None, plateaus ++ [close c row])
    | None => st
    end.

Definition scan (threshold : Q) (rows : list Row.t)
  : option Current.t * list Plateau.t :=
  fold_left (step threshold) rows (None, []).

(** Returns the plateaus and the frame as the call leaves it. *)
Definition find_rating_plateaus (df : DF.t) (window : Z) (threshold : Q)
  : result (list Plateau.t * DF.t) :=
  match rolling_mean window (DF.rating_change df) with
  | inl e => inl e
  | inr rc =>
      let df := DF.set_rolling_change df rc in
      inr (snd (scan threshold (iterrows df)), df)
  end.

(** ** calculate_progress_metrics *)

(** [rating_volatility], a square root, has no counterpart here. *)
Module Metrics.
Record t := mk {
  total_games : Z;
  initial_rating : Z;
  final_rating : Z;
  total_gain : Z;
  average_gain_per_game : Q;
  max_rating : Z;
  min_rating : Z }.
End Metrics.

(** [average_gain_per_game] holds the exact quotient; the program holds
    the binary64 nearest to it. *)
Definition calculate_progress_metrics (df : DF.t) : result Metrics.t :=
  match DF.rating df with
  | [] => inl IndexError
  | first :: rest =>
      let final := last rest first in
      let len := Z.of_nat (length (DF.rating df)) in
      inr (Metrics.mk len first final (final - first)
             (Qred (inject_Z (final - first) / inject_Z len))
             (fold_right Z.max first rest)
             (fold_right Z.min first rest))
  end.


(** * Notions used in the statements *)

(** ** Closed runs of qualifying rows *)

(** Whether the row at position [k] passes the test of the loop. *)
Definition qualifies (threshold : Q) (rows : list Row.t) (k : nat) : bool :=
  match nth_error rows k with
  | Some row => below threshold (Row.rolling_change row)
  | None => false
  end.

(** Positions [i < j] bound a closed run: the rows from [i] up to [j - 1]
    qualify, the row before [i] (if any) and the row [j] do not. *)
Definition closed_run (threshold : Q) (rows : list Row.t) (i j : nat) : Prop :=
  (i < j < length rows)%nat /\
  (forall k, (i <= k < j)%nat -> qualifies threshold rows k = true) /\
  qualifies threshold rows j = false /\
  (i = 0%nat \/ qualifies threshold rows (i - 1) = false).

(** [p] is the plateau anchored at row [i] and closed with row [j]. *)
Definition spans (rows : list Row.t) (i j : nat) (p : Plateau.t) : Prop :=
  exists ri rj,
    nth_error rows i = Some ri /\ nth_error rows j = Some rj /\
    p = close (open ri) rj.

(** What the loop of [find_rating_plateaus] knows after the rows [rows]. *)
Record scan_inv (threshold : Q) (rows : list Row.t)
  (st : option Current.t * list Plateau.t) : Prop := {
  inv_plateaus : forall p,
    In p (snd st) <->
    exists i j, closed_run threshold rows i j /\ spans rows i j p;
  inv_open : forall c, fst st = Some c ->
    exists i ri,
      nth_error rows i = Some ri /\ c = open ri /\
      (forall k, (i <= k < length rows)%nat -> qualifies threshold rows k = true) /\
      (i = 0%nat \/ qualifies threshold rows (i - 1) = false);
  inv_idle : fst st = None ->
    rows = [] \/ qualifies threshold rows (length rows - 1) = false }.

(** The call repeated on the frame the first call left behind (the same
    frame again when the first call raised). *)
Definition second_run (df : DF.t) (window : Z) (threshold : Q)
  : result (list Plateau.t * DF.t) :=
  match find_rating_plateaus df window threshold with
  | inl _ => find_rating_plateaus df window threshold
  | inr (_, df') => find_rating_plateaus df' window threshold
  end.


(** ** The detector in the words of the specification

    Section 4.3: the rolling change is the trailing mean of [delta] over
    the detector's window, undefined until the window is full; a record
    whose rolling change is defined and strictly below the threshold in
    magnitude opens a plateau when none is open; any other record closes
    the open plateau, with its own fields as end fields; a plateau that
    is open at the end is not emitted. *)

Module Spec.

Definition rolling_change (window : nat) (delta : list float) (i : nat)
  : float :=
  if (Nat.ltb 0 window && Nat.leb window (S i))%bool then
    let cells := firstn window (skipn (S i - window) delta) in
    if forallb is_defined cells
    then Some (Qred (Qsum (observed cells) / inject_Z (Z.of_nat window)))
    else None
  else None.

Fixpoint detect (threshold : Q) (anchor : option Current.t)
  (records : list Row.t) : list Plateau.t :=
  match records with
  | [] => []
  | r :: rest =>
      match Row.rolling_change r with
      | Some x =>
          if Qlt_le_dec (Qabs x) threshold
          then detect threshold
                 (match anchor with None => Some (open r) | Some _ => anchor end)
                 rest
          else match anchor with
               | Some c => close c r :: detect threshold None rest
               | None => detect threshold None rest
               end
      | None =>
          match anchor with
          | Some c => close c r :: detect threshold None rest
          | None => detect threshold None rest
          end
      end
  end.

Definition plateaus (df : DF.t) (window : nat) (threshold : Q)
  : list Plateau.t :=
  let delta := DF.rating_change df in
  let rolling := map (rolling_change window delta) (seq 0 (length delta)) in
  detect threshold None (iterrows (DF.set_rolling_change df rolling)).

End Spec.

(** ** Matching sides and sorting permutations *)

Definition white_matches (username : string) (game : Game.t) : bool :=
  String.eqb (lower (Player.username (Game.white game))) (lower username).

Definition black_matches (username : string) (game : Game.t) : bool :=
  String.eqb (lower (Player.username (Game.black game))) (lower username).

Fixpoint nondecreasing (l : list Z) : bool :=
  match l with
  | [] => true
  | x :: tl =>
      match tl with
      | [] => true
      | y :: _ => (x <=? y) && nondecreasing tl
      end
  end.

(** What [sort_values] relies on for the column [keys]: the indexer names
    every position once and reads the keys in non-decreasing order. *)
Definition is_argsort (keys : list Z) (indexer : list nat) : bool :=
  (length indexer =? length keys)%nat &&
  forallb (fun i => existsb (Nat.eqb i) indexer) (seq 0 (length keys)) &&
  nondecreasing (take indexer keys).

(** ** Arrays of indices

    The notions the correctness of [Npy.aquicksort] is stated with.
    Positions are offsets, as in [Npy]; [v] is the array of keys. *)

Module Arr.

Definition at_ (a : list nat) (p : Z) : nat := nth (Z.to_nat p) a 0%nat.

Definition upd (a : list nat) (p : Z) (x : nat) : list nat :=
  firstn (Z.to_nat p) a ++ x :: skipn (S (Z.to_nat p)) a.

Definition swp (a : list nat) (p q : Z) : list nat :=
  upd (upd a p (at_ a q)) q (at_ a p).

Definition len (a : list nat) : Z := Z.of_nat (length a).

Definition seg : Type := (Z * Z)%type.

Definition segs_of (stack : list Npy.frame) : list seg := map fst stack.

Definition apart (s t : seg) : Prop := snd s < fst t \/ snd t < fst s.

Fixpoint disjoint (segs : list seg) : Prop :=
  match segs with
  | [] => True
  | s :: tl => (forall t, In t tl -> apart s t) /\ disjoint tl
  end.

Fixpoint weight (segs : list seg) : Z :=
  match segs with
  | [] => 0
  | s :: tl => snd s - fst s + 2 + weight tl
  end.

Section Keys.
Variable v : list Z.

Definition key (i : nat) : Z := nth i v 0.

Definition kz (a : list nat) (p : Z) : Z := key (at_ a p).

Definition N : Z := Z.of_nat (length v).

(** [a] lists every index of [v] once. *)
Definition ok (a : list nat) : Prop :=
  len a = N /\
  (forall p, 0 <= p < N -> (at_ a p < length v)%nat) /\
  (forall p q, 0 <= p < N -> 0 <= q < N -> at_ a p = at_ a q -> p = q).

(** [a'] differs from [a] only by moving cells inside [lo .. hi]. *)
Definition within (a a' : list nat) (lo hi : Z) : Prop :=
  (forall p, 0 <= p < N -> p < lo \/ hi < p -> at_ a' p = at_ a p) /\
  (forall q, lo <= q <= hi -> exists q', lo <= q' <= hi /\ at_ a' q = at_ a q').

Definition sorted_on (a : list nat) (lo hi : Z) : Prop :=
  forall p q, lo <= p < q -> q <= hi -> kz a p <= kz a q.

(** The heap lives at the positions [base + 1 .. base + n]; node [j] has
    the children [2 j] and [2 j + 1]; the nodes above [lo] dominate their
    children. *)
Definition heap (a : list nat) (base lo n : Z) : Prop :=
  forall j c, lo < j -> c = 2 * j \/ c = 2 * j + 1 -> c <= n ->
    kz a (base + c) <= kz a (base + j).

(** Two positions are in order unless one pending segment holds both. *)
Definition pending (a : list nat) (segs : list seg) : Prop :=
  forall p q, 0 <= p < q -> q < N ->
    kz a p <= kz a q \/
    exists s, In s segs /\ fst s <= p /\ q <= snd s.

Definition segs_ok (segs : list seg) : Prop :=
  (forall s, In s segs -> 0 <= fst s /\ snd s < N /\ fst s <= snd s + 1) /\
  disjoint segs.

End Keys.
End Arr.

(** ** Worked inputs *)

Definition frame_of_ratings (ratings : list Z) : DF.t :=
  derived_columns (map (fun r => Entry.mk 0 r "600") ratings).

Definition example_ratings : list Z :=
  [1000; 1001; 1002; 1001; 1020; 1040; 1041; 1042].

Definition example_rolling_change : list float :=
  [None; None; Some 1%Q; Some 0%Q; Some 9%Q; Some (39 # 2)%Q;
   Some (21 # 2)%Q; Some 1%Q].

Definition example_plateau : Plateau.t := Plateau.mk 1002 1020 2 2 4 0 0.

Definition scenario_ratings : list Z :=
  [1000; 1010; 1005; 1020; 1022; 1021; 1023].

(** The seven games with arbitrary dates and time controls. *)
Definition scenario_entries (date : nat -> Z) (time_control : nat -> string)
  : list Entry.t :=
  map (fun i => Entry.mk (date i) (nth i scenario_ratings 0) (time_control i))
      (seq 0 7).

Definition scenario_rolling_change : list float :=
  [None; None; None; Some (20 # 3)%Q; Some 4%Q; Some (16 # 3)%Q; Some 1%Q].

(** A game between two other players, found in the archive of Carol. *)
Definition stray_game : Game.t :=
  Game.mk 1700000000 (Player.mk "alice" 1400) (Player.mk "bob" 1500) "600".

(** A game Carol played with the black pieces. *)
Definition own_game : Game.t :=
  Game.mk 1700000600 (Player.mk "dave" 1450) (Player.mk "CAROL" 1510) "600".

(** Twenty games of one player, several of them ending in the same
    second. *)
Definition busy_month : list Game.t :=
  map (fun p => Game.mk (1700000000 + fst p)
                        (Player.mk "MagnusCarlsen" (snd p))
                        (Player.mk "opponent" 2700) "180")
      [(50, 2830); (30, 2831); (90, 2832); (10, 2833); (10, 2834);
       (70, 2835); (30, 2836); (20, 2837); (80, 2838); (80, 2839);
       (0, 2840); (40, 2841); (60, 2842); (50, 2843); (50, 2844);
       (20, 2845); (90, 2846); (70, 2847); (10, 2848); (30, 2849)].

(** Eighteen games that end in the same second, with ratings 2800 to 2817
    in retrieval order. *)
Definition simultaneous_games : list Game.t :=
  map (fun k => Game.mk 1700000000
                        (Player.mk "MagnusCarlsen" (2800 + Z.of_nat k))
                        (Player.mk "opponent" 2700) "180")
      (seq 0 18).


(** * Further definitions *)

(** ** The archive limit *)

(** [l[start:]] on a Python list: a negative start counts from the end,
    and both ends are clipped. *)
Definition slice_from {A : Type} (start : Z) (l : list A) : list A :=
  let n := Z.of_nat (length l) in
  let first := if start <? 0 then Z.max (n + start) 0 else Z.min start n in
  skipn (Z.to_nat first) l.

(** [archives[-max_archives:] if max_archives else archives] *)
Definition recent_archives {A : Type} (max_archives : Z) (archives : list A)
  : list A :=
  if max_archives =? 0 then archives
  else slice_from (- max_archives) archives.

(** ** Sums and steps of integer columns *)

Definition Zsum (zs : list Z) : Z := fold_right Z.add 0 zs.

(** The successive differences of an integer column, as integers. *)
Definition steps (xs : list Z) : list Z :=
  map (fun p => snd p - fst p) (combine xs (tl xs)).

(** ** Slow stretches of a rating column *)

(** Game [k] has [window] games before it, and over these the rating
    moved by less than [threshold] per game: the net change from game
    [k - window] to game [k] is below [threshold * window] in magnitude. *)
Definition slow (threshold : Q) (window : Z) (ratings : list Z) (k : nat)
  : Prop :=
  window <= Z.of_nat k /\
  let net := nth k ratings 0 - nth (k - Z.to_nat window) ratings 0 in
  (inject_Z (Z.abs net) < threshold * inject_Z window)%Q.

(** The rows [find_rating_plateaus] scans on a frame built by
    [derived_columns], for a window that [rolling] accepts. *)
Definition scanned (entries : list Entry.t) (W : Z) : list Row.t :=
  iterrows (DF.set_rolling_change (derived_columns entries)
     (rolling_window_mean (Z.to_nat W)
        (DF.rating_change (derived_columns entries)))).

(** ** Plateaus that follow one another *)

(** From game [lo] on: each plateau starts at or after [lo] and ends
    after it starts, and the next one starts after the game that closed
    it. *)
Fixpoint chained (lo : Z) (ps : list Plateau.t) : Prop :=
  match ps with
  | [] => True
  | p :: rest =>
      lo <= Plateau.start_game_number p /\
      Plateau.start_game_number p < Plateau.end_game_number p /\
      chained (Plateau.end_game_number p + 1) rest
  end.

(** Twenty-five ratings that wander between 1500 and 1512. *)
Definition wandering_ratings : list Z :=
  map (fun k => 1500 + (Z.of_nat k * Z.of_nat k) mod 13) (seq 0 25).

(** ** The program around the analysis

    [get_player_stats], the archive loop of [analyze_rating_progression],
    [verify_username] and [main] talk to the remote service, wait and
    print.  They are modelled as state transformers on a record of what
    the program has done so far.  The remote service is a function that
    gives the outcome of the [n]-th request of the run for the address
    asked; the user is a function that tells whether an interrupt
    arrives during a pause.  The program blocks in [requests.get] and in
    [time.sleep], and these are the two places where an interrupt is
    delivered.

    A body that decodes is a JSON object; a key the program reads is
    either absent or holds a value of the type the public API documents
    for it. *)

Module Raw.

Record player := mk_player {
  username : option string;
  rating : option Z }.

Record game := mk_game {
  end_time : option Z;
  white : option player;
  black : option player;
  time_control : option string }.

(** A decoded JSON object: the keys the program reads, and the names of
    the other keys. *)
Record body := mk_body {
  archives : option (list string);
  games : option (list game);
  profile_name : option string;
  other_keys : list string }.

(** Python's truth value of the object: false when it has no key. *)
Definition truthy (b : body) : bool :=
  match archives b, games b, profile_name b, other_keys b with
  | None, None, None, [] => false
  | _, _, _, _ => true
  end.

(** A game with every key present. *)
Definition of_game (g : Game.t) : game :=
  mk_game (Some (Game.end_time g))
          (Some (mk_player (Some (Player.username (Game.white g)))
                           (Some (Player.rating (Game.white g)))))
          (Some (mk_player (Some (Player.username (Game.black g)))
                           (Some (Player.rating (Game.black g)))))
          (Some (Game.time_control g)).

End Raw.

(** What [requests.get] does with one request. *)
Inductive reply : Type :=
  | ConnectionFails
      (* a RequestException is raised *)
  | Interrupted
      (* the user interrupts the program while the request is pending *)
  | Response (status_code : Z) (json : option Raw.body)
      (* a response; [None] is a body that is not JSON *).

Inductive raised : Type :=
  | RequestException
  | JSONDecodeError
  | KeyError (key : string)
  | ConversionError
      (* what [datetime.fromtimestamp] raises for a value it rejects: an
         OverflowError, an OSError or a ValueError *)
  | KeyboardInterrupt
  | Uncaught (e : exn).

Inductive message : Type :=
  | StatsStatus (code : Z)
  | StatsError (code : Z)
  | ArchivesStatus (code : Z)
  | ArchivesError (code : Z)
  | FetchError
  | ParsingError
  | AnalyzingArchives (n : nat)
  | FetchingArchive (i n : nat)
  | ArchiveError (url : string) (code : Z)
  | FoundGames (n i : nat)
  | AnalysisInterrupted
  | AnalysisError
  | NoRatingHistory
  | AnalyzingGames (n : nat)
  | ProfileURL (url : string)
  | StatusCode (code : Z)
  | PlayerFound (name : option string)
  | PlayerNotFound (code : Z)
  | Verifying (username : string)
  | AnalyzingData (username : string)
  | OverallMetrics (m : Metrics.t)
  | RatingPlateaus
  | PlateauLine (p : Plateau.t)
  | FailedToFetch
  | CheckUsername.

Inductive event : Type :=
  | Sleep (seconds : Z)
  | Get (url : string)
  | Print (m : message)
  | Plot (games_played : list Z) (rating : list Z)
         (rolling_rating rating_change_rate : list float).

Module Run.

(** The requests served so far, what the program did, in order, and the
    list object [rating_history] of line 70. *)
Record state := mk_state {
  served : nat;
  log : list event;
  rating_history : list Entry.t }.

Definition start : state := mk_state 0 [] [].

Inductive outcome (A : Type) : Type :=
  | Returned (a : A)
  | Raised (e : raised).

Arguments Returned {A} a.
Arguments Raised {A} e.

Definition M (A : Type) : Type := state -> outcome A * state.

Definition ret {A : Type} (a : A) : M A := fun s => (Returned a, s).

Definition raise {A : Type} (e : raised) : M A := fun s => (Raised e, s).

Definition bind {A B : Type} (m : M A) (k : A -> M B) : M B :=
  fun s =>
    match m s with
    | (Returned a, s') => k a s'
    | (Raised e, s') => (Raised e, s')
    end.

(** [try: body except ...]: [handler] gives the clause that catches an
    exception, if one does. *)
Definition try_except {A : Type} (body : M A)
  (handler : raised -> option (M A)) : M A :=
  fun s =>
    match body s with
    | (Returned a, s') => (Returned a, s')
    | (Raised e, s') =>
        match handler e with
        | Some clause => clause s'
        | None => (Raised e, s')
        end
    end.

Definition emit (e : event) : M unit :=
  fun s => (Returned tt,
            mk_state (served s) (log s ++ [e]) (rating_history s)).

Definition print (m : message) : M unit := emit (Print m).

(** [d[key]] on a JSON object *)
Definition subscript {A : Type} (key : string) (value : option A) : M A :=
  match value with
  | Some v => ret v
  | None => raise (KeyError key)
  end.

(** [response.json()] *)
Definition json (response : Z * option Raw.body) : M Raw.body :=
  match snd response with
  | Some b => ret b
  | None => raise JSONDecodeError
  end.

(** [rating_history = []] *)
Definition new_rating_history : M unit :=
  fun s => (Returned tt, mk_state (served s) (log s) []).

(** [rating_history.append(entry)] *)
Definition append (entry : Entry.t) : M unit :=
  fun s => (Returned tt,
            mk_state (served s) (log s) (rating_history s ++ [entry])).

Definition read_rating_history : M (list Entry.t) :=
  fun s => (Returned (rating_history s), s).

Definition lift {A : Type} (r : result A) : M A :=
  match r with
  | inr a => ret a
  | inl e => raise (Uncaught e)
  end.

Declare Scope run_scope.
Delimit Scope run_scope with run.
Notation "x <- m ;; k" := (bind m (fun x => k))
  (at level 61, m at next level, right associativity) : run_scope.
Notation "m ;; k" := (bind m (fun _ => k))
  (at level 61, right associativity) : run_scope.

Definition stats_url (username : string) : string :=
  ("https://api.chess.com/pub/player/" ++ username ++ "/stats")%string.

Definition games_url (username : string) : string :=
  ("https://api.chess.com/pub/player/" ++ username ++ "/games/archives")%string.

Definition profile_url (username : string) : string :=
  ("https://api.chess.com/pub/player/" ++ username)%string.

Section Program.

(** The outcome of the [n]-th request of the run, for the address asked. *)
Variable remote : nat -> string -> reply.

(** Whether the user interrupts the pause the program begins when its
    log holds [n] events. *)
Variable user : nat -> bool.

(** Whether the decode error of [response.json()] is a
    [RequestException], as it is from requests 2.27 on; it is a
    [ValueError] in every version. *)
Variable decode_error_is_request_exception : bool.

(** [datetime.fromtimestamp]: the wall-clock reading of an epoch second,
    or [None] when the conversion raises (a year that is out of range, a
    value the C library of the platform rejects). *)
Variable fromtimestamp : Z -> option Z.

(** [time.sleep(seconds)]: the pause is logged once it is over; an
    interrupt ends it with [KeyboardInterrupt]. *)
Definition sleep (seconds : Z) : M unit :=
  fun s =>
    if user (length (log s)) then (Raised KeyboardInterrupt, s)
    else emit (Sleep seconds) s.

Definition convert (end_time : Z) : M Z :=
  match fromtimestamp end_time with
  | Some date => ret date
  | None => raise ConversionError
  end.

(** [requests.get(url, headers=...)] *)
Definition get (url : string) : M (Z * option Raw.body) :=
  fun s =>
    let s' := mk_state (S (served s)) (log s ++ [Get url]) (rating_history s) in
    match remote (served s) url with
    | ConnectionFails => (Raised RequestException, s')
    | Interrupted => (Raised KeyboardInterrupt, s')
    | Response status_code body => (Returned (status_code, body), s')
    end.

(** The [except] clauses of [get_player_stats], in order. *)
Definition stats_handler (e : raised)
  : option (M (option Raw.body * option (list string))) :=
  match e with
  | RequestException => Some (print FetchError ;; ret (None, None))%run
  | JSONDecodeError =>
      if decode_error_is_request_exception
      then Some (print FetchError ;; ret (None, None))%run
      else Some (print ParsingError ;; ret (None, None))%run
  | _ => None
  end.

Definition get_player_stats (username : string)
  : M (option Raw.body * option (list string)) :=
  let username := lower username in
  try_except
    (sleep 2 ;;
     stats_response <- get (stats_url username) ;;
     print (StatsStatus (fst stats_response)) ;;
     if negb (fst stats_response =? 200) then
       print (StatsError (fst stats_response)) ;;
       ret (None, None)
     else
       stats_data <- json stats_response ;;
       sleep 2 ;;
       archives_response <- get (games_url username) ;;
       print (ArchivesStatus (fst archives_response)) ;;
       if negb (fst archives_response =? 200) then
         print (ArchivesError (fst archives_response)) ;;
         ret (None, None)
       else
         archives_data <- json archives_response ;;
         archives <- subscript "archives" (Raw.archives archives_data) ;;
         ret (Some stats_data, Some archives))%run
    stats_handler.

(** Lines 91 to 102: one turn of the loop over the games of a month. *)
Definition record_game (username : string) (game : Raw.game) : M unit :=
  (end_time <- subscript "end_time" (Raw.end_time game) ;;
   date <- convert end_time ;;
   white <- subscript "white" (Raw.white game) ;;
   white_name <- subscript "username" (Raw.username white) ;;
   rating <-
     (if String.eqb (lower white_name) (lower username) then
        white <- subscript "white" (Raw.white game) ;;
        subscript "rating" (Raw.rating white)
      else
        black <- subscript "black" (Raw.black game) ;;
        subscript "rating" (Raw.rating black)) ;;
   time_control <- subscript "time_control" (Raw.time_control game) ;;
   append (Entry.mk date rating time_control))%run.

Fixpoint record_games (username : string) (monthly_games : list Raw.game)
  : M unit :=
  match monthly_games with
  | [] => ret tt
  | game :: rest =>
      (record_game username game ;; record_games username rest)%run
  end.

(** The [except] clauses of the archive loop: [KeyboardInterrupt] first,
    then [Exception], which [KeyboardInterrupt] is not. *)
Definition archive_handler (e : raised) : option (M unit) :=
  match e with
  | KeyboardInterrupt => Some (print AnalysisInterrupted)
  | _ => Some (print AnalysisError)
  end.

(** Lines 74 to 109: the body of the loop for the archive at position
    [i] of [total]. *)
Definition fetch_archive (username : string) (total i : nat)
  (archive_url : string) : M unit :=
  try_except
    (sleep 2 ;;
     print (FetchingArchive (i + 1) total) ;;
     games_response <- get archive_url ;;
     if negb (fst games_response =? 200) then
       print (ArchiveError archive_url (fst games_response))
     else
       body <- json games_response ;;
       monthly_games <- subscript "games" (Raw.games body) ;;
       print (FoundGames (length monthly_games) (i + 1)) ;;
       record_games username monthly_games)%run
    archive_handler.

(** [for i, archive_url in enumerate(archives)], from position [i] on. *)
Fixpoint fetch_archives (username : string) (total i : nat)
  (archives : list string) : M unit :=
  match archives with
  | [] => ret tt
  | archive_url :: rest =>
      (fetch_archive username total i archive_url ;;
       fetch_archives username total (S i) rest)%run
  end.

(** [not stats or not archives] *)
Definition nothing_fetched (stats : option Raw.body)
  (archives : option (list string)) : bool :=
  negb (match stats with Some b => Raw.truthy b | None => false end)
  || negb (match archives with Some (_ :: _) => true | _ => false end).

Definition analyze_rating_progression (username : string) (max_archives : Z)
  : M (option DF.t) :=
  (fetched <- get_player_stats username ;;
   let (stats, archives) := fetched in
   if nothing_fetched stats archives then ret None
   else
     let archives :=
       recent_archives max_archives
         (match archives with Some l => l | None => [] end) in
     print (AnalyzingArchives (length archives)) ;;
     new_rating_history ;;
     fetch_archives username (length archives) 0 archives ;;
     history <- read_rating_history ;;
     match history with
     | [] => print NoRatingHistory ;; ret None
     | _ :: _ =>
         print (AnalyzingGames (length history)) ;;
         ret (Some (derived_columns (sort_values history)))
     end)%run.

Definition plot_rating_progression (df : DF.t) : M unit :=
  emit (Plot (DF.games_played df) (DF.rating df)
             (DF.rolling_rating df) (DF.rating_change_rate df)).

Definition verify_username (username : string) : M bool :=
  (response <- get (profile_url username) ;;
   print (ProfileURL (profile_url username)) ;;
   print (StatusCode (fst response)) ;;
   if fst response =? 200 then
     data <- json response ;;
     print (PlayerFound (Raw.profile_name data)) ;;
     ret true
   else
     print (PlayerNotFound (fst response)) ;;
     ret false)%run.

Fixpoint print_plateaus (plateaus : list Plateau.t) : M unit :=
  match plateaus with
  | [] => ret tt
  | plateau :: rest =>
      (print (PlateauLine plateau) ;; print_plateaus rest)%run
  end.

Definition main : M unit :=
  let username := "MagnusCarlsen"%string in
  let max_months := 3 in
  (print (Verifying username) ;;
   verified <- verify_username username ;;
   if verified then
     print (AnalyzingData username) ;;
     df <- analyze_rating_progression username max_months ;;
     match df with
     | Some df =>
         metrics <- lift (calculate_progress_metrics df) ;;
         print (OverallMetrics metrics) ;;
         found <- lift (find_rating_plateaus df 30 3) ;;
         let (plateaus, df) := found in
         print RatingPlateaus ;;
         print_plateaus plateaus ;;
         plot_rating_progression df
     | None => print FailedToFetch
     end
   else print CheckUsername)%run.

End Program.

End Run.

Arguments Run.stats_url : simpl never.
Arguments Run.games_url : simpl never.
Arguments Run.profile_url : simpl never.

(** ** Notions used in the statements about the program *)

(** The addresses requested, in order. *)
Definition requested (log : list event) : list string :=
  flat_map (fun e => match e with Get url => [url] | _ => [] end) log.

(** Reads a log from a point where the program has ([rested]) or has not
    paused for [seconds] since its last request: [None] when some request
    comes without such a pause before it, otherwise whether the program
    has paused since the last request of the log. *)
Fixpoint pace (seconds : Z) (rested : bool) (log : list event) : option bool :=
  match log with
  | [] => Some rested
  | Sleep s :: rest => pace seconds (rested || (seconds <=? s)) rest
  | Get _ :: rest => if rested then pace seconds false rest else None
  | _ :: rest => pace seconds rested rest
  end.

Section Gathered.

Variable remote : nat -> string -> reply.
Variable fromtimestamp : Z -> option Z.
Variable username : string.

(** The entry the loop appends for a game: there is none when a key the
    loop reads is missing or the end time does not convert. *)
Definition decode (game : Raw.game) : option Entry.t :=
  match Raw.end_time game, Raw.white game, Raw.time_control game with
  | Some end_time, Some white, Some time_control =>
      match fromtimestamp end_time, Raw.username white with
      | Some date, Some white_name =>
          let rating :=
            if String.eqb (lower white_name) (lower username)
            then Raw.rating white
            else match Raw.black game with
                 | Some black => Raw.rating black
                 | None => None
                 end in
          match rating with
          | Some rating => Some (Entry.mk date rating time_control)
          | None => None
          end
      | _, _ => None
      end
  | _, _, _ => None
  end.

(** The entries of the games before the first one that raises. *)
Fixpoint recorded (games : list Raw.game) : list Entry.t :=
  match games with
  | [] => []
  | game :: rest =>
      match decode game with
      | Some entry => entry :: recorded rest
      | None => []
      end
  end.

(** What the reply to the request for an archive adds to the history. *)
Definition kept (r : reply) : list Entry.t :=
  match r with
  | Response status_code (Some body) =>
      if status_code =? 200 then
        match Raw.games body with
        | Some games => recorded games
        | None => []
        end
      else []
  | _ => []
  end.

(** What the replies to the requests for [archives] add, when the first
    of them is the [n]-th request of the run and no pause is
    interrupted. *)
Fixpoint gathered (n : nat) (archives : list string) : list Entry.t :=
  match archives with
  | [] => []
  | archive_url :: rest => kept (remote n archive_url) ++ gathered (S n) rest
  end.

End Gathered.

(** A run from [s] to [s'] added [tail] to the log and served as many
    requests as [tail] lists. *)
Definition extends (s s' : Run.state) (tail : list event) : Prop :=
  Run.log s' = Run.log s ++ tail /\
  Run.served s' = (Run.served s + length (requested tail))%nat.

(** Every request of [tail] comes after a pause of two seconds with no
    other request in between, wherever the log is read from; and read
    from a point where the program has not paused since its last
    request, [tail] ends at such a point. *)
Definition keeps_pace (tail : list event) : Prop :=
  forall rested, exists rested',
    pace 2 rested tail = Some rested' /\ (rested = false -> rested' = false).

(** [l] is [l'] with some of its elements left out. *)
Inductive subsequence {A : Type} : list A -> list A -> Prop :=
  | sub_nil : subsequence [] []
  | sub_skip (x : A) (l l' : list A) :
      subsequence l l' -> subsequence l (x :: l')
  | sub_keep (x : A) (l l' : list A) :
      subsequence l l' -> subsequence (x :: l) (x :: l').

(** A user who never interrupts. *)
Definition patient (n : nat) : bool := false.

(** ** A worked run

    A service that knows one player with three monthly archives: the
    first is gone, the request for the second is interrupted by the user,
    the third holds the games of [busy_month]. *)

Definition example_archives : list string :=
  ["https://api.chess.com/pub/player/magnuscarlsen/games/2023/09";
   "https://api.chess.com/pub/player/magnuscarlsen/games/2023/10";
   "https://api.chess.com/pub/player/magnuscarlsen/games/2023/11"]%string.

Definition example_stats : Raw.body :=
  Raw.mk_body None None None ["chess_blitz"%string].

Definition example_remote (n : nat) (url : string) : reply :=
  if String.eqb url "https://api.chess.com/pub/player/MagnusCarlsen" then
    Response 200
      (Some (Raw.mk_body None None (Some "MagnusCarlsen"%string) []))
  else if String.eqb url
            "https://api.chess.com/pub/player/magnuscarlsen/stats" then
    Response 200 (Some example_stats)
  else if String.eqb url
            "https://api.chess.com/pub/player/magnuscarlsen/games/archives"
  then
    Response 200 (Some (Raw.mk_body (Some example_archives) None None []))
  else if String.eqb url (nth 0 example_archives EmptyString) then
    Response 404 None
  else if String.eqb url (nth 1 example_archives EmptyString) then
    Interrupted
  else if String.eqb url (nth 2 example_archives EmptyString) then
    Response 200
      (Some (Raw.mk_body None (Some (map Raw.of_game busy_month)) None []))
  else ConnectionFails.

(** The state in which [main] starts the analysis, once the profile
    request was answered with status 200 and a JSON object that holds
    [name] under ['username']. *)
Definition verified (name : option string) : Run.state :=
  Run.mk_state 1
    [Print (Verifying "MagnusCarlsen");
     Get (Run.profile_url "MagnusCarlsen");
     Print (ProfileURL (Run.profile_url "MagnusCarlsen"));
     Print (StatusCode 200);
     Print (PlayerFound name);
     Print (AnalyzingData "MagnusCarlsen")]
    [].


(** * Properties *)

(** ** Windows and their means *)

Lemma observed_length_le (win : list float) :
  (length (observed win) <= length win)%nat.
Proof.
  induction win as [|[q|] tl IH]; simpl; lia.
Qed.

Lemma observed_all_defined (win : list float) :
  Forall (fun x => is_defined x = true) win ->
  length (observed win) = length win.
Proof.
  induction 1 as [|[q|] tl Hx _ IH]; simpl; try congruence; discriminate.
Qed.

Lemma observed_with_nan (win : list float) :
  In None win -> (length (observed win) < length win)%nat.
Proof.
  induction win as [|[q|] tl IH]; simpl; intros Hin.
  - contradiction.
  - destruct Hin as [Heq|Hin]; [discriminate|]. specialize (IH Hin). lia.
  - pose proof (observed_length_le tl). lia.
Qed.

Lemma window_mean_defined (w : nat) (win : list float) :
  (0 < w)%nat ->
  (is_defined (window_mean w win) = true <-> (w <= length (observed win))%nat).
Proof.
  intros Hw. unfold window_mean.
  destruct (Nat.leb_spec w (length (observed win))) as [Hle|Hlt]; simpl.
  - destruct (Nat.ltb_spec 0 (length (observed win))); simpl.
    + tauto.
    + lia.
  - split; [discriminate|lia].
Qed.

Lemma window_at_length {A : Type} (w : nat) (xs : list A) (i : nat) :
  (i < length xs)%nat -> length (window_at w xs i) = Nat.min w (S i).
Proof.
  intros Hi. unfold window_at.
  rewrite length_firstn, length_skipn. lia.
Qed.

Lemma in_firstn {A : Type} (n : nat) (l : list A) (x : A) :
  In x (firstn n l) -> In x l.
Proof.
  intros Hin. rewrite <- (firstn_skipn n l). apply in_or_app. now left.
Qed.

Lemma in_skipn {A : Type} (n : nat) (l : list A) (x : A) :
  In x (skipn n l) -> In x l.
Proof.
  intros Hin. rewrite <- (firstn_skipn n l). apply in_or_app. now right.
Qed.

Lemma window_at_incl {A : Type} (w : nat) (xs : list A) (i : nat) (x : A) :
  In x (window_at w xs i) -> In x xs.
Proof.
  unfold window_at. intros Hin.
  apply in_firstn in Hin. now apply in_skipn in Hin.
Qed.

Lemma rolling_window_mean_length (w : nat) (xs : list float) :
  length (rolling_window_mean w xs) = length xs.
Proof.
  unfold rolling_window_mean. now rewrite length_map, length_seq.
Qed.

Lemma rolling_window_mean_nth (w : nat) (xs : list float) (i : nat) :
  (i < length xs)%nat ->
  nth i (rolling_window_mean w xs) None = window_mean w (window_at w xs i).
Proof.
  intros Hi. unfold rolling_window_mean.
  rewrite (nth_indep _ None (window_mean w (window_at w xs 0)))
    by now rewrite length_map, length_seq.
  rewrite (map_nth (fun i => window_mean w (window_at w xs i))).
  now rewrite seq_nth.
Qed.

(** A window that is not full has no mean. *)
Lemma window_mean_short (w : nat) (win : list float) :
  (length win < w)%nat -> window_mean w win = None.
Proof.
  intros Hlen. unfold window_mean.
  pose proof (observed_length_le win) as Hobs.
  destruct (Nat.leb_spec w (length (observed win))); [lia|reflexivity].
Qed.

Lemma window_mean_zero (win : list float) (w : nat) :
  length win = 0%nat -> window_mean w win = None.
Proof.
  intros Hlen. destruct win; [|discriminate].
  unfold window_mean. simpl. now rewrite andb_false_r.
Qed.

(** ** The columns [rating] and [rating_change] *)

Lemma as_float_defined (xs : list Z) :
  Forall (fun x => is_defined x = true) (as_float xs).
Proof.
  unfold as_float. apply Forall_forall. intros x Hin.
  apply in_map_iff in Hin. destruct Hin as [z [<- _]]. reflexivity.
Qed.

Lemma diff_length (xs : list Z) : length (diff xs) = length xs.
Proof.
  destruct xs as [|x tl]; [reflexivity|].
  unfold diff. cbn [length].
  rewrite length_map, length_combine. cbn [length]. lia.
Qed.

(** [diff] is NaN at position 0 and defined everywhere else. *)
Lemma diff_shape (xs : list Z) :
  xs <> [] ->
  exists tl, diff xs = None :: tl /\ Forall (fun x => is_defined x = true) tl.
Proof.
  destruct xs as [|x tl]; [congruence|]. intros _. simpl.
  eexists. split; [reflexivity|].
  apply Forall_forall. intros y Hin.
  apply in_map_iff in Hin. destruct Hin as [p [<- _]]. reflexivity.
Qed.

Lemma rolling_defined_all (w : nat) (xs : list float) (i : nat) :
  (0 < w)%nat -> (i < length xs)%nat ->
  Forall (fun x => is_defined x = true) xs ->
  (is_defined (nth i (rolling_window_mean w xs) None) = true <-> (w <= S i)%nat).
Proof.
  intros Hw Hi Hall.
  rewrite rolling_window_mean_nth by assumption.
  rewrite window_mean_defined by assumption.
  rewrite observed_all_defined.
  - rewrite window_at_length by assumption. lia.
  - apply Forall_forall. intros x Hin.
    apply window_at_incl in Hin.
    now apply (proj1 (Forall_forall _ _) Hall).
Qed.

Lemma rolling_defined_after_nan (w : nat) (tl : list float) (i : nat) :
  (0 < w)%nat -> (i < S (length tl))%nat ->
  Forall (fun x => is_defined x = true) tl ->
  (is_defined (nth i (rolling_window_mean w (None :: tl)) None) = true
   <-> (w <= i)%nat).
Proof.
  intros Hw Hi Hall.
  rewrite rolling_window_mean_nth by (simpl; lia).
  rewrite window_mean_defined by assumption.
  destruct (Nat.le_gt_cases w i) as [Hle|Hgt].
  - (* the window starts after the NaN *)
    split; [intros _; exact Hle|intros _].
    unfold window_at.
    replace (S i - w)%nat with (S (i - w)) by lia.
    rewrite skipn_cons.
    rewrite observed_all_defined.
    + rewrite length_firstn, length_skipn. lia.
    + apply Forall_forall. intros x Hin.
      apply in_firstn in Hin. apply in_skipn in Hin.
      now apply (proj1 (Forall_forall _ _) Hall).
  - (* the window still holds position 0 *)
    split; [|lia]. intros Hobs. exfalso.
    assert (Hin : In None (window_at w (None :: tl) i)).
    { unfold window_at. replace (S i - w)%nat with 0%nat by lia.
      simpl. now left. }
    apply observed_with_nan in Hin.
    rewrite window_at_length in Hin by (simpl; lia). lia.
Qed.

Lemma rolling_mean_ok (window : Z) (xs : list float) :
  0 <= window ->
  rolling_mean window xs = inr (rolling_window_mean (Z.to_nat window) xs).
Proof.
  intros Hw. unfold rolling_mean.
  destruct (Z.ltb_spec window 0); [lia|reflexivity].
Qed.

Lemma rolling_window_mean_all_nan (w : nat) (xs : list float) :
  (forall i, (i < length xs)%nat -> window_mean w (window_at w xs i) = None) ->
  rolling_window_mean w xs = repeat None (length xs).
Proof.
  intros Hnan. apply (nth_ext _ _ None None).
  - now rewrite rolling_window_mean_length, repeat_length.
  - intros i Hi. rewrite rolling_window_mean_length in Hi.
    rewrite rolling_window_mean_nth by assumption.
    rewrite nth_repeat. now apply Hnan.
Qed.

(** A window of size zero covers no cell. *)
Lemma rolling_window_mean_zero (xs : list float) :
  rolling_window_mean 0 xs = repeat None (length xs).
Proof.
  apply rolling_window_mean_all_nan. intros i Hi.
  apply window_mean_zero.
  rewrite window_at_length by assumption. reflexivity.
Qed.

(** A column shorter than the window never fills it. *)
Lemma rolling_window_mean_short (w : nat) (xs : list float) :
  (length xs < w)%nat ->
  rolling_window_mean w xs = repeat None (length xs).
Proof.
  intros Hlen. apply rolling_window_mean_all_nan. intros i Hi.
  apply window_mean_short.
  rewrite window_at_length by assumption. lia.
Qed.

(** ** The scan of [find_rating_plateaus] *)

Lemma scan_snoc (threshold : Q) (rows : list Row.t) (row : Row.t) :
  scan threshold (rows ++ [row]) = step threshold (scan threshold rows) row.
Proof.
  unfold scan. now rewrite fold_left_app.
Qed.

(** No row qualifies when every rolling change is NaN. *)
Lemma scan_all_nan (threshold : Q) (rows : list Row.t) :
  Forall (fun r => Row.rolling_change r = None) rows ->
  scan threshold rows = (None, []).
Proof.
  induction rows as [|row rows IH] using rev_ind; intros Hall.
  - reflexivity.
  - apply Forall_app in Hall. destruct Hall as [Hrows Hrow].
    rewrite scan_snoc, (IH Hrows).
    inversion Hrow as [|? ? Hnan _]; subst.
    unfold step. now rewrite Hnan.
Qed.

Lemma iterrows_set (df : DF.t) (rc : list float) :
  iterrows (DF.set_rolling_change df rc) =
  map (fun c => let '(d, r, g, x) := c in Row.mk d r g x)
      (combine (combine (combine (DF.date df) (DF.rating df))
                        (DF.games_played df)) rc).
Proof. reflexivity. Qed.

Lemma iterrows_rolling_change (df : DF.t) (rc : list float) (row : Row.t) :
  In row (iterrows (DF.set_rolling_change df rc)) ->
  In (Row.rolling_change row) rc.
Proof.
  rewrite iterrows_set. intros Hin.
  apply in_map_iff in Hin. destruct Hin as [[[[d r] g] x] [<- Hin]].
  apply in_combine_r in Hin. exact Hin.
Qed.

(** A frame whose rolling change is NaN throughout yields no plateau. *)
Lemma find_rating_plateaus_all_nan (df : DF.t) (window : Z) (threshold : Q) :
  rolling_mean window (DF.rating_change df)
  = inr (repeat None (length (DF.rating_change df))) ->
  find_rating_plateaus df window threshold
  = inr ([], DF.set_rolling_change df
               (repeat None (length (DF.rating_change df)))).
Proof.
  intros Hroll. unfold find_rating_plateaus. rewrite Hroll.
  rewrite scan_all_nan; [reflexivity|].
  apply Forall_forall. intros row Hin.
  apply iterrows_rolling_change in Hin.
  now apply repeat_spec in Hin.
Qed.

Section ScanInvariant.
Variable threshold : Q.

Lemma qualifies_app_l (pre post : list Row.t) (k : nat) :
  (k < length pre)%nat ->
  qualifies threshold (pre ++ post) k = qualifies threshold pre k.
Proof.
  intros Hk. unfold qualifies. now rewrite nth_error_app1.
Qed.

Lemma qualifies_last (pre : list Row.t) (row : Row.t) :
  qualifies threshold (pre ++ [row]) (length pre)
  = below threshold (Row.rolling_change row).
Proof.
  unfold qualifies. rewrite nth_error_app2 by lia.
  now rewrite Nat.sub_diag.
Qed.

Lemma closed_run_app (pre : list Row.t) (row : Row.t) (i j : nat) :
  (j < length pre)%nat ->
  closed_run threshold (pre ++ [row]) i j <-> closed_run threshold pre i j.
Proof.
  intros Hj. unfold closed_run. rewrite length_app. simpl.
  split; intros (Hij & Hrun & Hend & Hanchor); repeat split; try lia.
  - intros k Hk. rewrite <- (qualifies_app_l pre [row]) by lia. now apply Hrun.
  - now rewrite <- (qualifies_app_l pre [row]) by lia.
  - destruct Hanchor as [Hz|Hprev]; [now left|right].
    now rewrite <- (qualifies_app_l pre [row]) by lia.
  - intros k Hk. rewrite qualifies_app_l by lia. now apply Hrun.
  - now rewrite qualifies_app_l by lia.
  - destruct Hanchor as [Hz|Hprev]; [now left|right].
    now rewrite qualifies_app_l by lia.
Qed.

Lemma spans_app (pre : list Row.t) (row : Row.t) (i j : nat) (p : Plateau.t) :
  (i < length pre)%nat -> (j < length pre)%nat ->
  spans (pre ++ [row]) i j p <-> spans pre i j p.
Proof.
  intros Hi Hj. unfold spans.
  now rewrite !nth_error_app1 by assumption.
Qed.

(** A closed run ends below the last position or at it. *)
Lemma closed_run_snoc (pre : list Row.t) (row : Row.t) (i j : nat) :
  closed_run threshold (pre ++ [row]) i j ->
  (j < length pre)%nat \/ j = length pre.
Proof.
  intros ((_ & Hj) & _). rewrite length_app in Hj. simpl in Hj. lia.
Qed.

Lemma scan_inv_nil : scan_inv threshold [] (None, []).
Proof.
  constructor; simpl.
  - intros p. split; [contradiction|].
    intros (i & j & ((_ & Hj) & _) & _). simpl in Hj. lia.
  - discriminate.
  - now left.
Qed.

(** The plateaus known so far stay the closed runs when a row is added
    that closes nothing. *)
Lemma plateaus_kept (pre : list Row.t) (row : Row.t) (ps : list Plateau.t) :
  (forall p, In p ps <->
     exists i j, closed_run threshold pre i j /\ spans pre i j p) ->
  (forall i, ~ closed_run threshold (pre ++ [row]) i (length pre)) ->
  forall p, In p ps <->
    exists i j, closed_run threshold (pre ++ [row]) i j /\
                spans (pre ++ [row]) i j p.
Proof.
  intros Hps Hnone p. rewrite Hps. split.
  - intros (i & j & Hrun & Hsp). exists i, j.
    assert (Hj : (i < j < length pre)%nat) by apply Hrun.
    split; [apply closed_run_app|apply spans_app]; auto; lia.
  - intros (i & j & Hrun & Hsp). exists i, j.
    destruct (closed_run_snoc _ _ _ _ Hrun) as [Hj| ->].
    + assert (Hi : (i < j)%nat) by apply Hrun.
      split; [apply (closed_run_app pre row)|apply (spans_app pre row)];
        auto; lia.
    + exfalso. now apply (Hnone i).
Qed.

Lemma scan_inv_step (pre : list Row.t) (row : Row.t)
  (st : option Current.t * list Plateau.t) :
  scan_inv threshold pre st ->
  scan_inv threshold (pre ++ [row]) (step threshold st row).
Proof.
  intros [Hps Hopen Hidle]. destruct st as [cur ps]. simpl in *.
  unfold step.
  destruct (below threshold (Row.rolling_change row)) eqn:Hb.
  - (* the row qualifies: nothing is closed *)
    assert (Hnone : forall i, ~ closed_run threshold (pre ++ [row]) i (length pre)).
    { intros i (_ & _ & Hend & _). rewrite qualifies_last in Hend. congruence. }
    destruct cur as [c|]; constructor; simpl.
    + now apply plateaus_kept.
    + intros c' Hc'. injection Hc' as <-.
      destruct (Hopen c eq_refl) as (i & ri & Hi & Hc & Hrun & Hanchor).
      assert (Hlt : (i < length pre)%nat) by (apply nth_error_Some; congruence).
      exists i, ri. repeat split.
      * now rewrite nth_error_app1.
      * assumption.
      * intros k Hk. rewrite length_app in Hk. simpl in Hk.
        destruct (Nat.eq_dec k (length pre)) as [->|Hne].
        -- now rewrite qualifies_last.
        -- rewrite qualifies_app_l by lia. apply Hrun. lia.
      * destruct Hanchor as [Hz|Hprev]; [now left|right].
        now rewrite qualifies_app_l by lia.
    + discriminate.
    + now apply plateaus_kept.
    + intros c Hc. injection Hc as <-.
      exists (length pre), row. repeat split.
      * rewrite nth_error_app2 by lia. now rewrite Nat.sub_diag.
      * intros k Hk. rewrite length_app in Hk. simpl in Hk.
        replace k with (length pre) by lia. now rewrite qualifies_last.
      * destruct (Hidle eq_refl) as [->|Hprev]; [now left|].
        destruct pre as [|r0 pre']; [now left|right].
        rewrite qualifies_app_l by (simpl; lia). exact Hprev.
    + discriminate.
  - (* the row does not qualify *)
    destruct cur as [c|]; constructor; simpl.
    + (* the open plateau is closed with this row *)
      destruct (Hopen c eq_refl) as (i & ri & Hi & Hc & Hrun & Hanchor).
      assert (Hlt : (i < length pre)%nat) by (apply nth_error_Some; congruence).
      assert (Hnew : closed_run threshold (pre ++ [row]) i (length pre)).
      { unfold closed_run. rewrite length_app. simpl. repeat split; try lia.
        - intros k Hk. rewrite qualifies_app_l by lia. apply Hrun. lia.
        - now rewrite qualifies_last.
        - destruct Hanchor as [Hz|Hprev]; [now left|right].
          now rewrite qualifies_app_l by lia. }
      intros p. rewrite in_app_iff. simpl. split.
      * intros [Hin|[<-|[]]].
        -- apply Hps in Hin. destruct Hin as (i' & j' & Hrun' & Hsp').
           exists i', j'.
           assert (Hj : (i' < j' < length pre)%nat) by apply Hrun'.
           split; [apply closed_run_app|apply spans_app]; auto; lia.
        -- exists i, (length pre). split; [exact Hnew|].
           exists ri, row. repeat split.
           ++ now rewrite nth_error_app1.
           ++ rewrite nth_error_app2 by lia. now rewrite Nat.sub_diag.
           ++ now rewrite Hc.
      * intros (i' & j' & Hrun' & Hsp').
        destruct (closed_run_snoc _ _ _ _ Hrun') as [Hj| ->].
        -- left. apply Hps. exists i', j'.
           assert (Hi' : (i' < j')%nat) by apply Hrun'.
           split; [apply (closed_run_app pre row)|apply (spans_app pre row)];
             auto; lia.
        -- right. left.
           destruct Hrun' as ((Hi' & _) & Hrun' & _ & Hanchor').
           assert (Heq : i' = i).
           { destruct (Nat.lt_trichotomy i' i) as [Hl|[He|Hg]]; [|exact He|].
             - exfalso. destruct Hanchor as [Hz|Hprev]; [lia|].
               specialize (Hrun' (i - 1)%nat ltac:(lia)).
               rewrite qualifies_app_l in Hrun' by lia. congruence.
             - exfalso. destruct Hanchor' as [Hz|Hprev]; [lia|].
               rewrite qualifies_app_l in Hprev by lia.
               specialize (Hrun (i' - 1)%nat ltac:(lia)). congruence. }
           subst i'. destruct Hsp' as (ri' & rj' & Hri' & Hrj' & ->).
           rewrite nth_error_app1 in Hri' by assumption.
           rewrite nth_error_app2, Nat.sub_diag in Hrj' by lia.
           simpl in Hrj'. congruence.
    + discriminate.
    + intros _. right. rewrite length_app. simpl.
      replace (length pre + 1 - 1)%nat with (length pre) by lia.
      now rewrite qualifies_last.
    + (* nothing was open *)
      apply plateaus_kept; [exact Hps|].
      intros i ((Hi & _) & Hrun & _).
      destruct (Hidle eq_refl) as [->|Hprev]; [simpl in Hi; lia|].
      specialize (Hrun (length pre - 1)%nat ltac:(lia)).
      rewrite qualifies_app_l in Hrun by lia. congruence.
    + discriminate.
    + intros _. right. rewrite length_app. simpl.
      replace (length pre + 1 - 1)%nat with (length pre) by lia.
      now rewrite qualifies_last.
Qed.

Lemma scan_invariant (rows : list Row.t) :
  scan_inv threshold rows (scan threshold rows).
Proof.
  induction rows as [|row pre IH] using rev_ind.
  - apply scan_inv_nil.
  - rewrite scan_snoc. now apply scan_inv_step.
Qed.

(** The plateaus of a scan are the closed runs of its rows. *)
Lemma scan_plateaus (rows : list Row.t) (p : Plateau.t) :
  In p (snd (scan threshold rows)) <->
  exists i j, closed_run threshold rows i j /\ spans rows i j p.
Proof.
  apply (inv_plateaus _ _ _ (scan_invariant rows)).
Qed.

End ScanInvariant.

Lemma below_true_iff (threshold : Q) (x : float) :
  below threshold x = true <->
  exists q, x = Some q /\ (Qabs q < threshold)%Q.
Proof.
  unfold below. destruct x as [q|].
  - rewrite negb_true_iff. split.
    + intros Hle. exists q. split; [reflexivity|].
      apply Qnot_le_lt. intros Hc. apply Qle_bool_iff in Hc. congruence.
    + intros (q' & Heq & Hlt). injection Heq as <-.
      destruct (Qle_bool threshold (Qabs q)) eqn:Hle; [|reflexivity].
      apply Qle_bool_iff in Hle. exfalso. now apply (Qlt_not_le _ _ Hlt).
  - split; [discriminate|]. intros (q & Heq & _). discriminate.
Qed.

Lemma below_false_iff (threshold : Q) (x : float) :
  below threshold x = false <->
  x = None \/ exists q, x = Some q /\ (threshold <= Qabs q)%Q.
Proof.
  unfold below. destruct x as [q|].
  - rewrite negb_false_iff, Qle_bool_iff. split.
    + intros Hle. right. now exists q.
    + intros [Hn|(q' & Heq & Hle)]; [discriminate|]. now injection Heq as <-.
  - split; [now left|reflexivity].
Qed.

Lemma find_rating_plateaus_inr (df : DF.t) (window : Z) (threshold : Q)
  (ps : list Plateau.t) (df' : DF.t) :
  find_rating_plateaus df window threshold = inr (ps, df') ->
  exists rc,
    rolling_mean window (DF.rating_change df) = inr rc /\
    df' = DF.set_rolling_change df rc /\
    ps = snd (scan threshold (iterrows df')).
Proof.
  unfold find_rating_plateaus.
  destruct (rolling_mean window (DF.rating_change df)) as [e|rc];
    [discriminate|].
  intros Heq. injection Heq as <- <-. now exists rc.
Qed.

Lemma nth_error_combine {A B : Type} (l1 : list A) (l2 : list B) (k : nat)
  (a : A) (b : B) :
  nth_error (combine l1 l2) k = Some (a, b) ->
  nth_error l1 k = Some a /\ nth_error l2 k = Some b.
Proof.
  revert l2 k. induction l1 as [|x l1 IH]; intros [|y l2] [|k]; simpl;
    try discriminate.
  - intros Heq. injection Heq as <- <-. now split.
  - apply IH.
Qed.

(** In a frame built by [derived_columns] the row at position [k] carries
    [games_played = k]. *)
Lemma iterrows_games_played (entries : list Entry.t) (rc : list float)
  (k : nat) (row : Row.t) :
  nth_error (iterrows (DF.set_rolling_change (derived_columns entries) rc)) k
  = Some row ->
  Row.games_played row = Z.of_nat k.
Proof.
  rewrite iterrows_set, nth_error_map.
  destruct (nth_error _ k) as [[[[d r] g] x]|] eqn:Hk; [|discriminate].
  intros Heq. injection Heq as <-. simpl.
  apply nth_error_combine in Hk. destruct Hk as [Hk _].
  apply nth_error_combine in Hk. destruct Hk as [_ Hg].
  simpl in Hg. rewrite nth_error_map, nth_error_seq in Hg.
  destruct (Nat.ltb k (length entries)); simpl in Hg; [|discriminate].
  now injection Hg as <-.
Qed.

(** ** A worked run

    Eight games, window 2, threshold 3: the rolling change qualifies at
    rows 2 and 3, row 4 closes the run, and the run that starts at row 7
    is still open when the frame ends. *)

Lemma example_run :
  find_rating_plateaus (frame_of_ratings example_ratings) 2 3
  = inr ([example_plateau],
         DF.set_rolling_change (frame_of_ratings example_ratings)
                               example_rolling_change).
Proof. vm_compute. reflexivity. Qed.

(** ** The statements about the plateau detector *)

(** C3.  The plateaus [find_rating_plateaus] returns are exactly the closed
    runs of the scanned rows, so a run that is still open at the last row
    is not returned.  Every returned plateau is closed by the first row
    after its anchor whose rolling change is NaN or at least the threshold
    in magnitude; [end_rating], [end_game_number] and [end_date] are that
    row's rating, game number and date. *)
Theorem find_rating_plateaus_closed_runs (df : DF.t) (window : Z)
  (threshold : Q) (ps : list Plateau.t) (df' : DF.t) :
  find_rating_plateaus df window threshold = inr (ps, df') ->
  let rows := iterrows df' in
  (forall p, In p ps <->
     exists i j, closed_run threshold rows i j /\ spans rows i j p) /\
  (forall p, In p ps ->
     exists i j ri rj,
       (i < j)%nat /\
       nth_error rows i = Some ri /\ nth_error rows j = Some rj /\
       (forall k r, (i <= k < j)%nat -> nth_error rows k = Some r ->
          exists q, Row.rolling_change r = Some q /\ (Qabs q < threshold)%Q) /\
       (Row.rolling_change rj = None \/
        exists q, Row.rolling_change rj = Some q /\ (threshold <= Qabs q)%Q) /\
       Plateau.end_rating p = Row.rating rj /\
       Plateau.end_game_number p = Row.games_played rj /\
       Plateau.end_date p = Row.date rj /\
       Plateau.start_rating p = Row.rating ri /\
       Plateau.start_game_number p = Row.games_played ri /\
       Plateau.start_date p = Row.date ri).
Proof.
  intros Hrun rows.
  destruct (find_rating_plateaus_inr _ _ _ _ _ Hrun) as (rc & _ & _ & ->).
  fold rows. split.
  - intros p. apply scan_plateaus.
  - intros p Hin. apply scan_plateaus in Hin.
    destruct Hin as (i & j & (Hij & Hqual & Hend & _) & (ri & rj & Hi & Hj & ->)).
    exists i, j, ri, rj. repeat split; try assumption; try lia.
    + intros k r Hk Hr. specialize (Hqual k Hk).
      unfold qualifies in Hqual. rewrite Hr in Hqual.
      now apply below_true_iff.
    + unfold qualifies in Hend. rewrite Hj in Hend.
      now apply below_false_iff.
Qed.

Lemma find_rating_plateaus_closed_runs_witness :
  let df := frame_of_ratings example_ratings in
  let df' := DF.set_rolling_change df example_rolling_change in
  find_rating_plateaus df 2 3 = inr ([example_plateau], df') /\
  (forall p, In p [example_plateau] <->
     exists i j, closed_run 3 (iterrows df') i j /\ spans (iterrows df') i j p).
Proof.
  split; [exact example_run|].
  exact (proj1 (find_rating_plateaus_closed_runs _ _ _ _ _ example_run)).
Defined.

(** C9.  On a frame built by the series builder, every returned plateau
    starts at a game number strictly below the one it ends at, and its
    [games_span] is at least 1. *)
Theorem plateau_start_before_end (entries : list Entry.t) (window : Z)
  (threshold : Q) (ps : list Plateau.t) (df' : DF.t) :
  find_rating_plateaus (derived_columns entries) window threshold
  = inr (ps, df') ->
  forall p, In p ps ->
    Plateau.start_game_number p < Plateau.end_game_number p /\
    1 <= Plateau.games_span p /\
    Plateau.games_span p
    = Plateau.end_game_number p - Plateau.start_game_number p.
Proof.
  intros Hrun p Hin.
  destruct (find_rating_plateaus_inr _ _ _ _ _ Hrun) as (rc & _ & -> & ->).
  apply scan_plateaus in Hin.
  destruct Hin as (i & j & ((Hij & _) & _) & (ri & rj & Hi & Hj & ->)).
  apply iterrows_games_played in Hi, Hj.
  simpl. rewrite Hi, Hj. lia.
Qed.

Lemma plateau_start_before_end_witness :
  find_rating_plateaus (frame_of_ratings example_ratings) 2 3
  = inr ([example_plateau],
         DF.set_rolling_change (frame_of_ratings example_ratings)
                               example_rolling_change) /\
  Plateau.start_game_number example_plateau
  < Plateau.end_game_number example_plateau.
Proof.
  split; [exact example_run|].
  apply (plateau_start_before_end _ _ _ _ _ example_run example_plateau).
  now left.
Defined.

(** C8.  Running [find_rating_plateaus] a second time on the same frame,
    with the same window and threshold, returns what the first run
    returned and leaves the frame as the first run left it. *)
Theorem find_rating_plateaus_idempotent (df : DF.t) (window : Z)
  (threshold : Q) :
  second_run df window threshold = find_rating_plateaus df window threshold.
Proof.
  unfold second_run.
  destruct (find_rating_plateaus df window threshold) as [e|[ps df']] eqn:Hrun;
    [reflexivity|].
  destruct (find_rating_plateaus_inr _ _ _ _ _ Hrun) as (rc & Hroll & -> & ->).
  unfold find_rating_plateaus. simpl. rewrite Hroll. reflexivity.
Qed.

(** C10.  A successful call writes the column [rolling_change], whether or
    not the frame had one, and leaves the other seven columns as they
    were. *)
Theorem find_rating_plateaus_frame (df : DF.t) (window : Z) (threshold : Q)
  (ps : list Plateau.t) (df' : DF.t) :
  find_rating_plateaus df window threshold = inr (ps, df') ->
  (exists rc,
     rolling_mean window (DF.rating_change df) = inr rc /\
     DF.rolling_change df' = Some rc) /\
  DF.date df' = DF.date df /\
  DF.rating df' = DF.rating df /\
  DF.time_control df' = DF.time_control df /\
  DF.rating_change df' = DF.rating_change df /\
  DF.games_played df' = DF.games_played df /\
  DF.rolling_rating df' = DF.rolling_rating df /\
  DF.rating_change_rate df' = DF.rating_change_rate df.
Proof.
  intros Hrun.
  destruct (find_rating_plateaus_inr _ _ _ _ _ Hrun) as (rc & Hroll & -> & _).
  split; [now exists rc|]. repeat split.
Qed.

Lemma find_rating_plateaus_frame_witness :
  let df := frame_of_ratings example_ratings in
  let df' := DF.set_rolling_change df example_rolling_change in
  find_rating_plateaus df 2 3 = inr ([example_plateau], df') /\
  DF.rolling_change df = None /\
  DF.rolling_change df' = Some example_rolling_change /\
  DF.rating df' = DF.rating df.
Proof.
  split; [exact example_run|]. split; [reflexivity|]. split; [reflexivity|].
  exact (proj1 (proj2 (proj2
           (find_rating_plateaus_frame _ _ _ _ _ example_run)))).
Defined.

(** ** The scenario of the specification *)

Lemma forallb_defined (cells : list float) :
  forallb is_defined cells = true ->
  Forall (fun x => is_defined x = true) cells.
Proof.
  intros Hall. apply Forall_forall. now apply forallb_forall.
Qed.

Lemma forallb_undefined (cells : list float) :
  forallb is_defined cells = false -> In None cells.
Proof.
  induction cells as [|[q|] tl IH]; simpl; intros Hf.
  - discriminate.
  - right. now apply IH.
  - now left.
Qed.

(** The rolling mean of pandas is the rolling change of the
    specification. *)
Lemma rolling_change_refines (w : nat) (xs : list float) :
  (0 < w)%nat ->
  rolling_window_mean w xs = map (Spec.rolling_change w xs) (seq 0 (length xs)).
Proof.
  intros Hw. unfold rolling_window_mean. apply map_ext_in.
  intros i Hi. apply in_seq in Hi. unfold Spec.rolling_change.
  destruct (Nat.ltb_spec 0 w) as [_|]; [|lia].
  destruct (Nat.leb_spec w (S i)) as [Hfull|Hshort]; cbn [andb].
  - assert (Hcells : window_at w xs i = firstn w (skipn (S i - w) xs)).
    { unfold window_at. f_equal. lia. }
    rewrite Hcells.
    assert (Hlen : length (firstn w (skipn (S i - w) xs)) = w).
    { rewrite length_firstn, length_skipn. lia. }
    destruct (forallb is_defined (firstn w (skipn (S i - w) xs))) eqn:Hall.
    + apply forallb_defined, observed_all_defined in Hall.
      unfold window_mean. rewrite Hall, Hlen.
      rewrite Nat.leb_refl. destruct (Nat.ltb_spec 0 w); [reflexivity|lia].
    + apply forallb_undefined, observed_with_nan in Hall.
      unfold window_mean.
      destruct (Nat.leb_spec w (length (observed (firstn w (skipn (S i - w) xs)))));
        [lia|reflexivity].
  - apply window_mean_short. rewrite window_at_length by lia. lia.
Qed.

(** The loop of the code emits what the loop of the specification
    emits. *)
Lemma scan_refines (threshold : Q) (rows : list Row.t)
  (cur : option Current.t) (ps : list Plateau.t) :
  snd (fold_left (step threshold) rows (cur, ps))
  = ps ++ Spec.detect threshold cur rows.
Proof.
  revert cur ps. induction rows as [|r rows IH]; intros cur ps.
  - simpl. now rewrite app_nil_r.
  - cbn [fold_left Spec.detect]. unfold step at 2, below.
    destruct (Row.rolling_change r) as [x|].
    + destruct (Qlt_le_dec (Qabs x) threshold) as [Hlt|Hle].
      * assert (Hb : Qle_bool threshold (Qabs x) = false).
        { destruct (Qle_bool threshold (Qabs x)) eqn:Hq; [|reflexivity].
          apply Qle_bool_iff in Hq. exfalso. now apply (Qlt_not_le _ _ Hlt). }
        rewrite Hb. cbn [negb]. destruct cur as [c|]; apply IH.
      * assert (Hb : Qle_bool threshold (Qabs x) = true)
          by now apply Qle_bool_iff.
        rewrite Hb. cbn [negb]. destruct cur as [c|]; rewrite IH;
          [now rewrite <- app_assoc|reflexivity].
    + destruct cur as [c|]; rewrite IH;
        [now rewrite <- app_assoc|reflexivity].
Qed.

(** For a positive window [find_rating_plateaus] returns the plateaus of
    the specification. *)
Lemma find_rating_plateaus_refines (df : DF.t) (window : Z) (threshold : Q) :
  0 < window ->
  exists df',
    find_rating_plateaus df window threshold
    = inr (Spec.plateaus df (Z.to_nat window) threshold, df').
Proof.
  intros Hw. unfold find_rating_plateaus, Spec.plateaus.
  rewrite rolling_mean_ok by lia.
  rewrite rolling_change_refines by lia.
  eexists. unfold scan. rewrite scan_refines. reflexivity.
Qed.

(** C2.  For the ratings 1000, 1010, 1005, 1020, 1022, 1021, 1023 the
    rating changes are NaN, 10, -5, 15, 2, -1, 2; with window 3 the rolling
    change is defined from row 3 on (20/3, 4, 16/3, 1); against threshold 3
    only row 6 qualifies, so the only run is still open when the frame
    ends and no plateau is returned, which is also what the algorithm of
    the specification yields. *)
Theorem scenario_plateaus (date : nat -> Z) (time_control : nat -> string) :
  let df := derived_columns (scenario_entries date time_control) in
  DF.rating df = scenario_ratings /\
  DF.rating_change df
  = [None; Some 10%Q; Some (-5)%Q; Some 15%Q; Some 2%Q; Some (-1)%Q; Some 2%Q] /\
  rolling_mean 3 (DF.rating_change df) = inr scenario_rolling_change /\
  map (Spec.rolling_change 3 (DF.rating_change df)) (seq 0 7)
  = scenario_rolling_change /\
  map (below 3) scenario_rolling_change
  = [false; false; false; false; false; false; true] /\
  find_rating_plateaus df 3 3
  = inr ([], DF.set_rolling_change df scenario_rolling_change) /\
  Spec.plateaus df 3 3 = [].
Proof.
  repeat split.
Qed.

(** ** The statements about the rolling columns *)

(** C5.  On the frame of any rating history and for any positive window
    [W], the rolling mean of [rating] is defined at row [i] exactly when
    [W - 1 <= i], and the rolling mean of [rating_change] exactly when
    [W <= i]; the columns the builder stores are those of [W = 20]. *)
Theorem rolling_columns_defined (entries : list Entry.t) (W : Z) (i : nat) :
  0 < W -> (i < length entries)%nat ->
  let df := derived_columns entries in
  (exists rr rd,
     rolling_mean W (as_float (DF.rating df)) = inr rr /\
     rolling_mean W (DF.rating_change df) = inr rd /\
     length rr = length entries /\ length rd = length entries /\
     (is_defined (nth i rr None) = true <-> W - 1 <= Z.of_nat i) /\
     (is_defined (nth i rd None) = true <-> W <= Z.of_nat i)) /\
  rolling_mean 20 (as_float (DF.rating df)) = inr (DF.rolling_rating df) /\
  rolling_mean 20 (DF.rating_change df) = inr (DF.rating_change_rate df).
Proof.
  intros HW Hi df. split; [|split; reflexivity].
  exists (rolling_window_mean (Z.to_nat W) (as_float (DF.rating df))),
         (rolling_window_mean (Z.to_nat W) (DF.rating_change df)).
  assert (Hw : (0 < Z.to_nat W)%nat) by lia.
  assert (Hlen : length (map Entry.rating entries) = length entries)
    by apply length_map.
  split; [apply rolling_mean_ok; lia|].
  split; [apply rolling_mean_ok; lia|].
  subst df. simpl.
  split; [unfold as_float; now rewrite rolling_window_mean_length, length_map|].
  split; [now rewrite rolling_window_mean_length, diff_length|].
  split.
  - rewrite rolling_defined_all.
    + lia.
    + exact Hw.
    + unfold as_float. rewrite length_map. lia.
    + apply as_float_defined.
  - destruct (diff_shape (map Entry.rating entries)) as (tl & Hdiff & Hall).
    { destruct entries; [simpl in Hi; lia|discriminate]. }
    assert (Htl : S (length tl) = length entries).
    { rewrite <- Hlen, <- diff_length, Hdiff. reflexivity. }
    rewrite Hdiff, rolling_defined_after_nan.
    + lia.
    + exact Hw.
    + lia.
    + exact Hall.
Qed.

(** Twenty-one games: window 20 leaves row 18 of [rolling_rating] NaN and
    defines row 19; [rating_change_rate] starts one row later. *)
Lemma rolling_columns_defined_witness :
  let df := frame_of_ratings (map Z.of_nat (seq 1500 21)) in
  map is_defined (DF.rolling_rating df)
  = repeat false 19 ++ [true; true] /\
  map is_defined (DF.rating_change_rate df)
  = repeat false 20 ++ [true] /\
  (is_defined (nth 19 (DF.rolling_rating df) None) = true <-> 20 - 1 <= 19) /\
  (is_defined (nth 19 (DF.rating_change_rate df) None) = true <-> 20 <= 19).
Proof.
  split; [vm_compute; reflexivity|]. split; [vm_compute; reflexivity|].
  destruct (rolling_columns_defined
              (map (fun r => Entry.mk 0 r "600") (map Z.of_nat (seq 1500 21)))
              20 19 ltac:(lia) ltac:(vm_compute; lia))
    as [(rr & rd & Hrr & Hrd & _ & _ & Hdef_r & Hdef_d) [Hsr Hsd]].
  rewrite Hsr in Hrr. rewrite Hsd in Hrd.
  injection Hrr as <-. injection Hrd as <-.
  split; [exact Hdef_r|exact Hdef_d].
Defined.

(** Eight games are fewer than the twenty of the builder's window. *)
Lemma short_history_all_nan (entries : list Entry.t) :
  (length entries < 20)%nat ->
  DF.rolling_rating (derived_columns entries) = repeat None (length entries) /\
  DF.rating_change_rate (derived_columns entries)
  = repeat None (length entries).
Proof.
  intros Hlen. simpl. split.
  - rewrite rolling_window_mean_short; unfold as_float; rewrite !length_map;
      [reflexivity|assumption].
  - rewrite rolling_window_mean_short; rewrite diff_length, length_map;
      [reflexivity|assumption].
Qed.

(** C7, as the code has it.  pandas rejects a negative window with
    [ValueError] and [find_rating_plateaus] passes the exception on; a
    window of zero is accepted and gives an all-NaN column, and so does a
    positive window longer than the column; in both cases no plateau is
    returned.  The builder's own window is the constant 20, so a history
    of fewer than 20 games gets all-NaN rolling columns. *)
Theorem rolling_window_cases (df : DF.t) (window : Z) (threshold : Q) :
  let n := length (DF.rating_change df) in
  (window < 0 ->
   rolling_mean window (DF.rating_change df) = inl ValueError /\
   find_rating_plateaus df window threshold = inl ValueError) /\
  (window = 0 \/ Z.of_nat n < window ->
   rolling_mean window (DF.rating_change df) = inr (repeat None n) /\
   find_rating_plateaus df window threshold
   = inr ([], DF.set_rolling_change df (repeat None n))) /\
  (forall entries, (length entries < 20)%nat ->
   DF.rolling_rating (derived_columns entries) = repeat None (length entries) /\
   DF.rating_change_rate (derived_columns entries)
   = repeat None (length entries)).
Proof.
  intros n. split; [|split].
  - intros Hneg.
    assert (Hroll : rolling_mean window (DF.rating_change df) = inl ValueError).
    { unfold rolling_mean. destruct (Z.ltb_spec window 0); [reflexivity|lia]. }
    split; [exact Hroll|].
    unfold find_rating_plateaus. now rewrite Hroll.
  - intros Hcase.
    assert (Hroll : rolling_mean window (DF.rating_change df)
                    = inr (repeat None n)).
    { rewrite rolling_mean_ok by lia. f_equal.
      destruct Hcase as [->|Hlong].
      - apply rolling_window_mean_zero.
      - apply rolling_window_mean_short. lia. }
    split; [exact Hroll|].
    now apply find_rating_plateaus_all_nan.
  - apply short_history_all_nan.
Qed.

Lemma rolling_window_cases_witness :
  let df := frame_of_ratings scenario_ratings in
  find_rating_plateaus df (-1) 3 = inl ValueError /\
  find_rating_plateaus df 8 3
  = inr ([], DF.set_rolling_change df (repeat None 7)) /\
  DF.rolling_rating df = repeat None 7.
Proof.
  intros df.
  pose proof (rolling_window_cases df (-1) 3) as (Hneg & _ & _).
  pose proof (rolling_window_cases df 8 3) as (_ & Hlong & Hshort).
  split; [exact (proj2 (Hneg ltac:(lia)))|].
  split; [exact (proj2 (Hlong ltac:(right; vm_compute; reflexivity)))|].
  exact (proj1 (Hshort (map (fun r => Entry.mk 0 r "600") scenario_ratings)
                  ltac:(vm_compute; lia))).
Defined.

(** A window of zero is not rejected: the call succeeds, the rolling
    change is NaN in every row and the list of plateaus is empty. *)
Lemma zero_window_is_accepted :
  let df := frame_of_ratings scenario_ratings in
  rolling_mean 0 (DF.rating_change df) = inr (repeat None 7) /\
  find_rating_plateaus df 0 3
  = inr ([], DF.set_rolling_change df (repeat None 7)).
Proof.
  split; vm_compute; reflexivity.
Qed.

(** ** The statement about the summary *)

Lemma last_cons {A : Type} (l : list A) (x d : A) :
  last (x :: l) d = last l x.
Proof.
  revert x d. induction l as [|y l IH]; intros x d; [reflexivity|].
  change (last (x :: y :: l) d) with (last (y :: l) d).
  now rewrite (IH y d), (IH y x).
Qed.

(** C6.  On a frame with at least one row the summary is returned;
    [total_gain] is the last rating minus the first, and
    [average_gain_per_game] is [total_gain] divided by the number of
    rows. *)
Theorem metrics_gain (df : DF.t) :
  DF.rating df <> [] ->
  exists m,
    calculate_progress_metrics df = inr m /\
    Metrics.total_games m = Z.of_nat (length (DF.rating df)) /\
    Metrics.initial_rating m = hd 0 (DF.rating df) /\
    Metrics.final_rating m = last (DF.rating df) 0 /\
    Metrics.total_gain m = Metrics.final_rating m - Metrics.initial_rating m /\
    (Metrics.average_gain_per_game m
     == inject_Z (Metrics.total_gain m) / inject_Z (Metrics.total_games m))%Q.
Proof.
  intros Hne. unfold calculate_progress_metrics.
  destruct (DF.rating df) as [|first rest] eqn:Hr; [congruence|].
  eexists. split; [reflexivity|].
  cbn [Metrics.total_games Metrics.initial_rating Metrics.final_rating
       Metrics.total_gain Metrics.average_gain_per_game hd].
  repeat split.
  - symmetry. apply last_cons.
  - apply Qred_correct.
Qed.

Lemma metrics_gain_witness :
  DF.rating (frame_of_ratings example_ratings) <> [] /\
  exists m,
    calculate_progress_metrics (frame_of_ratings example_ratings) = inr m /\
    Metrics.total_games m = 8 /\
    Metrics.total_gain m = 42 /\
    Metrics.average_gain_per_game m = (21 # 4)%Q.
Proof.
  assert (Hne : DF.rating (frame_of_ratings example_ratings) <> [])
    by discriminate.
  split; [exact Hne|].
  destruct (metrics_gain _ Hne) as (m & Hm & _).
  exists m. split; [exact Hm|].
  vm_compute in Hm. injection Hm as <-. repeat split.
Defined.

(** ** Sorting permutations *)

Lemma nondecreasing_sorted (l : list Z) :
  nondecreasing l = true -> Sorted Z.le l.
Proof.
  induction l as [|x tl IH]; intros Hnd; [constructor|].
  destruct tl as [|y tl'].
  - repeat constructor.
  - simpl in Hnd. apply andb_true_iff in Hnd. destruct Hnd as [Hxy Htl].
    constructor; [now apply IH|].
    constructor. now apply Z.leb_le.
Qed.

Lemma take_map {A B : Type} (f : A -> B) (indexer : list nat) (rows : list A) :
  map f (take indexer rows) = take indexer (map f rows).
Proof.
  unfold take. induction indexer as [|i ix IH]; [reflexivity|].
  simpl. rewrite map_app, IH, nth_error_map.
  now destruct (nth_error rows i).
Qed.

Lemma take_seq_from {A : Type} (pre rows : list A) :
  take (seq (length pre) (length rows)) (pre ++ rows) = rows.
Proof.
  revert pre. induction rows as [|r rows IH]; intros pre; [reflexivity|].
  simpl. rewrite nth_error_app2, Nat.sub_diag by lia. simpl. f_equal.
  specialize (IH (pre ++ [r])).
  rewrite length_app, <- app_assoc in IH. simpl in IH.
  now rewrite Nat.add_1_r in IH.
Qed.

Lemma take_seq {A : Type} (rows : list A) :
  take (seq 0 (length rows)) rows = rows.
Proof.
  apply (take_seq_from [] rows).
Qed.

Lemma is_argsort_permutation (keys : list Z) (indexer : list nat) :
  is_argsort keys indexer = true ->
  Permutation (seq 0 (length keys)) indexer.
Proof.
  unfold is_argsort. rewrite !andb_true_iff.
  intros [[Hlen Hall] _]. apply Nat.eqb_eq in Hlen.
  apply NoDup_Permutation_bis.
  - apply seq_NoDup.
  - rewrite length_seq. lia.
  - intros i Hin.
    apply (proj1 (forallb_forall _ _) Hall) in Hin.
    apply existsb_exists in Hin. destruct Hin as (j & Hj & Heq).
    apply Nat.eqb_eq in Heq. now subst j.
Qed.

Lemma take_permutation {A : Type} (keys : list Z) (indexer : list nat)
  (rows : list A) :
  length rows = length keys ->
  is_argsort keys indexer = true ->
  Permutation rows (take indexer rows).
Proof.
  intros Hlen Hsort. apply is_argsort_permutation in Hsort.
  rewrite <- (take_seq rows) at 1. rewrite Hlen.
  unfold take. now apply Permutation_flat_map.
Qed.

(** ** numpy's indirect quicksort sorts

    Every loop of [Npy.aquicksort] is followed with its fuel: the scans
    stop at their sentinels, a partition puts the pivot between the
    smaller and the larger keys, insertion sort and heapsort sort their
    segment, and the outer loop keeps every two positions in order unless
    they share a pending segment. *)

Module NpyFacts.
Import Npy.

Section Arrays.
Variable v : list Z.

Local Abbreviation at_ := Arr.at_.
Local Abbreviation upd := Arr.upd.
Local Abbreviation swp := Arr.swp.
Local Abbreviation len := Arr.len.
Local Abbreviation seg := Arr.seg.
Local Abbreviation segs_of := Arr.segs_of.
Local Abbreviation apart := Arr.apart.
Local Abbreviation disjoint := Arr.disjoint.
Local Abbreviation weight := Arr.weight.
Local Abbreviation key := (Arr.key v).
Local Abbreviation kz := (Arr.kz v).
Local Abbreviation N := (Arr.N v).
Local Abbreviation ok := (Arr.ok v).
Local Abbreviation within := (Arr.within v).
Local Abbreviation sorted_on := (Arr.sorted_on v).
Local Abbreviation heap := (Arr.heap v).
Local Abbreviation pending := (Arr.pending v).
Local Abbreviation segs_ok := (Arr.segs_ok v).

Lemma len_upd a p x : 0 <= p < len a -> len (upd a p x) = len a.
Proof.
  unfold Arr.len, Arr.upd. intros Hp.
  rewrite length_app, length_firstn. cbn [length]. rewrite length_skipn. lia.
Qed.

Lemma at_upd a p x q :
  0 <= p < len a -> 0 <= q ->
  at_ (upd a p x) q = if q =? p then x else at_ a q.
Proof.
  unfold Arr.len, Arr.upd, Arr.at_. intros Hp Hq.
  destruct (Z.eqb_spec q p) as [->|Hne].
  - rewrite app_nth2; rewrite length_firstn; [|lia].
    replace (Z.to_nat p - Nat.min (Z.to_nat p) (length a))%nat with 0%nat by lia.
    reflexivity.
  - destruct (Z_lt_le_dec q p) as [Hlt|Hge].
    + rewrite app_nth1 by (rewrite length_firstn; lia).
      rewrite nth_firstn.
      destruct (Nat.ltb_spec (Z.to_nat q) (Z.to_nat p)); [reflexivity|lia].
    + rewrite app_nth2 by (rewrite length_firstn; lia).
      rewrite length_firstn.
      replace (Z.to_nat q - Nat.min (Z.to_nat p) (length a))%nat
        with (S (Z.to_nat q - S (Z.to_nat p))) by lia.
      cbn [nth]. rewrite nth_skipn. f_equal. lia.
Qed.

Lemma upd_same a p : 0 <= p < len a -> upd a p (at_ a p) = a.
Proof.
  intros Hp. apply (nth_ext _ _ 0%nat 0%nat).
  - pose proof (len_upd a p (at_ a p) Hp) as H. unfold Arr.len in H. lia.
  - intros k Hk.
    pose proof (at_upd a p (at_ a p) (Z.of_nat k) Hp ltac:(lia)) as H.
    unfold Arr.at_ in H at 1. rewrite Nat2Z.id in H. rewrite H.
    destruct (Z.eqb_spec (Z.of_nat k) p) as [<-|_]; unfold Arr.at_;
      now rewrite Nat2Z.id.
Qed.

Lemma rd_ok a p : 0 <= p < len a -> rd a p = Some (at_ a p).
Proof.
  unfold rd, Arr.at_, Arr.len. intros Hp.
  destruct (Z.ltb_spec p 0); [lia|].
  apply nth_error_nth'. lia.
Qed.

Lemma wr_ok a p x : 0 <= p < len a -> wr a p x = Some (upd a p x).
Proof.
  unfold wr, Arr.len. intros Hp.
  destruct (Z.leb_spec 0 p); [|lia].
  destruct (Z.ltb_spec p (Z.of_nat (length a))); [reflexivity|lia].
Qed.

Lemma len_swp a p q : 0 <= p < len a -> 0 <= q < len a -> len (swp a p q) = len a.
Proof.
  intros Hp Hq. unfold Arr.swp. rewrite !len_upd; rewrite ?len_upd; auto.
Qed.

Lemma at_swp a p q r :
  0 <= p < len a -> 0 <= q < len a -> 0 <= r ->
  at_ (swp a p q) r
  = if r =? q then at_ a p else if r =? p then at_ a q else at_ a r.
Proof.
  intros Hp Hq Hr. unfold Arr.swp.
  rewrite at_upd by (rewrite ?len_upd; auto).
  destruct (Z.eqb_spec r q); [reflexivity|].
  now rewrite at_upd by auto.
Qed.


Lemma ok_len a : ok a -> len a = N.
Proof. now intros [H _]. Qed.

Lemma ok_swp a p q : ok a -> 0 <= p < N -> 0 <= q < N -> ok (swp a p q).
Proof.
  intros (Hlen & Hval & Hinj) Hp Hq.
  assert (Hat : forall r, 0 <= r < N ->
            at_ (swp a p q) r
            = if r =? q then at_ a p else if r =? p then at_ a q else at_ a r).
  { intros r Hr. apply at_swp; lia. }
  repeat split.
  - rewrite len_swp; lia.
  - intros r Hr. rewrite Hat by assumption.
    destruct (r =? q); [|destruct (r =? p)]; now apply Hval.
  - intros r s Hr Hs. rewrite !Hat by assumption.
    destruct (Z.eqb_spec r q), (Z.eqb_spec s q); try lia;
      destruct (Z.eqb_spec r p), (Z.eqb_spec s p); try lia;
      intros Heq; apply Hinj in Heq; lia.
Qed.

Lemma within_refl a lo hi : within a a lo hi.
Proof.
  split; [reflexivity|]. intros q Hq. now exists q.
Qed.

Lemma within_trans a b c lo hi :
  within a b lo hi -> within b c lo hi -> within a c lo hi.
Proof.
  intros [Hab1 Hab2] [Hbc1 Hbc2]. split.
  - intros p Hp Hout. rewrite Hbc1, Hab1; auto.
  - intros q Hq. destruct (Hbc2 q Hq) as (q1 & Hq1 & ->).
    destruct (Hab2 q1 Hq1) as (q2 & Hq2 & ->). now exists q2.
Qed.

Lemma within_widen a b lo hi lo' hi' :
  0 <= lo' -> hi' < N -> lo' <= lo -> hi <= hi' ->
  within a b lo hi -> within a b lo' hi'.
Proof.
  intros Hlo Hhi Hl Hh [H1 H2]. split.
  - intros p Hp Hout. apply H1; lia.
  - intros q Hq.
    destruct (Z_lt_le_dec q lo) as [Hlt|Hge].
    + exists q. split; [lia|]. apply H1; lia.
    + destruct (Z_lt_le_dec hi q) as [Hlt|Hle].
      * exists q. split; [lia|]. apply H1; lia.
      * destruct (H2 q ltac:(lia)) as (q' & Hq' & Heq).
        exists q'. split; [lia|exact Heq].
Qed.

Lemma within_swp a p q lo hi :
  len a = N -> 0 <= lo -> 0 <= p < N -> 0 <= q < N ->
  lo <= p <= hi -> lo <= q <= hi ->
  within a (swp a p q) lo hi.
Proof.
  intros Hlen Hlo Hp Hq Hpl Hql. split.
  - intros r Hr Hout. rewrite at_swp by lia.
    destruct (Z.eqb_spec r q); [lia|]. destruct (Z.eqb_spec r p); [lia|].
    reflexivity.
  - intros r Hr. rewrite at_swp by lia.
    destruct (Z.eqb_spec r q); [now exists p|].
    destruct (Z.eqb_spec r p); [now exists q|]. now exists r.
Qed.

Lemma key_ok i : (i < length v)%nat -> nth_error v i = Some (key i).
Proof.
  intros Hi. unfold Arr.key. now apply nth_error_nth'.
Qed.

Lemma val_ok a p : ok a -> 0 <= p < N -> val v a p = Some (kz a p).
Proof.
  intros (Hlen & Hval & _) Hp. unfold val, bind.
  rewrite rd_ok by lia. apply key_ok. now apply Hval.
Qed.

Lemma INTP_SWAP_ok a p q :
  len a = N -> 0 <= p < N -> 0 <= q < N ->
  INTP_SWAP a p q = Some (swp a p q).
Proof.
  intros Hlen Hp Hq. unfold INTP_SWAP, bind.
  rewrite !rd_ok by lia. rewrite wr_ok by lia.
  rewrite wr_ok by (rewrite len_upd; lia). reflexivity.
Qed.

Lemma kz_swp a p q r :
  len a = N -> 0 <= p < N -> 0 <= q < N -> 0 <= r ->
  kz (swp a p q) r
  = if r =? q then kz a p else if r =? p then kz a q else kz a r.
Proof.
  intros Hlen Hp Hq Hr. unfold Arr.kz. rewrite at_swp by lia.
  destruct (r =? q); [reflexivity|]. now destruct (r =? p).
Qed.

(** ** The scans of the partition *)

Lemma scan_up_spec (fuel : nat) (a : list nat) (vp pi s : Z) :
  ok a -> 0 <= pi + 1 -> pi < s < N -> ~ kz a s < vp ->
  s - pi <= Z.of_nat fuel ->
  exists pi',
    scan_up v fuel a vp pi = Some pi' /\
    pi < pi' <= s /\ ~ kz a pi' < vp /\
    forall q, pi < q < pi' -> kz a q < vp.
Proof.
  revert pi. induction fuel as [|fuel IH]; intros pi Hok Hlo Hs Hsent Hfuel.
  - lia.
  - simpl. rewrite val_ok by (auto; lia). unfold bind.
    destruct (Z.ltb_spec (kz a (pi + 1)) vp) as [Hlt|Hge].
    + assert (Hne : pi + 1 <> s) by (intros Heq; subst s; contradiction).
      destruct (IH (pi + 1)) as (pi' & Hrun & Hrange & Hstop & Hbelow);
        auto; try lia.
      exists pi'. repeat split; try assumption; try lia.
      intros q Hq. destruct (Z.eq_dec q (pi + 1)) as [->|Hq']; [assumption|].
      apply Hbelow. lia.
    + exists (pi + 1). repeat split; lia.
Qed.

Lemma scan_down_spec (fuel : nat) (a : list nat) (vp pj s : Z) :
  ok a -> pj - 1 < N -> 0 <= s < pj -> ~ vp < kz a s ->
  pj - s <= Z.of_nat fuel ->
  exists pj',
    scan_down v fuel a vp pj = Some pj' /\
    s <= pj' < pj /\ ~ vp < kz a pj' /\
    forall q, pj' < q < pj -> vp < kz a q.
Proof.
  revert pj. induction fuel as [|fuel IH]; intros pj Hok Hhi Hs Hsent Hfuel.
  - lia.
  - simpl. rewrite val_ok by (auto; lia). unfold bind.
    destruct (Z.ltb_spec vp (kz a (pj - 1))) as [Hlt|Hge].
    + assert (Hne : pj - 1 <> s) by (intros Heq; subst s; contradiction).
      destruct (IH (pj - 1)) as (pj' & Hrun & Hrange & Hstop & Habove);
        auto; try lia.
      exists pj'. repeat split; try assumption; try lia.
      intros q Hq. destruct (Z.eq_dec q (pj - 1)) as [->|Hq']; [assumption|].
      apply Habove. lia.
    + exists (pj - 1). repeat split; lia.
Qed.

Lemma swap_if_less_spec (a : list nat) (p q : Z) :
  ok a -> 0 <= p < N -> 0 <= q < N ->
  exists a',
    swap_if_less v a p q = Some a' /\
    (a' = a \/ a' = swp a p q) /\ ok a' /\ kz a' q <= kz a' p.
Proof.
  intros Hok Hp Hq. unfold swap_if_less, bind.
  rewrite !val_ok by assumption.
  destruct (Z.ltb_spec (kz a p) (kz a q)) as [Hlt|Hge].
  - exists (swp a p q). rewrite INTP_SWAP_ok by (auto using ok_len).
    split; [reflexivity|]. split; [now right|]. split; [now apply ok_swp|].
    rewrite !kz_swp by (try apply ok_len; auto; lia).
    rewrite Z.eqb_refl.
    destruct (Z.eqb_spec p q) as [->|Hne]; [lia|].
    rewrite Z.eqb_refl. lia.
  - exists a. split; [reflexivity|]. split; [now left|]. split; [assumption|lia].
Qed.

Lemma cross_spec (fuel F : nat) (a0 a : list nat) (vp pl pr pi pj : Z) :
  ok a -> within a0 a (pl + 1) (pr - 2) ->
  0 <= pl -> pr < N ->
  pl <= pi < pj -> pj <= pr - 1 ->
  (forall q, pl <= q <= pi -> kz a q <= vp) ->
  (forall q, pj <= q <= pr - 1 -> vp <= kz a q) ->
  N <= Z.of_nat F -> pj - pi <= Z.of_nat fuel ->
  exists a' pi',
    cross v fuel F a vp pi pj = Some (a', pi') /\
    ok a' /\ within a0 a' (pl + 1) (pr - 2) /\
    pl < pi' <= pr - 1 /\
    (forall q, pl <= q < pi' -> kz a' q <= vp) /\
    (forall q, pi' <= q <= pr - 1 -> vp <= kz a' q).
Proof.
  revert a pi pj.
  induction fuel as [|fuel IH];
    intros a pi pj Hok Hwith Hpl Hpr Hij Hj Hleft Hright HF Hfuel.
  - lia.
  - simpl.
    destruct (scan_up_spec F a vp pi pj) as (pi' & Hup & Hi' & Hstop_i & Hbelow);
      auto; try lia.
    { specialize (Hright pj ltac:(lia)). lia. }
    destruct (scan_down_spec F a vp pj pi) as (pj' & Hdn & Hj' & Hstop_j & Habove);
      auto; try lia.
    { specialize (Hleft pi ltac:(lia)). lia. }
    rewrite Hup, Hdn. unfold bind.
    assert (Hl : forall q, pl <= q < pi' -> kz a q <= vp).
    { intros q Hq. destruct (Z_le_gt_dec q pi); [apply Hleft; lia|].
      specialize (Hbelow q ltac:(lia)). lia. }
    assert (Hr : forall q, pj' < q <= pr - 1 -> vp <= kz a q).
    { intros q Hq. destruct (Z_le_gt_dec pj q); [apply Hright; lia|].
      specialize (Habove q ltac:(lia)). lia. }
    rewrite Z.geb_leb.
    destruct (Z.leb_spec pj' pi') as [Hcross|Hmore].
    + exists a, pi'. split; [reflexivity|]. split; [assumption|].
      split; [assumption|]. split; [lia|]. split; [assumption|].
      intros q Hq. destruct (Z.eq_dec q pi') as [->|Hne]; [lia|].
      apply Hr. lia.
    + rewrite INTP_SWAP_ok by (try apply ok_len; auto; lia).
      assert (Hlen : len a = N) by now apply ok_len.
      destruct (IH (swp a pi' pj') pi' pj') as (a' & pi2 & Hrun & Hrest);
        auto; try lia.
      * apply ok_swp; auto; lia.
      * apply (within_trans _ a); [assumption|].
        apply within_swp; auto; lia.
      * intros q Hq. rewrite kz_swp by (auto; lia).
        destruct (Z.eqb_spec q pj'); [lia|].
        destruct (Z.eqb_spec q pi'); [lia|]. apply Hl. lia.
      * intros q Hq. rewrite kz_swp by (auto; lia).
        destruct (Z.eqb_spec q pj'); [lia|].
        destruct (Z.eqb_spec q pi'); [lia|]. apply Hr. lia.
      * exists a', pi2. split; [exact Hrun|exact Hrest].
Qed.

Lemma half_bounds (x : Z) : 0 <= x -> 2 * Z.shiftr x 1 <= x < 2 * Z.shiftr x 1 + 2.
Proof.
  intros Hx. rewrite Z.shiftr_div_pow2 by lia.
  change (2 ^ 1) with 2.
  pose proof (Z.div_mod x 2 ltac:(lia)). pose proof (Z.mod_pos_bound x 2 ltac:(lia)).
  lia.
Qed.

Lemma partition_spec (F : nat) (a : list nat) (pl pr : Z) :
  ok a -> 0 <= pl -> pr < N -> pr - pl > 15 -> N <= Z.of_nat F ->
  exists a' pi,
    partition v F a pl pr = Some (a', pi) /\
    ok a' /\ within a a' pl pr /\ pl < pi < pr /\
    (forall q, pl <= q < pi -> kz a' q <= kz a' pi) /\
    (forall q, pi < q <= pr -> kz a' pi <= kz a' q).
Proof.
  intros Hok Hpl Hpr Hbig HF. unfold partition.
  pose proof (half_bounds (pr - pl) ltac:(lia)) as Hhalf.
  set (pm := pl + Z.shiftr (pr - pl) 1) in *.
  assert (Hpm : pl + 8 <= pm <= pr - 8) by (subst pm; lia).
  clearbody pm.
  (* the median of three *)
  destruct (swap_if_less_spec a pm pl) as (a1 & Hs1 & Ha1 & Hok1 & H1);
    auto; try lia.
  rewrite Hs1. cbn [bind].
  destruct (swap_if_less_spec a1 pr pm) as (a2 & Hs2 & Ha2 & Hok2 & H2);
    auto; try lia.
  rewrite Hs2. cbn [bind].
  destruct (swap_if_less_spec a2 pm pl) as (a3 & Hs3 & Ha3 & Hok3 & H3);
    auto; try lia.
  rewrite Hs3. cbn [bind]. clear Hs1 Hs2 Hs3.
  assert (Hlen : len a = N) by now apply ok_len.
  assert (Hlen1 : len a1 = N) by now apply ok_len.
  assert (Hlen2 : len a2 = N) by now apply ok_len.
  assert (Hlen3 : len a3 = N) by now apply ok_len.
  assert (Hw1 : within a a1 pl pr).
  { destruct Ha1 as [->| ->]; [apply within_refl|apply within_swp; auto; lia]. }
  assert (Hw2 : within a1 a2 pl pr).
  { destruct Ha2 as [->| ->]; [apply within_refl|apply within_swp; auto; lia]. }
  assert (Hw3 : within a2 a3 pl pr).
  { destruct Ha3 as [->| ->]; [apply within_refl|apply within_swp; auto; lia]. }
  assert (H2' : kz a2 pl <= kz a2 pr).
  { destruct Ha2 as [->| ->]; [lia|].
    rewrite !kz_swp in * by (auto; lia).
    rewrite Z.eqb_refl in *.
    destruct (Z.eqb_spec pl pm); [lia|]. destruct (Z.eqb_spec pl pr); [lia|].
    destruct (Z.eqb_spec pr pm); [lia|]. lia. }
  assert (H3' : kz a3 pm <= kz a3 pr).
  { destruct Ha3 as [->| ->]; [lia|].
    rewrite !kz_swp in * by (auto; lia).
    rewrite Z.eqb_refl in *.
    destruct (Z.eqb_spec pr pl); [lia|]. destruct (Z.eqb_spec pr pm); [lia|].
    destruct (Z.eqb_spec pm pl); [lia|]. lia. }
  rewrite val_ok by (auto; lia). cbn [bind].
  set (vp := kz a3 pm) in *.
  rewrite INTP_SWAP_ok by (auto; lia). cbn [bind].
  set (a4 := swp a3 pm (pr - 1)).
  assert (Hok4 : ok a4) by (apply ok_swp; auto; lia).
  assert (Hk4 : forall r, 0 <= r ->
            kz a4 r = if r =? pr - 1 then kz a3 pm
                      else if r =? pm then kz a3 (pr - 1) else kz a3 r).
  { intros r Hr. apply kz_swp; auto; lia. }
  destruct (cross_spec F F a4 a4 vp pl pr pl (pr - 1))
    as (a5 & pi & Hrun & Hok5 & Hw5 & Hpi & Hleft & Hright);
    auto using within_refl; try lia.
  { intros q Hq. replace q with pl by lia. rewrite Hk4 by lia.
    destruct (Z.eqb_spec pl (pr - 1)); [lia|].
    destruct (Z.eqb_spec pl pm); [lia|]. subst vp. lia. }
  { intros q Hq. replace q with (pr - 1) by lia. rewrite Hk4 by lia.
    rewrite Z.eqb_refl. subst vp. lia. }
  rewrite Hrun. cbn [bind].
  assert (Hlen5 : len a5 = N) by now apply ok_len.
  rewrite INTP_SWAP_ok by (auto; lia). cbn [bind].
  assert (Hk5 : forall r, 0 <= r < N -> r < pl + 1 \/ pr - 2 < r ->
            kz a5 r = kz a4 r).
  { intros r Hr Hout. unfold Arr.kz. f_equal. now apply (proj1 Hw5). }
  assert (Hk6 : forall r, 0 <= r ->
            kz (swp a5 pi (pr - 1)) r
            = if r =? pr - 1 then kz a5 pi
              else if r =? pi then kz a5 (pr - 1) else kz a5 r).
  { intros r Hr. apply kz_swp; auto; lia. }
  assert (Hpiv : kz a5 (pr - 1) = vp).
  { rewrite Hk5, Hk4 by lia. now rewrite Z.eqb_refl. }
  assert (Hlast : vp <= kz a5 pr).
  { rewrite Hk5, Hk4 by lia.
    destruct (Z.eqb_spec pr (pr - 1)); [lia|].
    destruct (Z.eqb_spec pr pm); [lia|]. subst vp. lia. }
  exists (swp a5 pi (pr - 1)), pi.
  split; [reflexivity|]. split; [apply ok_swp; auto; lia|].
  split.
  { apply (within_trans _ a1); [assumption|].
    apply (within_trans _ a2); [assumption|].
    apply (within_trans _ a3); [assumption|].
    apply (within_trans _ a4); [apply within_swp; auto; lia|].
    apply (within_trans _ a5).
    - apply (within_widen _ _ (pl + 1) (pr - 2)); auto; lia.
    - apply within_swp; auto; lia. }
  split; [lia|].
  assert (Hpivot : kz (swp a5 pi (pr - 1)) pi = vp).
  { rewrite Hk6 by lia. destruct (Z.eqb_spec pi (pr - 1)) as [->|Hne].
    - exact Hpiv.
    - rewrite Z.eqb_refl. exact Hpiv. }
  rewrite Hpivot. split.
  - intros q Hq. rewrite Hk6 by lia.
    destruct (Z.eqb_spec q (pr - 1)); [lia|].
    destruct (Z.eqb_spec q pi); [lia|]. apply Hleft. lia.
  - intros q Hq. rewrite Hk6 by lia.
    destruct (Z.eqb_spec q (pr - 1)); [apply Hright; lia|].
    destruct (Z.eqb_spec q pi); [lia|].
    destruct (Z.eq_dec q pr) as [->|Hne]; [exact Hlast|].
    apply Hright. lia.
Qed.

(** ** Arrays with a hole

    While a cell is being moved, the array holds its index in a variable
    and a stale copy at the hole; [upd a hole tmp] is the array the final
    write produces. *)

Lemma at_ext (a b : list nat) :
  len a = len b ->
  (forall p, 0 <= p < len a -> at_ a p = at_ b p) -> a = b.
Proof.
  unfold Arr.len. intros Hlen Hat. apply (nth_ext _ _ 0%nat 0%nat); [lia|].
  intros k Hk. specialize (Hat (Z.of_nat k) ltac:(lia)).
  unfold Arr.at_ in Hat. now rewrite Nat2Z.id in Hat.
Qed.

(** Copying the cell [k] into the hole [h] and making [k] the hole is a
    swap of [h] and [k] in the array to be. *)
Lemma hole_move (a : list nat) (h k : Z) (tmp : nat) :
  0 <= h < len a -> 0 <= k < len a -> h <> k ->
  upd (upd a h (at_ a k)) k tmp = swp (upd a h tmp) h k.
Proof.
  intros Hh Hk Hne. apply at_ext.
  - rewrite len_swp by (rewrite len_upd; lia). now rewrite !len_upd by (rewrite ?len_upd; lia).
  - intros p Hp. rewrite !len_upd in Hp by (rewrite ?len_upd; lia).
    rewrite at_swp by (rewrite ?len_upd; lia).
    rewrite !at_upd by (rewrite ?len_upd; lia).
    destruct (Z.eqb_spec p k); [destruct (Z.eqb_spec h h); [reflexivity|lia]|].
    destruct (Z.eqb_spec p h); [|reflexivity].
    destruct (Z.eqb_spec k h); [lia|reflexivity].
Qed.

Lemma at_hole_other (a : list nat) (h p : Z) (tmp : nat) :
  0 <= h < len a -> 0 <= p -> p <> h -> at_ (upd a h tmp) p = at_ a p.
Proof.
  intros Hh Hp Hne. rewrite at_upd by lia.
  destruct (Z.eqb_spec p h); [lia|reflexivity].
Qed.

Lemma rd_hole (a : list nat) (h p : Z) (tmp : nat) :
  len a = N -> 0 <= h < N -> 0 <= p < N -> p <> h ->
  rd a p = Some (at_ (upd a h tmp) p).
Proof.
  intros Hlen Hh Hp Hne. rewrite rd_ok by lia.
  now rewrite at_hole_other by lia.
Qed.

Lemma val_hole (a : list nat) (h p : Z) (tmp : nat) :
  len a = N -> ok (upd a h tmp) -> 0 <= h < N -> 0 <= p < N -> p <> h ->
  val v a p = Some (kz (upd a h tmp) p).
Proof.
  intros Hlen Hok Hh Hp Hne. unfold val, bind.
  rewrite (rd_hole a h p tmp) by assumption.
  apply key_ok. now apply Hok.
Qed.

Lemma kz_hole (a : list nat) (h : Z) (tmp : nat) :
  0 <= h < len a -> kz (upd a h tmp) h = key tmp.
Proof.
  intros Hh. unfold Arr.kz. rewrite at_upd by lia. now rewrite Z.eqb_refl.
Qed.

(** ** Insertion sort *)

Lemma shift_spec (fuel : nat) (a : list nat) (pl pi : Z) (vi : nat) (pj : Z) :
  len a = N -> ok (upd a pj vi) ->
  0 <= pl <= pj -> pj <= pi < N ->
  (forall p q, pl <= p < q -> q <= pi -> p <> pj -> q <> pj ->
     kz (upd a pj vi) p <= kz (upd a pj vi) q) ->
  (forall q, pj < q <= pi -> key vi < kz (upd a pj vi) q) ->
  pj - pl < Z.of_nat fuel ->
  exists a' pj',
    shift v fuel a pl (key vi) pj (pj - 1) = Some (a', pj') /\
    len a' = N /\ pl <= pj' <= pj /\
    ok (upd a' pj' vi) /\
    within (upd a pj vi) (upd a' pj' vi) pl pi /\
    sorted_on (upd a' pj' vi) pl pi.
Proof.
  revert a pj. induction fuel as [|fuel IH];
    intros a pj Hlen Hok Hpl Hpi HA HB Hfuel.
  - lia.
  - simpl.
    assert (Hdone : (forall p, pl <= p < pj -> kz (upd a pj vi) p <= key vi) ->
              sorted_on (upd a pj vi) pl pi).
    { intros Hle p q Hp Hq.
      destruct (Z.eq_dec q pj) as [->|Hq'].
      - rewrite (kz_hole a pj vi) by lia. apply Hle. lia.
      - destruct (Z.eq_dec p pj) as [->|Hp'].
        + rewrite (kz_hole a pj vi) by lia.
          specialize (HB q ltac:(lia)). lia.
        + apply HA; lia. }
    destruct (Z.gtb_spec pj pl) as [Hgt|Hle].
    + rewrite (val_hole a pj (pj - 1) vi) by (auto; lia). cbn [bind].
      destruct (Z.ltb_spec (key vi) (kz (upd a pj vi) (pj - 1))) as [Hlt|Hge].
      * rewrite (rd_hole a pj (pj - 1) vi) by (auto; lia). cbn [bind].
        rewrite wr_ok by lia. cbn [bind].
        rewrite at_hole_other by lia.
        assert (Hmove : upd (upd a pj (at_ a (pj - 1))) (pj - 1) vi
                        = swp (upd a pj vi) pj (pj - 1))
          by (apply hole_move; lia).
        assert (HlenV : len (upd a pj vi) = N) by (rewrite len_upd; lia).
        assert (Hk : forall r, 0 <= r ->
                  kz (swp (upd a pj vi) pj (pj - 1)) r
                  = if r =? pj - 1 then kz (upd a pj vi) pj
                    else if r =? pj then kz (upd a pj vi) (pj - 1)
                    else kz (upd a pj vi) r).
        { intros r Hr. apply kz_swp; auto; lia. }
        destruct (IH (upd a pj (at_ a (pj - 1))) (pj - 1))
          as (a' & pj' & Hrun & Hlen' & Hpj' & Hok' & Hw' & Hs');
          try lia.
        -- rewrite len_upd; lia.
        -- rewrite Hmove. apply ok_swp; auto; lia.
        -- rewrite Hmove. intros p q Hp Hq Hpn Hqn.
           rewrite !Hk by lia.
           destruct (Z.eqb_spec p (pj - 1)); [lia|].
           destruct (Z.eqb_spec q (pj - 1)); [lia|].
           destruct (Z.eqb_spec p pj), (Z.eqb_spec q pj); try lia.
           ++ apply HA; lia.
           ++ apply HA; lia.
           ++ apply HA; lia.
        -- rewrite Hmove. intros q Hq. rewrite Hk by lia.
           destruct (Z.eqb_spec q (pj - 1)); [lia|].
           destruct (Z.eqb_spec q pj); [lia|]. apply HB. lia.
        -- exists a', pj'. rewrite Hrun.
           split; [reflexivity|]. split; [assumption|]. split; [lia|].
           split; [assumption|]. split; [|assumption].
           apply (within_trans _ (swp (upd a pj vi) pj (pj - 1))).
           ++ apply within_swp; auto; lia.
           ++ now rewrite <- Hmove.
      * exists a, pj. split; [reflexivity|]. split; [assumption|].
        split; [lia|]. split; [assumption|]. split; [apply within_refl|].
        apply Hdone. intros p Hp.
        destruct (Z.eq_dec p (pj - 1)) as [->|Hne]; [lia|].
        assert (kz (upd a pj vi) p <= kz (upd a pj vi) (pj - 1))
          by (apply HA; lia).
        lia.
    + exists a, pj. split; [reflexivity|]. split; [assumption|].
      split; [lia|]. split; [assumption|]. split; [apply within_refl|].
      apply Hdone. intros p Hp. lia.
Qed.

Lemma insertion_spec (fuel F : nat) (a : list nat) (pl pr pi : Z) :
  ok a -> 0 <= pl -> pr < N -> pl + 1 <= pi ->
  sorted_on a pl (pi - 1) ->
  N < Z.of_nat F -> pr - pi + 1 < Z.of_nat fuel -> (0 < fuel)%nat ->
  exists a',
    insertion v fuel F a pl pr pi = Some a' /\
    ok a' /\ within a a' pl pr /\ sorted_on a' pl pr.
Proof.
  revert a pi. induction fuel as [|fuel IH];
    intros a pi Hok Hpl Hpr Hpi Hsorted HF Hfuel Hpos.
  - lia.
  - simpl. destruct (Z.leb_spec pi pr) as [Hle|Hgt].
    + assert (Hlen : len a = N) by now apply ok_len.
      rewrite rd_ok by lia. cbn [bind].
      rewrite key_ok by (apply Hok; lia). cbn [bind].
      set (vi := at_ a pi).
      assert (Hsame : upd a pi vi = a) by (apply upd_same; lia).
      destruct (shift_spec F a pl pi vi pi)
        as (a1 & pj & Hrun & Hlen1 & Hpj & Hok1 & Hw1 & Hs1);
        rewrite ?Hsame; auto; try lia.
      { intros p q Hp Hq Hpn Hqn. apply Hsorted; lia. }
      rewrite Hrun. cbn [bind]. rewrite wr_ok by lia. cbn [bind].
      rewrite Hsame in Hw1.
      destruct (IH (upd a1 pj vi) (pi + 1)) as (a' & Hrun' & Hok' & Hw' & Hs');
        auto; try lia.
      { now replace (pi + 1 - 1) with pi by lia. }
      exists a'. split; [exact Hrun'|]. split; [assumption|].
      split; [|assumption].
      apply (within_trans _ (upd a1 pj vi)); [|assumption].
      apply (within_widen _ _ pl pi); auto; lia.
    + exists a. split; [reflexivity|]. split; [assumption|].
      split; [apply within_refl|].
      intros p q Hp Hq. apply Hsorted; lia.
Qed.

(** ** Heapsort *)

Lemma sift_spec (fuel : nat) (a : list nat) (base n lo : Z) (tmp : nat)
  (i j : Z) :
  len a = N -> ok (upd a (base + i) tmp) ->
  0 <= base + 1 -> base + n < N ->
  0 <= lo < i -> i <= n -> j = 2 * i ->
  (forall j' c, lo < j' -> j' <> i -> c = 2 * j' \/ c = 2 * j' + 1 ->
     c <= n -> c <> i ->
     kz (upd a (base + i) tmp) (base + c) <= kz (upd a (base + i) tmp) (base + j')) ->
  (forall p c, lo < p -> i = 2 * p \/ i = 2 * p + 1 ->
     c = 2 * i \/ c = 2 * i + 1 -> c <= n ->
     kz (upd a (base + i) tmp) (base + c) <= kz (upd a (base + i) tmp) (base + p)) ->
  (forall p, lo < p -> i = 2 * p \/ i = 2 * p + 1 ->
     key tmp <= kz (upd a (base + i) tmp) (base + p)) ->
  n - i < Z.of_nat fuel ->
  exists a' i',
    sift v fuel a base n tmp i j = Some (a', i') /\
    len a' = N /\ i <= i' <= n /\
    ok (upd a' (base + i') tmp) /\
    within (upd a (base + i) tmp) (upd a' (base + i') tmp) (base + i) (base + n) /\
    heap (upd a' (base + i') tmp) base lo n.
Proof.
  revert a i j. induction fuel as [|fuel IH];
    intros a i j Hlen Hok Hbase Hn Hlo Hi Hj H1 H2 H3 Hfuel.
  - lia.
  - set (V := upd a (base + i) tmp) in *.
    assert (Htmp : (tmp < length v)%nat).
    { replace tmp with (at_ V (base + i)).
      - apply Hok. lia.
      - subst V. rewrite at_upd by lia. now rewrite Z.eqb_refl. }
    assert (Hhole : kz V (base + i) = key tmp) by (apply kz_hole; lia).
    assert (Hstop : (forall c, c = 2 * i \/ c = 2 * i + 1 -> c <= n ->
                       kz V (base + c) <= key tmp) ->
              heap V base lo n).
    { intros Hch j' c Hj' Hc Hcn.
      destruct (Z.eq_dec j' i) as [->|Hne].
      - rewrite Hhole. now apply Hch.
      - destruct (Z.eq_dec c i) as [->|Hci].
        + rewrite Hhole. now apply H3.
        + now apply H1. }
    simpl. destruct (Z.leb_spec j n) as [Hjn|Hjn].
    + (* the larger child *)
      assert (Hpick : exists jj,
                (if j <? n
                 then bind (val v a (base + j)) (fun x =>
                      bind (val v a (base + j + 1)) (fun y =>
                      Some (if x <? y then j + 1 else j)))
                 else Some j) = Some jj /\
                (jj = 2 * i \/ jj = 2 * i + 1) /\ jj <= n /\
                forall c, c = 2 * i \/ c = 2 * i + 1 -> c <= n ->
                  kz V (base + c) <= kz V (base + jj)).
      { destruct (Z.ltb_spec j n) as [Hlt|Hge].
        - rewrite (val_hole a (base + i) (base + j) tmp) by (auto; lia).
          replace (base + j + 1) with (base + (j + 1)) by lia.
          rewrite (val_hole a (base + i) (base + (j + 1)) tmp) by (auto; lia).
          cbn [bind]. fold V.
          destruct (Z.ltb_spec (kz V (base + j)) (kz V (base + (j + 1))))
            as [Hless|Hmore].
          + exists (j + 1). split; [reflexivity|]. split; [lia|]. split; [lia|].
            intros c [Hc|Hc] Hcn; subst c; replace (2 * i) with j by lia; lia.
          + exists j. split; [reflexivity|]. split; [lia|]. split; [lia|].
            intros c [Hc|Hc] Hcn; subst c; replace (2 * i) with j by lia; lia.
        - exists j. split; [reflexivity|]. split; [lia|]. split; [lia|].
          intros c [Hc|Hc] Hcn; subst c; [replace (2 * i) with j by lia|]; lia. }
      destruct Hpick as (jj & -> & Hjj & Hjjn & Hmax). cbn [bind].
      rewrite key_ok by assumption. cbn [bind].
      rewrite (val_hole a (base + i) (base + jj) tmp) by (auto; lia).
      cbn [bind]. fold V.
      destruct (Z.ltb_spec (key tmp) (kz V (base + jj))) as [Hlt|Hge].
      * rewrite (rd_hole a (base + i) (base + jj) tmp) by (auto; lia).
        cbn [bind]. rewrite wr_ok by lia. cbn [bind].
        fold V. 
        assert (Hat : at_ V (base + jj) = at_ a (base + jj)).
        { subst V. apply at_hole_other; lia. }
        rewrite Hat.
        assert (Hmove : upd (upd a (base + i) (at_ a (base + jj))) (base + jj) tmp
                        = swp V (base + i) (base + jj))
          by (apply hole_move; lia).
        assert (HlenV : len V = N) by (subst V; rewrite len_upd; lia).
        assert (Hk : forall r, 0 <= r ->
                  kz (swp V (base + i) (base + jj)) r
                  = if r =? base + jj then kz V (base + i)
                    else if r =? base + i then kz V (base + jj)
                    else kz V r).
        { intros r Hr. apply kz_swp; auto; lia. }
        destruct (IH (upd a (base + i) (at_ a (base + jj))) jj (jj + jj))
          as (a' & i' & Hrun & Hlen' & Hi' & Hok' & Hw' & Hheap');
          try lia.
        -- rewrite len_upd; lia.
        -- rewrite Hmove. apply ok_swp; auto; lia.
        -- rewrite Hmove. intros j' c Hj' Hne Hc Hcn Hcne.
           rewrite !Hk by lia.
           destruct (Z.eqb_spec (base + c) (base + jj)); [lia|].
           destruct (Z.eqb_spec (base + j') (base + jj)); [lia|].
           destruct (Z.eqb_spec (base + c) (base + i)) as [Hci|Hci];
             destruct (Z.eqb_spec (base + j') (base + i)) as [Hji|Hji];
             try lia.
           ++ apply (H2 j' jj); lia.
           ++ replace j' with i by lia. apply Hmax; lia.
           ++ apply H1; lia.
        -- rewrite Hmove. intros p c Hp Hpi Hc Hcn.
           rewrite !Hk by lia.
           destruct (Z.eqb_spec (base + c) (base + jj)); [lia|].
           destruct (Z.eqb_spec (base + p) (base + jj)); [lia|].
           destruct (Z.eqb_spec (base + c) (base + i)); [lia|].
           destruct (Z.eqb_spec (base + p) (base + i)); [|lia].
           apply (H1 jj c); lia.
        -- rewrite Hmove. intros p Hp Hpi. rewrite Hk by lia.
           destruct (Z.eqb_spec (base + p) (base + jj)); [lia|].
           destruct (Z.eqb_spec (base + p) (base + i)); [lia|lia].
        -- exists a', i'. rewrite Hrun.
           split; [reflexivity|]. split; [assumption|]. split; [lia|].
           split; [assumption|]. split; [|assumption].
           apply (within_trans _ (swp V (base + i) (base + jj))).
           ++ apply within_swp; auto; lia.
           ++ rewrite <- Hmove.
              apply (within_widen _ _ (base + jj) (base + n)); auto; lia.
      * exists a, i. split; [reflexivity|]. split; [assumption|].
        split; [lia|]. split; [assumption|]. split; [apply within_refl|].
        apply Hstop. intros c Hc Hcn. specialize (Hmax c Hc Hcn). lia.
    + exists a, i. split; [reflexivity|]. split; [assumption|].
      split; [lia|]. split; [assumption|]. split; [apply within_refl|].
      apply Hstop. intros c Hc Hcn. lia.
Qed.

Lemma heap_root_max (a : list nat) (base n : Z) :
  heap a base 0 n ->
  forall j, 1 <= j <= n -> kz a (base + j) <= kz a (base + 1).
Proof.
  intros Hheap j Hj.
  assert (Hall : forall k : nat, forall j, 1 <= j <= n ->
            (Z.to_nat j <= k)%nat -> kz a (base + j) <= kz a (base + 1)).
  { clear j Hj. induction k as [|k IH]; intros j Hj Hk; [lia|].
    destruct (Z.eq_dec j 1) as [->|Hne]; [lia|].
    pose proof (Z.div_mod j 2 ltac:(lia)) as Hdiv.
    pose proof (Z.mod_pos_bound j 2 ltac:(lia)) as Hmod.
    assert (Hle : kz a (base + j) <= kz a (base + j / 2))
      by (apply Hheap; lia).
    assert (kz a (base + j / 2) <= kz a (base + 1)) by (apply IH; lia).
    lia. }
  apply (Hall (Z.to_nat j)); [assumption|lia].
Qed.

Lemma heapify_spec (fuel F : nat) (a : list nat) (base n l : Z) :
  ok a -> 0 <= base + 1 -> base + n < N -> 0 <= l <= n ->
  heap a base l n ->
  N < Z.of_nat F -> l < Z.of_nat fuel ->
  exists a',
    heapify v fuel F a base n l = Some a' /\
    ok a' /\ within a a' (base + 1) (base + n) /\ heap a' base 0 n.
Proof.
  revert a l. induction fuel as [|fuel IH];
    intros a l Hok Hbase Hn Hl Hheap HF Hfuel.
  - lia.
  - cbn [heapify]. destruct (Z.gtb_spec l 0) as [Hpos|Hzero].
    + assert (Hlen : len a = N) by now apply ok_len.
      rewrite rd_ok by lia. cbn [bind].
      set (tmp := at_ a (base + l)).
      assert (Hsame : upd a (base + l) tmp = a) by (apply upd_same; lia).
      assert (Hj : Z.shiftl l 1 = 2 * l).
      { rewrite Z.shiftl_mul_pow2 by lia. change (2 ^ 1) with 2. lia. }
      assert (HH1 : forall j' c, l - 1 < j' -> j' <> l ->
                c = 2 * j' \/ c = 2 * j' + 1 -> c <= n -> c <> l ->
                kz a (base + c) <= kz a (base + j')).
      { intros j' c Hj' Hne Hc Hcn Hci. apply Hheap; lia. }
      assert (HH2 : forall p c, l - 1 < p -> l = 2 * p \/ l = 2 * p + 1 ->
                c = 2 * l \/ c = 2 * l + 1 -> c <= n ->
                kz a (base + c) <= kz a (base + p)).
      { intros p c Hp Hpl. lia. }
      assert (HH3 : forall p, l - 1 < p -> l = 2 * p \/ l = 2 * p + 1 ->
                key tmp <= kz a (base + p)).
      { intros p Hp Hpl. lia. }
      pose proof (sift_spec F a base n (l - 1) tmp l (Z.shiftl l 1)) as Hsift.
      rewrite Hsame in Hsift.
      destruct (Hsift Hlen Hok Hbase Hn ltac:(lia) ltac:(lia) Hj HH1 HH2 HH3
                  ltac:(lia))
        as (a1 & i & Hrun & Hlen1 & Hi & Hok1 & Hw1 & Hheap1).
      clear Hsift.
      rewrite Hrun. cbn [bind]. rewrite wr_ok by lia. cbn [bind].
      destruct (IH (upd a1 (base + i) tmp) (l - 1))
        as (a' & Hrun' & Hok' & Hw' & Hheap');
        auto; try lia.
      exists a'. split; [exact Hrun'|]. split; [assumption|].
      split; [|assumption].
      apply (within_trans _ (upd a1 (base + i) tmp)); [|assumption].
      apply (within_widen _ _ (base + l) (base + n)); auto; lia.
    + exists a. split; [reflexivity|]. split; [assumption|].
      split; [apply within_refl|].
      replace 0 with l by lia. assumption.
Qed.

Lemma unheap_spec (fuel F : nat) (a : list nat) (base n n0 : Z) :
  ok a -> 0 <= base + 1 -> base + n0 < N -> 0 <= n <= n0 ->
  heap a base 0 n ->
  sorted_on a (base + n + 1) (base + n0) ->
  (forall j q, 1 <= j <= n -> n < q <= n0 ->
     kz a (base + j) <= kz a (base + q)) ->
  N < Z.of_nat F -> n < Z.of_nat fuel ->
  exists a',
    unheap v fuel F a base n = Some a' /\
    ok a' /\ within a a' (base + 1) (base + n0) /\
    sorted_on a' (base + 1) (base + n0).
Proof.
  revert a n. induction fuel as [|fuel IH];
    intros a n Hok Hbase Hn0 Hn Hheap Hsuf Hle HF Hfuel.
  - lia.
  - cbn [unheap]. destruct (Z.gtb_spec n 1) as [Hbig|Hsmall].
    + assert (Hlen : len a = N) by now apply ok_len.
      rewrite !rd_ok by lia. cbn [bind]. rewrite wr_ok by lia. cbn [bind].
      set (tmp := at_ a (base + n)).
      set (a1 := upd a (base + n) (at_ a (base + 1))).
      assert (Hlen1 : len a1 = N) by (subst a1; rewrite len_upd; lia).
      assert (HV : upd a1 (base + 1) tmp = swp a (base + n) (base + 1)).
      { subst a1. rewrite hole_move by lia.
        subst tmp. now rewrite upd_same by lia. }
      assert (Hk : forall r, 0 <= r ->
                kz (swp a (base + n) (base + 1)) r
                = if r =? base + 1 then kz a (base + n)
                  else if r =? base + n then kz a (base + 1) else kz a r).
      { intros r Hr. apply kz_swp; auto; lia. }
      set (V := swp a (base + n) (base + 1)) in *.
      assert (HokV : ok V) by (apply ok_swp; auto; lia).
      assert (HH1 : forall j' c, 0 < j' -> j' <> 1 ->
                c = 2 * j' \/ c = 2 * j' + 1 -> c <= n - 1 -> c <> 1 ->
                kz V (base + c) <= kz V (base + j')).
      { intros j' c Hj' Hne Hc Hcn Hci. rewrite !Hk by lia.
        destruct (Z.eqb_spec (base + c) (base + 1)); [lia|].
        destruct (Z.eqb_spec (base + j') (base + 1)); [lia|].
        destruct (Z.eqb_spec (base + c) (base + n)); [lia|].
        destruct (Z.eqb_spec (base + j') (base + n)); [lia|].
        apply Hheap; lia. }
      assert (HH2 : forall p c, 0 < p -> 1 = 2 * p \/ 1 = 2 * p + 1 ->
                c = 2 * 1 \/ c = 2 * 1 + 1 -> c <= n - 1 ->
                kz V (base + c) <= kz V (base + p)).
      { intros p c Hp Hpl. lia. }
      assert (HH3 : forall p, 0 < p -> 1 = 2 * p \/ 1 = 2 * p + 1 ->
                key tmp <= kz V (base + p)).
      { intros p Hp Hpl. lia. }
      pose proof (sift_spec F a1 base (n - 1) 0 tmp 1 2) as Hsift.
      rewrite HV in Hsift.
      destruct (Hsift Hlen1 HokV Hbase ltac:(lia) ltac:(lia) ltac:(lia)
                  eq_refl HH1 HH2 HH3 ltac:(lia))
        as (a2 & i & Hrun & Hlen2 & Hi & Hok2 & Hw2 & Hheap2).
      clear Hsift.
      rewrite Hrun. cbn [bind]. rewrite wr_ok by lia. cbn [bind].
      set (V' := upd a2 (base + i) tmp) in *.
      assert (Hout : forall r, 0 <= r < N -> r < base + 1 \/ base + (n - 1) < r ->
                kz V' r = kz (swp a (base + n) (base + 1)) r).
      { intros r Hr Ho. unfold Arr.kz. f_equal. now apply (proj1 Hw2). }
      assert (Hroot : forall j, 1 <= j <= n -> kz a (base + j) <= kz a (base + 1))
        by now apply heap_root_max.
      destruct (IH V' (n - 1)) as (a' & Hrun' & Hok' & Hw' & Hs');
        auto; try lia.
      * intros p q Hp Hq. rewrite !Hout by lia. rewrite !Hk by lia.
        destruct (Z.eqb_spec p (base + 1)); [lia|].
        destruct (Z.eqb_spec q (base + 1)); [lia|].
        destruct (Z.eqb_spec q (base + n)); [lia|].
        destruct (Z.eqb_spec p (base + n)) as [->|Hpn].
        -- replace q with (base + (q - base)) by lia. apply Hle; lia.
        -- apply Hsuf; lia.
      * intros j q Hj Hq.
        destruct (proj2 Hw2 (base + j) ltac:(lia)) as (r & Hr & Hat).
        assert (Hkj : kz V' (base + j) = kz (swp a (base + n) (base + 1)) r)
          by (unfold Arr.kz; now rewrite Hat).
        rewrite Hkj, Hout by lia. rewrite !Hk by lia.
        destruct (Z.eqb_spec (base + q) (base + 1)); [lia|].
        destruct (Z.eqb_spec r (base + n)); [lia|].
        assert (Hold : forall s, base + 1 <= s <= base + n ->
                  kz a s <= kz a (if base + q =? base + n then base + 1 else base + q)).
        { intros s Hs. replace s with (base + (s - base)) by lia.
          destruct (Z.eqb_spec (base + q) (base + n)).
          - apply Hroot. lia.
          - apply Hle; lia. }
        destruct (Z.eqb_spec r (base + 1)).
        -- specialize (Hold (base + n) ltac:(lia)).
           destruct (Z.eqb_spec (base + q) (base + n)); exact Hold.
        -- specialize (Hold r ltac:(lia)).
           destruct (Z.eqb_spec (base + q) (base + n)); exact Hold.
      * exists a'. split; [exact Hrun'|]. split; [assumption|].
        split; [|assumption].
        apply (within_trans _ (swp a (base + n) (base + 1))).
        -- apply within_swp; auto; lia.
        -- apply (within_trans _ V'); [|assumption].
           apply (within_widen _ _ (base + 1) (base + (n - 1))); auto; lia.
    + exists a. split; [reflexivity|]. split; [assumption|].
      split; [apply within_refl|].
      intros p q Hp Hq.
      destruct (Z_le_gt_dec (base + n + 1) p).
      * apply Hsuf; lia.
      * replace p with (base + 1) by lia.
        replace q with (base + (q - base)) by lia. apply Hle; lia.
Qed.

Lemma aheapsort_spec (F : nat) (a : list nat) (pl n : Z) :
  ok a -> 0 <= pl -> 0 <= n -> pl + n - 1 < N -> N < Z.of_nat F ->
  exists a',
    aheapsort v F a pl n = Some a' /\
    ok a' /\ within a a' pl (pl + n - 1) /\ sorted_on a' pl (pl + n - 1).
Proof.
  intros Hok Hpl Hn Hhi HF. unfold aheapsort.
  pose proof (half_bounds n Hn) as Hhalf.
  assert (Hleaves : heap a (pl - 1) (Z.shiftr n 1) n).
  { intros j c Hj Hc Hcn. lia. }
  destruct (heapify_spec F F a (pl - 1) n (Z.shiftr n 1) Hok ltac:(lia)
              ltac:(lia) ltac:(lia) Hleaves HF ltac:(lia))
    as (a1 & Hrun1 & Hok1 & Hw1 & Hheap1).
  rewrite Hrun1. cbn [bind].
  assert (Hsuf : sorted_on a1 (pl - 1 + n + 1) (pl - 1 + n)).
  { intros p q Hp Hq. lia. }
  assert (Hle : forall j q, 1 <= j <= n -> n < q <= n ->
            kz a1 (pl - 1 + j) <= kz a1 (pl - 1 + q)).
  { intros j q Hj Hq. lia. }
  destruct (unheap_spec F F a1 (pl - 1) n n Hok1 ltac:(lia) ltac:(lia)
              ltac:(lia) Hheap1 Hsuf Hle HF ltac:(lia))
    as (a2 & Hrun2 & Hok2 & Hw2 & Hs2).
  exists a2. split; [exact Hrun2|]. split; [assumption|].
  replace (pl - 1 + 1) with pl in * by lia.
  replace (pl - 1 + n) with (pl + n - 1) in * by lia.
  split; [|assumption].
  now apply (within_trans _ a1).
Qed.

(** ** Pending segments *)

Lemma weight_pos (segs : list seg) :
  (forall s, In s segs -> fst s <= snd s + 1) -> 0 <= weight segs.
Proof.
  induction segs as [|s tl IH]; intros Hall; simpl; [lia|].
  specialize (Hall s (or_introl eq_refl)) as Hs.
  assert (0 <= weight tl) by (apply IH; intros t Ht; apply Hall; now right).
  lia.
Qed.

(** Rearranging the first pending segment keeps the order between
    positions that no longer share a segment. *)
Lemma pending_refine (a a' : list nat) (pl pr : Z) (news segs : list seg) :
  pending a ((pl, pr) :: segs) -> segs_ok ((pl, pr) :: segs) ->
  within a a' pl pr ->
  (forall p q, pl <= p < q -> q <= pr ->
     kz a' p <= kz a' q \/
     exists s, In s news /\ fst s <= p /\ q <= snd s) ->
  pending a' (news ++ segs).
Proof.
  intros Hpend [Hbounds [Hapart _]] [Hout Hin] Hnew p q Hp Hq.
  assert (Hb : 0 <= pl /\ pr < N).
  { destruct (Hbounds (pl, pr) (or_introl eq_refl)) as (H0 & H1 & _).
    simpl in *. lia. }
  assert (Hk : forall r, 0 <= r < N -> r < pl \/ pr < r -> kz a' r = kz a r).
  { intros r Hr Ho. unfold Arr.kz. f_equal. now apply Hout. }
  assert (Hold : forall p q, 0 <= p < q -> q < N ->
            p < pl \/ pr < q ->
            kz a p <= kz a q \/
            exists s, In s segs /\ fst s <= p /\ q <= snd s).
  { intros p0 q0 Hp0 Hq0 Ho.
    destruct (Hpend p0 q0 Hp0 Hq0) as [Hle|(s & [<-|Hs] & Hfst & Hsnd)].
    - now left.
    - simpl in *. lia.
    - right. now exists s. }
  assert (Hlift : forall p q,
            (kz a p <= kz a q \/ exists s, In s segs /\ fst s <= p /\ q <= snd s) ->
            kz a p = kz a' p -> kz a q = kz a' q ->
            kz a' p <= kz a' q \/
            exists s, In s (news ++ segs) /\ fst s <= p /\ q <= snd s).
  { intros p0 q0 [Hle|(s & Hs & Hs')] Hp0 Hq0; [left; lia|].
    right. exists s. split; [apply in_or_app; now right|exact Hs']. }
  destruct (Z_lt_le_dec p pl) as [Hpl|Hpl].
  - (* p is left of the segment *)
    destruct (Z_lt_le_dec q pl) as [Hql|Hql].
    + apply Hlift; [apply Hold; lia| |]; symmetry; apply Hk; lia.
    + destruct (Z_lt_le_dec pr q) as [Hqr|Hqr].
      * apply Hlift; [apply Hold; lia| |]; symmetry; apply Hk; lia.
      * destruct (Hin q ltac:(lia)) as (q' & Hq' & Hat).
        assert (Hkq : kz a' q = kz a q') by (unfold Arr.kz; now rewrite Hat).
        rewrite Hkq, Hk by lia.
        destruct (Hold p q' ltac:(lia) ltac:(lia) ltac:(lia))
          as [Hle|(s & Hs & Hfst & Hsnd)]; [now left|].
        exfalso. destruct (Hapart s Hs) as [Ha|Ha]; simpl in Ha; lia.
  - destruct (Z_lt_le_dec pr p) as [Hpr|Hpr].
    + (* both are right of the segment *)
      apply Hlift; [apply Hold; lia| |]; symmetry; apply Hk; lia.
    + destruct (Z_lt_le_dec pr q) as [Hqr|Hqr].
      * destruct (Hin p ltac:(lia)) as (p' & Hp' & Hat).
        assert (Hkp : kz a' p = kz a p') by (unfold Arr.kz; now rewrite Hat).
        rewrite Hkp, (Hk q) by lia.
        destruct (Hold p' q ltac:(lia) ltac:(lia) ltac:(lia))
          as [Hle|(s & Hs & Hfst & Hsnd)]; [now left|].
        exfalso. destruct (Hapart s Hs) as [Ha|Ha]; simpl in Ha; lia.
      * (* both are inside *)
        destruct (Hnew p q ltac:(lia) ltac:(lia)) as [Hle|(s & Hs & Hb')];
          [now left|].
        right. exists s. split; [apply in_or_app; now left|exact Hb'].
Qed.

Lemma segs_ok_tail (s : seg) (segs : list seg) :
  segs_ok (s :: segs) -> segs_ok segs.
Proof.
  intros [Hb [_ Hd]]. split; [|exact Hd].
  intros t Ht. apply Hb. now right.
Qed.

Lemma segs_ok_split (pl pr pi : Z) (segs : list seg) :
  segs_ok ((pl, pr) :: segs) -> pl < pi < pr ->
  segs_ok ((pl, pi - 1) :: (pi + 1, pr) :: segs) /\
  segs_ok ((pi + 1, pr) :: (pl, pi - 1) :: segs).
Proof.
  intros [Hb [Ha Hd]] Hpi.
  destruct (Hb (pl, pr) (or_introl eq_refl)) as (H0 & H1 & H2). simpl in *.
  assert (Hbt : forall t, In t segs -> 0 <= fst t /\ snd t < N /\ fst t <= snd t + 1)
    by (intros t Ht; apply Hb; now right).
  assert (Hl : forall t, In t segs -> apart (pl, pi - 1) t).
  { intros t Ht. destruct (Ha t Ht) as [H|H]; unfold Arr.apart in *; simpl in *; lia. }
  assert (Hr : forall t, In t segs -> apart (pi + 1, pr) t).
  { intros t Ht. destruct (Ha t Ht) as [H|H]; unfold Arr.apart in *; simpl in *; lia. }
  split; split.
  - intros s [<-|[<-|Hs]]; simpl; try lia. now apply Hbt.
  - simpl. split; [|split; [exact Hr|exact Hd]].
    intros t [<-|Ht]; [unfold Arr.apart; simpl; lia|now apply Hl].
  - intros s [<-|[<-|Hs]]; simpl; try lia. now apply Hbt.
  - simpl. split; [|split; [exact Hl|exact Hd]].
    intros t [<-|Ht]; [unfold Arr.apart; simpl; lia|now apply Hr].
Qed.

Lemma pending_incl (a : list nat) (segs segs' : list seg) :
  (forall s, In s segs -> In s segs') -> pending a segs -> pending a segs'.
Proof.
  intros Hincl Hpend p q Hp Hq.
  destruct (Hpend p q Hp Hq) as [Hle|(s & Hs & Hb)]; [now left|].
  right. exists s. split; [now apply Hincl|exact Hb].
Qed.

(** ** The loops over segments *)

Lemma split_spec (fuel F : nat) (a : list nat) (pl pr : Z)
  (stack : list frame) (cdepth : Z) :
  ok a ->
  pending a ((pl, pr) :: segs_of stack) ->
  segs_ok ((pl, pr) :: segs_of stack) ->
  N <= Z.of_nat F -> pr - pl < Z.of_nat fuel -> (0 < fuel)%nat ->
  exists a' pl' pr' stack',
    split v fuel F a pl pr stack cdepth = Some (a', pl', pr', stack') /\
    ok a' /\
    pending a' ((pl', pr') :: segs_of stack') /\
    segs_ok ((pl', pr') :: segs_of stack') /\
    weight ((pl', pr') :: segs_of stack') = weight ((pl, pr) :: segs_of stack).
Proof.
  revert a pl pr stack cdepth. induction fuel as [|fuel IH];
    intros a pl pr stack cdepth Hok Hpend Hsegs HF Hfuel Hpos.
  - lia.
  - cbn [split]. unfold SMALL_QUICKSORT.
    destruct (Z.gtb_spec (pr - pl) 15) as [Hbig|Hsmall].
    + destruct (proj1 Hsegs (pl, pr) (or_introl eq_refl)) as (Hpl & Hpr & _).
      simpl in Hpl, Hpr.
      destruct (partition_spec F a pl pr Hok Hpl Hpr ltac:(lia) HF)
        as (a1 & pi & Hrun & Hok1 & Hw1 & Hpi & Hleft & Hright).
      rewrite Hrun. cbn [bind].
      assert (Hpend1 : pending a1 ((pl, pi - 1) :: (pi + 1, pr) :: segs_of stack)).
      { apply (pending_refine a a1 pl pr [(pl, pi - 1); (pi + 1, pr)]);
          auto.
        intros p q Hp Hq.
        destruct (Z_lt_le_dec q pi) as [Hqi|Hqi].
        - right. exists (pl, pi - 1). simpl. split; [now left|lia].
        - destruct (Z_lt_le_dec pi p) as [Hpi'|Hpi'].
          + right. exists (pi + 1, pr). simpl. split; [right; now left|lia].
          + left.
            assert (kz a1 p <= kz a1 pi).
            { destruct (Z.eq_dec p pi) as [->|Hne]; [lia|]. apply Hleft. lia. }
            assert (kz a1 pi <= kz a1 q).
            { destruct (Z.eq_dec q pi) as [->|Hne]; [lia|]. apply Hright. lia. }
            lia. }
      destruct (segs_ok_split pl pr pi (segs_of stack) Hsegs Hpi) as [Hs1 Hs2].
      destruct (Z.ltb_spec (pi - pl) (pr - pi)) as [Hsmaller|Hlarger].
      * destruct (IH a1 pl (pi - 1) ((pi + 1, pr, cdepth - 1) :: stack) (cdepth - 1))
          as (a' & pl' & pr' & stack' & Hrun' & Hok' & Hpend' & Hsegs' & Hweight');
          auto; try lia.
        exists a', pl', pr', stack'. rewrite Hrun'.
        split; [reflexivity|]. split; [assumption|]. split; [assumption|].
        split; [assumption|]. rewrite Hweight'. simpl. lia.
      * destruct (IH a1 (pi + 1) pr ((pl, pi - 1, cdepth - 1) :: stack) (cdepth - 1))
          as (a' & pl' & pr' & stack' & Hrun' & Hok' & Hpend' & Hsegs' & Hweight');
          auto; try lia.
        { apply (pending_incl a1 ((pl, pi - 1) :: (pi + 1, pr) :: segs_of stack));
            [|exact Hpend1].
          intros s [<-|[<-|Hs]]; simpl; auto. }
        exists a', pl', pr', stack'. rewrite Hrun'.
        split; [reflexivity|]. split; [assumption|]. split; [assumption|].
        split; [assumption|]. rewrite Hweight'. simpl. lia.
    + exists a, pl, pr, stack. split; [reflexivity|]. split; [assumption|].
      split; [assumption|]. split; [assumption|reflexivity].
Qed.

Lemma run_spec (fuel F : nat) (a : list nat) (pl pr : Z)
  (stack : list frame) (cdepth : Z) :
  ok a ->
  pending a ((pl, pr) :: segs_of stack) ->
  segs_ok ((pl, pr) :: segs_of stack) ->
  N < Z.of_nat F -> weight ((pl, pr) :: segs_of stack) <= Z.of_nat fuel ->
  exists a', run v fuel F a pl pr stack cdepth = Some a' /\ ok a' /\ pending a' [].
Proof.
  revert a pl pr stack cdepth. induction fuel as [|fuel IH];
    intros a pl pr stack cdepth Hok Hpend Hsegs HF Hfuel.
  - exfalso.
    destruct (proj1 Hsegs (pl, pr) (or_introl eq_refl)) as (_ & _ & Hne).
    pose proof (weight_pos (segs_of stack)) as Hw.
    simpl in *. 
    assert (0 <= weight (segs_of stack)).
    { apply Hw. intros s Hs. apply (proj1 Hsegs). now right. }
    lia.
  - cbn [run].
    assert (Hstep : exists a1 stack1,
              (if cdepth <? 0
               then bind (aheapsort v F a pl (pr - pl + 1))
                         (fun a => Some (a, stack))
               else bind (split v F F a pl pr stack cdepth)
                         (fun x => let '(a, pl, pr, stack) := x in
                          bind (insertion v F F a pl pr (pl + 1))
                               (fun a => Some (a, stack))))
              = Some (a1, stack1) /\
              ok a1 /\ pending a1 (segs_of stack1) /\ segs_ok (segs_of stack1) /\
              weight (segs_of stack1) < Z.of_nat (S fuel)).
    { destruct (Z.ltb_spec cdepth 0) as [Hdeep|Hshallow].
      - destruct (proj1 Hsegs (pl, pr) (or_introl eq_refl)) as (Hpl & Hpr & Hne).
        simpl in Hpl, Hpr, Hne.
        destruct (aheapsort_spec F a pl (pr - pl + 1) Hok Hpl ltac:(lia)
                    ltac:(lia) HF)
          as (a1 & Hrun & Hok1 & Hw1 & Hs1).
        replace (pl + (pr - pl + 1) - 1) with pr in * by lia.
        exists a1, stack. rewrite Hrun. split; [reflexivity|].
        split; [assumption|]. split; [|split].
        + apply (pending_refine a a1 pl pr [] (segs_of stack)); auto;
            intros p q Hp Hq; left; now apply Hs1.
        + now apply (segs_ok_tail (pl, pr)).
        + simpl in Hfuel. lia.
      - destruct (proj1 Hsegs (pl, pr) (or_introl eq_refl)) as (Hpl & Hpr & Hne).
        simpl in Hpl, Hpr, Hne.
        destruct (split_spec F F a pl pr stack cdepth Hok Hpend Hsegs
                    ltac:(lia) ltac:(lia) ltac:(lia))
          as (a1 & pl1 & pr1 & stack1 & Hrun & Hok1 & Hpend1 & Hsegs1 & Hweight1).
        rewrite Hrun. cbn [bind].
        destruct (proj1 Hsegs1 (pl1, pr1) (or_introl eq_refl))
          as (Hpl1 & Hpr1 & Hne1).
        simpl in Hpl1, Hpr1, Hne1.
        assert (Hsingle : sorted_on a1 pl1 (pl1 + 1 - 1)).
        { intros p q Hp Hq. lia. }
        destruct (insertion_spec F F a1 pl1 pr1 (pl1 + 1) Hok1 Hpl1 Hpr1
                    ltac:(lia) Hsingle HF ltac:(lia) ltac:(lia))
          as (a2 & Hrun2 & Hok2 & Hw2 & Hs2).
        rewrite Hrun2. cbn [bind].
        exists a2, stack1. split; [reflexivity|].
        split; [assumption|]. split; [|split].
        + apply (pending_refine a1 a2 pl1 pr1 [] (segs_of stack1)); auto;
            intros p q Hp Hq; left; now apply Hs2.
        + now apply (segs_ok_tail (pl1, pr1)).
        + simpl in Hweight1, Hfuel. lia. }
    destruct Hstep as (a1 & stack1 & -> & Hok1 & Hpend1 & Hsegs1 & Hweight1).
    cbn [bind].
    destruct stack1 as [|[[pl2 pr2] d2] rest].
    + exists a1. split; [reflexivity|]. split; assumption.
    + simpl in Hpend1, Hsegs1, Hweight1.
      apply IH; auto. simpl. lia.
Qed.

(** ** The whole sort *)

Lemma ok_arange : ok (seq 0 (length v)).
Proof.
  assert (Hat : forall p, 0 <= p < N -> at_ (seq 0 (length v)) p = Z.to_nat p).
  { intros p Hp. unfold Arr.at_, Arr.N in *. rewrite seq_nth by lia. reflexivity. }
  split; [|split].
  - unfold Arr.len, Arr.N. now rewrite length_seq.
  - intros p Hp. rewrite Hat by assumption. unfold Arr.N in Hp. lia.
  - intros p q Hp Hq. rewrite !Hat by assumption. lia.
Qed.

Lemma aquicksort_spec :
  exists a, aquicksort v = Some a /\ ok a /\ pending a [].
Proof.
  unfold aquicksort.
  apply (run_spec (S (length v)) (S (length v)) (seq 0 (length v))
           0 (Z.of_nat (length v) - 1) [] (Z.log2 (Z.of_nat (length v)) * 2)).
  - apply ok_arange.
  - intros p q Hp Hq. right. exists (0, Z.of_nat (length v) - 1).
    simpl. unfold Arr.N in Hq. split; [now left|lia].
  - split; [|simpl; tauto].
    intros s [<-|[]]. simpl. unfold Arr.N. lia.
  - unfold Arr.N. lia.
  - simpl. lia.
Qed.

End Arrays.


Lemma nondecreasing_pairwise (l : list Z) :
  (forall p q, (p < q < length l)%nat -> nth p l 0 <= nth q l 0) ->
  nondecreasing l = true.
Proof.
  induction l as [|x tl IH]; intros Hall; [reflexivity|].
  destruct tl as [|y tl']; [reflexivity|].
  change (nondecreasing (x :: y :: tl'))
    with ((x <=? y) && nondecreasing (y :: tl'))%bool.
  apply andb_true_iff. split.
  - apply Z.leb_le. apply (Hall 0%nat 1%nat). simpl. lia.
  - apply IH. intros p q Hpq. apply (Hall (S p) (S q)). simpl in *. lia.
Qed.

Lemma take_valid (v : list Z) (ix : list nat) :
  (forall i, In i ix -> (i < length v)%nat) ->
  take ix v = map (fun i => nth i v 0) ix.
Proof.
  unfold take. induction ix as [|i ix IH]; intros Hall; [reflexivity|].
  simpl. rewrite (nth_error_nth' v 0) by (apply Hall; now left).
  simpl. f_equal. apply IH. intros j Hj. apply Hall. now right.
Qed.

(** numpy's indirect quicksort returns a sorting permutation. *)
Lemma argsort_sorts (v : list Z) : is_argsort v (Npy.argsort v) = true.
Proof.
  destruct (aquicksort_spec v) as (a & Hrun & (Hlen & Hval & Hinj) & Hpend).
  unfold Npy.argsort. rewrite Hrun.
  unfold Arr.len, Arr.N in *.
  assert (Hnth : forall k, (k < length a)%nat ->
            nth k a 0%nat = Arr.at_ a (Z.of_nat k)).
  { intros k Hk. unfold Arr.at_. now rewrite Nat2Z.id. }
  assert (Hin : forall i, In i a -> (i < length v)%nat).
  { intros i Hi. destruct (In_nth a i 0%nat Hi) as (k & Hk & <-).
    rewrite Hnth by assumption. apply Hval. lia. }
  assert (Hnodup : NoDup a).
  { apply (NoDup_nth a 0%nat). intros i j Hi Hj Heq.
    rewrite !Hnth in Heq by assumption.
    apply Hinj in Heq; lia. }
  assert (Hperm : Permutation a (seq 0 (length v))).
  { apply NoDup_Permutation_bis; [assumption|rewrite length_seq; lia|].
    intros i Hi. apply in_seq. specialize (Hin i Hi). lia. }
  unfold is_argsort. rewrite !andb_true_iff. repeat split.
  - apply Nat.eqb_eq. lia.
  - apply forallb_forall. intros i Hi.
    apply existsb_exists. exists i. split; [|apply Nat.eqb_refl].
    apply (Permutation_in i (Permutation_sym Hperm) Hi).
  - rewrite take_valid by assumption.
    apply nondecreasing_pairwise. intros p q Hpq.
    rewrite length_map in Hpq.
    assert (Hm : forall k, (k < length a)%nat ->
              nth k (map (fun i => nth i v 0) a) 0 = Arr.kz v a (Z.of_nat k)).
    { intros k Hk.
      rewrite (nth_indep _ 0 ((fun i => nth i v 0) 0%nat))
        by (rewrite length_map; lia).
      rewrite (map_nth (fun i => nth i v 0)).
      unfold Arr.kz, Arr.key. now rewrite Hnth. }
    rewrite !Hm by lia.
    destruct (Hpend (Z.of_nat p) (Z.of_nat q) ltac:(lia) ltac:(unfold Arr.N; lia))
      as [Hle|(s & [] & _)].
    exact Hle.
Qed.

End NpyFacts.


(** ** The statements about the series builder *)

(** C1, as the code has it.  White's rating is taken when white's user
    name matches the queried one without regard to case, black's rating in
    every other case; so when exactly one side matches, that side's rating
    is taken, and when neither matches, black's is: the code has no
    check of the names. *)
Theorem rating_of_cases (username : string) (game : Game.t) :
  (white_matches username game = true ->
   rating_of username game = Player.rating (Game.white game)) /\
  (white_matches username game = false ->
   rating_of username game = Player.rating (Game.black game)) /\
  (white_matches username game = false ->
   black_matches username game = true ->
   rating_of username game = Player.rating (Game.black game)).
Proof.
  unfold rating_of, white_matches. repeat split.
  - now intros ->.
  - now intros ->.
  - now intros ->.
Qed.

Lemma rating_of_cases_witness :
  white_matches "carol" own_game = false /\
  black_matches "carol" own_game = true /\
  rating_of "carol" own_game = 1510.
Proof.
  split; [reflexivity|]. split; [reflexivity|].
  exact (proj2 (proj2 (rating_of_cases "carol" own_game))
           eq_refl eq_refl).
Defined.

(** Neither player of [stray_game] is Carol, and the builder files the
    game under black's rating. *)
Lemma neither_side_matches_takes_black :
  white_matches "Carol" stray_game = false /\
  black_matches "Carol" stray_game = false /\
  rating_of "Carol" stray_game = 1500 /\
  option_map DF.rating
    (analyze_rating_progression (fun t => t) "Carol" [[stray_game]])
  = Some [1500].
Proof.
  repeat split.
Qed.

Lemma sort_values_sorted (entries : list Entry.t) :
  Sorted Z.le (map Entry.date (sort_values entries)) /\
  Permutation entries (sort_values entries).
Proof.
  pose proof (NpyFacts.argsort_sorts (map Entry.date entries)) as Hsort.
  unfold sort_values. split.
  - rewrite take_map. apply nondecreasing_sorted.
    unfold is_argsort in Hsort. apply andb_true_iff in Hsort. apply Hsort.
  - apply (take_permutation (map Entry.date entries)); [|exact Hsort].
    now rewrite length_map.
Qed.

(** C4, as the code has it.  For archives that hold at least one game the
    builder returns a frame; it holds the entries of the history, each
    once, with dates in non-decreasing order.  Nothing is said about the
    order of entries with equal dates. *)
Theorem analyze_rating_progression_sorted (fromtimestamp : Z -> Z)
  (username : string) (archives : list (list Game.t)) :
  concat archives <> [] ->
  exists df sorted,
    analyze_rating_progression fromtimestamp username archives = Some df /\
    Sorted Z.le (DF.date df) /\
    Permutation (rating_history fromtimestamp username archives) sorted /\
    DF.date df = map Entry.date sorted /\
    DF.rating df = map Entry.rating sorted /\
    DF.time_control df = map Entry.time_control sorted.
Proof.
  intros Hne. unfold analyze_rating_progression.
  set (history := rating_history fromtimestamp username archives).
  assert (Hhist : history <> []).
  { subst history. unfold rating_history.
    rewrite flat_map_concat_map, <- concat_map.
    destruct (concat archives); [congruence|discriminate]. }
  destruct (sort_values_sorted history) as [Hsorted Hperm].
  exists (derived_columns (sort_values history)), (sort_values history).
  split; [destruct history; [congruence|reflexivity]|].
  repeat split; assumption.
Qed.

Lemma analyze_rating_progression_sorted_witness :
  concat [busy_month] <> [] /\
  exists df,
    analyze_rating_progression (fun t => t) "magnuscarlsen" [busy_month]
    = Some df /\
    Sorted Z.le (DF.date df) /\
    map (fun d => d - 1700000000) (DF.date df)
    = [0; 10; 10; 10; 20; 20; 30; 30; 30; 40; 50; 50; 50; 60; 70; 70; 80; 80;
       90; 90].
Proof.
  assert (Hne : concat [busy_month] <> []) by discriminate.
  split; [exact Hne|].
  destruct (analyze_rating_progression_sorted
              (fun t => t) "magnuscarlsen" [busy_month] Hne)
    as (df & sorted & Hrun & Hsorted & _).
  exists df. split; [exact Hrun|]. split; [exact Hsorted|].
  vm_compute in Hrun. injection Hrun as <-. reflexivity.
Defined.

(** The dates of [simultaneous_games] are all equal, and the frame does
    not keep the games in retrieval order. *)
Lemma equal_dates_are_reordered :
  let df := analyze_rating_progression (fun t => t) "MagnusCarlsen"
              [simultaneous_games] in
  map (rating_of "MagnusCarlsen") simultaneous_games
  = [2800; 2801; 2802; 2803; 2804; 2805; 2806; 2807; 2808; 2809; 2810;
     2811; 2812; 2813; 2814; 2815; 2816; 2817] /\
  Npy.aquicksort (repeat 1700000000 18)
  = Some [0; 15; 14; 13; 12; 11; 10; 9; 8; 7; 6; 5; 4; 3; 2; 1; 16; 17]%nat /\
  option_map DF.date df = Some (repeat 1700000000 18) /\
  option_map DF.rating df
  = Some [2800; 2815; 2814; 2813; 2812; 2811; 2810; 2809; 2808; 2807; 2806;
          2805; 2804; 2803; 2802; 2801; 2816; 2817].
Proof.
  repeat split; vm_compute; reflexivity.
Qed.


(** * Further properties *)

(** ** The archive limit *)

(** X1.  The archive limit of line 66, [archives[-max_archives:] if
    max_archives else archives], keeps a suffix of the archive list: the
    last [max_archives] archives (all of them when there are fewer) for a
    positive limit, the whole list for the limit 0, and for a negative
    limit the list without its first [- max_archives] archives. *)
Theorem recent_archives_cases {A : Type} (max_archives : Z) (archives : list A) :
  (exists older, archives = older ++ recent_archives max_archives archives) /\
  (0 < max_archives ->
   recent_archives max_archives archives
   = skipn (length archives - Z.to_nat max_archives) archives /\
   length (recent_archives max_archives archives)
   = Nat.min (Z.to_nat max_archives) (length archives)) /\
  (max_archives = 0 -> recent_archives max_archives archives = archives) /\
  (max_archives < 0 ->
   recent_archives max_archives archives
   = skipn (Z.to_nat (- max_archives)) archives).
Proof.
  unfold recent_archives, slice_from. repeat split.
  - destruct (Z.eqb_spec max_archives 0); [now exists []|].
    eexists. symmetry. apply firstn_skipn.
  - destruct (Z.eqb_spec max_archives 0); [lia|].
    destruct (Z.ltb_spec (- max_archives) 0); [|lia]. f_equal. lia.
  - destruct (Z.eqb_spec max_archives 0); [lia|].
    destruct (Z.ltb_spec (- max_archives) 0); [|lia].
    rewrite length_skipn. lia.
  - now intros ->.
  - intros Hneg. destruct (Z.eqb_spec max_archives 0); [lia|].
    destruct (Z.ltb_spec (- max_archives) 0); [lia|].
    destruct (Z.min_spec (- max_archives) (Z.of_nat (length archives)))
      as [[_ ->]|[Hle ->]]; [reflexivity|].
    rewrite !skipn_all2 by lia. reflexivity.
Qed.

Lemma recent_archives_cases_witness :
  recent_archives 3 ["a"; "b"; "c"; "d"; "e"]%string = ["c"; "d"; "e"]%string /\
  recent_archives 9 ["a"; "b"]%string = ["a"; "b"]%string /\
  recent_archives 0 ["a"; "b"]%string = ["a"; "b"]%string /\
  recent_archives (-1) ["a"; "b"; "c"]%string = ["b"; "c"]%string.
Proof.
  destruct (recent_archives_cases 3 ["a"; "b"; "c"; "d"; "e"]%string)
    as (_ & Hpos & _).
  destruct (recent_archives_cases 0 ["a"; "b"]%string) as (_ & _ & Hzero & _).
  destruct (recent_archives_cases (-1) ["a"; "b"; "c"]%string)
    as (_ & _ & _ & Hneg).
  split; [exact (proj1 (Hpos ltac:(lia)))|].
  split; [reflexivity|].
  split; [exact (Hzero eq_refl)|].
  exact (Hneg ltac:(lia)).
Defined.

(** ** The letter case of the queried name *)

Lemma lower_ascii_idempotent (c : ascii) :
  lower_ascii (lower_ascii c) = lower_ascii c.
Proof.
  destruct c as [[] [] [] [] [] [] [] []]; reflexivity.
Qed.

Lemma lower_idempotent (s : string) : lower (lower s) = lower s.
Proof.
  induction s as [|c s IH]; [reflexivity|].
  simpl. now rewrite lower_ascii_idempotent, IH.
Qed.

Lemma rating_history_lower (fromtimestamp : Z -> Z) (u u' : string)
  (archives : list (list Game.t)) :
  lower u = lower u' ->
  rating_history fromtimestamp u archives
  = rating_history fromtimestamp u' archives.
Proof.
  intros Heq. unfold rating_history.
  apply flat_map_ext. intros games. apply map_ext. intros game.
  unfold entry_of, rating_of. now rewrite Heq.
Qed.

(** X2.  The analysis does not depend on the letter case of the queried
    name: two names that are equal after lowering give the same result,
    and so does the lowered name itself. *)
Theorem analyze_rating_progression_case (fromtimestamp : Z -> Z)
  (u u' : string) (archives : list (list Game.t)) :
  (lower u = lower u' ->
   analyze_rating_progression fromtimestamp u archives
   = analyze_rating_progression fromtimestamp u' archives) /\
  analyze_rating_progression fromtimestamp (lower u) archives
  = analyze_rating_progression fromtimestamp u archives.
Proof.
  assert (Hcase : forall a b, lower a = lower b ->
            analyze_rating_progression fromtimestamp a archives
            = analyze_rating_progression fromtimestamp b archives).
  { intros a b Heq. unfold analyze_rating_progression.
    now rewrite (rating_history_lower fromtimestamp a b archives Heq). }
  split; [apply Hcase|].
  apply Hcase. apply lower_idempotent.
Qed.

Lemma analyze_rating_progression_case_witness :
  lower "MagnusCarlsen" = lower "magnuscarlsen" /\
  analyze_rating_progression (fun t => t) "MagnusCarlsen" [busy_month]
  = analyze_rating_progression (fun t => t) "magnuscarlsen" [busy_month].
Proof.
  split; [reflexivity|].
  apply (proj1 (analyze_rating_progression_case
                  (fun t => t) "MagnusCarlsen" "magnuscarlsen" [busy_month])).
  reflexivity.
Defined.

(** ** The shape of the frame *)

Lemma derived_columns_lengths (entries : list Entry.t) :
  let df := derived_columns entries in
  let n := length entries in
  length (DF.date df) = n /\ length (DF.rating df) = n /\
  length (DF.time_control df) = n /\ length (DF.rating_change df) = n /\
  length (DF.games_played df) = n /\ length (DF.rolling_rating df) = n /\
  length (DF.rating_change_rate df) = n.
Proof.
  simpl. unfold as_float.
  rewrite !rolling_window_mean_length, diff_length, !length_map, length_seq.
  repeat split.
Qed.

Lemma rating_history_length (fromtimestamp : Z -> Z) (username : string)
  (archives : list (list Game.t)) :
  length (rating_history fromtimestamp username archives)
  = length (concat archives).
Proof.
  unfold rating_history. rewrite flat_map_concat_map, <- concat_map.
  apply length_map.
Qed.

Lemma analyze_rating_progression_some (fromtimestamp : Z -> Z)
  (username : string) (archives : list (list Game.t)) (df : DF.t) :
  analyze_rating_progression fromtimestamp username archives = Some df ->
  let history := rating_history fromtimestamp username archives in
  history <> [] /\ df = derived_columns (sort_values history).
Proof.
  unfold analyze_rating_progression.
  destruct (rating_history fromtimestamp username archives) eqn:Hh;
    [discriminate|].
  intros Heq. injection Heq as <-. split; [discriminate|reflexivity].
Qed.

Lemma sort_values_length (entries : list Entry.t) :
  length (sort_values entries) = length entries.
Proof.
  symmetry. apply Permutation_length. apply sort_values_sorted.
Qed.

(** X3.  A frame returned by [analyze_rating_progression] is not empty,
    has one row per game of the archives in every column, numbers the rows
    0, 1, 2, ... in [games_played], and has no [rolling_change] column
    yet. *)
Theorem analyze_rating_progression_shape (fromtimestamp : Z -> Z)
  (username : string) (archives : list (list Game.t)) (df : DF.t) :
  analyze_rating_progression fromtimestamp username archives = Some df ->
  let n := length (concat archives) in
  (0 < n)%nat /\
  length (DF.date df) = n /\ length (DF.rating df) = n /\
  length (DF.time_control df) = n /\ length (DF.rating_change df) = n /\
  length (DF.games_played df) = n /\ length (DF.rolling_rating df) = n /\
  length (DF.rating_change_rate df) = n /\
  DF.games_played df = map Z.of_nat (seq 0 n) /\
  DF.rolling_change df = None.
Proof.
  intros Hrun n.
  destruct (analyze_rating_progression_some _ _ _ _ Hrun) as [Hne ->].
  set (history := rating_history fromtimestamp username archives) in *.
  assert (Hn : length (sort_values history) = n).
  { rewrite sort_values_length. apply rating_history_length. }
  pose proof (derived_columns_lengths (sort_values history)) as Hlen.
  cbv zeta in Hlen. rewrite Hn in Hlen.
  split.
  { rewrite <- Hn, sort_values_length. destruct history; [congruence|simpl; lia]. }
  repeat split; try apply Hlen.
  simpl. now rewrite Hn.
Qed.

Lemma analyze_rating_progression_shape_witness :
  exists df,
    analyze_rating_progression (fun t => t) "magnuscarlsen" [busy_month]
    = Some df /\
    length (DF.rating df) = 20%nat /\
    DF.games_played df = map Z.of_nat (seq 0 20).
Proof.
  eexists. split; [reflexivity|].
  pose proof (analyze_rating_progression_shape
                (fun t => t) "magnuscarlsen" [busy_month] _ eq_refl) as H.
  split; [exact (proj1 (proj2 (proj2 H)))|].
  exact (proj1 (proj2 (proj2 (proj2 (proj2 (proj2 (proj2 (proj2 (proj2 H))))))))).
Defined.

(** ** The summary *)

Lemma fold_max_bounds (first : Z) (rest : list Z) :
  (forall x, In x (first :: rest) -> x <= fold_right Z.max first rest) /\
  In (fold_right Z.max first rest) (first :: rest).
Proof.
  induction rest as [|y rest [IHle IHin]]; simpl.
  - split; [intros x [<-|[]]; lia|now left].
  - split.
    + intros x [<-|[<-|Hin]].
      * specialize (IHle first (or_introl eq_refl)). lia.
      * lia.
      * specialize (IHle x (or_intror Hin)). lia.
    + destruct (Z.max_spec y (fold_right Z.max first rest)) as [[_ ->]|[_ ->]].
      * destruct IHin as [Heq|Hin]; [now left|right; now right].
      * right. now left.
Qed.

Lemma fold_min_bounds (first : Z) (rest : list Z) :
  (forall x, In x (first :: rest) -> fold_right Z.min first rest <= x) /\
  In (fold_right Z.min first rest) (first :: rest).
Proof.
  induction rest as [|y rest [IHle IHin]]; simpl.
  - split; [intros x [<-|[]]; lia|now left].
  - split.
    + intros x [<-|[<-|Hin]].
      * specialize (IHle first (or_introl eq_refl)). lia.
      * lia.
      * specialize (IHle x (or_intror Hin)). lia.
    + destruct (Z.min_spec y (fold_right Z.min first rest)) as [[_ ->]|[_ ->]].
      * right. now left.
      * destruct IHin as [Heq|Hin]; [now left|right; now right].
Qed.

Lemma last_in {A : Type} (l : list A) (x : A) : In (last l x) (x :: l).
Proof.
  revert x. induction l as [|y l IH]; intros x; [now left|].
  right. rewrite last_cons. apply IH.
Qed.

Lemma calculate_progress_metrics_inr (df : DF.t) (m : Metrics.t) :
  calculate_progress_metrics df = inr m ->
  exists first rest,
    DF.rating df = first :: rest /\
    m = Metrics.mk (Z.of_nat (length (first :: rest))) first (last rest first)
          (last rest first - first)
          (Qred (inject_Z (last rest first - first)
                 / inject_Z (Z.of_nat (length (first :: rest)))))
          (fold_right Z.max first rest) (fold_right Z.min first rest).
Proof.
  unfold calculate_progress_metrics.
  destruct (DF.rating df) as [|first rest]; [discriminate|].
  intros Heq. injection Heq as <-. now exists first, rest.
Qed.

(** X4.  In the summary of [calculate_progress_metrics] every rating of
    the frame lies between [min_rating] and [max_rating], both of which are
    ratings of the frame; so do [initial_rating] and [final_rating], and
    the magnitude of [total_gain] is at most [max_rating - min_rating]. *)
Theorem metrics_bounds (df : DF.t) (m : Metrics.t) :
  calculate_progress_metrics df = inr m ->
  (forall r, In r (DF.rating df) ->
     Metrics.min_rating m <= r <= Metrics.max_rating m) /\
  In (Metrics.min_rating m) (DF.rating df) /\
  In (Metrics.max_rating m) (DF.rating df) /\
  Metrics.min_rating m <= Metrics.initial_rating m <= Metrics.max_rating m /\
  Metrics.min_rating m <= Metrics.final_rating m <= Metrics.max_rating m /\
  Z.abs (Metrics.total_gain m) <= Metrics.max_rating m - Metrics.min_rating m.
Proof.
  intros Hrun.
  destruct (calculate_progress_metrics_inr df m Hrun) as (first & rest & Hr & ->).
  rewrite Hr. cbn [Metrics.min_rating Metrics.max_rating Metrics.initial_rating
                   Metrics.final_rating Metrics.total_gain].
  destruct (fold_max_bounds first rest) as [Hmax Hmax_in].
  destruct (fold_min_bounds first rest) as [Hmin Hmin_in].
  pose proof (last_in rest first) as Hlast.
  assert (Hall : forall r, In r (first :: rest) ->
            fold_right Z.min first rest <= r <= fold_right Z.max first rest).
  { intros r Hin. split; [now apply Hmin|now apply Hmax]. }
  pose proof (Hall first (or_introl eq_refl)) as Hfirst.
  pose proof (Hall _ Hlast) as Hfinal.
  repeat split; try assumption; try lia; try (now apply Hall).
Qed.

Lemma metrics_bounds_witness :
  exists m,
    calculate_progress_metrics (frame_of_ratings example_ratings) = inr m /\
    Metrics.min_rating m = 1000 /\ Metrics.max_rating m = 1042 /\
    Z.abs (Metrics.total_gain m) <= Metrics.max_rating m - Metrics.min_rating m.
Proof.
  eexists. split; [reflexivity|]. split; [reflexivity|]. split; [reflexivity|].
  exact (proj2 (proj2 (proj2 (proj2 (proj2
           (metrics_bounds (frame_of_ratings example_ratings) _ eq_refl)))))).
Defined.

(** X5.  On a frame returned by [analyze_rating_progression] the two
    reports of [main] do not raise: [calculate_progress_metrics] returns a
    summary whose [total_games] is the number of games of the archives,
    and [find_rating_plateaus] returns for every window that is not
    negative. *)
Theorem analysis_then_reports (fromtimestamp : Z -> Z) (username : string)
  (archives : list (list Game.t)) (df : DF.t) (window : Z) (threshold : Q) :
  analyze_rating_progression fromtimestamp username archives = Some df ->
  0 <= window ->
  (exists m,
     calculate_progress_metrics df = inr m /\
     Metrics.total_games m = Z.of_nat (length (concat archives))) /\
  (exists ps df', find_rating_plateaus df window threshold = inr (ps, df')).
Proof.
  intros Hrun Hw.
  destruct (analyze_rating_progression_some _ _ _ _ Hrun) as [Hne ->].
  set (history := rating_history fromtimestamp username archives) in *.
  assert (Hlen : length (DF.rating (derived_columns (sort_values history)))
                 = length (concat archives)).
  { cbn [derived_columns DF.rating].
    rewrite length_map, sort_values_length. apply rating_history_length. }
  assert (Hpos : (0 < length history)%nat)
    by (destruct history; [congruence|simpl; lia]).
  split.
  - unfold calculate_progress_metrics.
    destruct (DF.rating (derived_columns (sort_values history)))
      as [|first rest] eqn:Hr.
    + cbn [derived_columns DF.rating] in Hr.
      apply (f_equal (@length Z)) in Hr.
      rewrite length_map, sort_values_length in Hr. simpl in Hr. lia.
    + eexists. split; [reflexivity|].
      cbn [Metrics.total_games]. now rewrite Hlen.
  - unfold find_rating_plateaus. rewrite rolling_mean_ok by assumption.
    eexists. eexists. reflexivity.
Qed.

Lemma analysis_then_reports_witness :
  exists df m ps df',
    analyze_rating_progression (fun t => t) "magnuscarlsen" [busy_month]
    = Some df /\
    calculate_progress_metrics df = inr m /\
    Metrics.total_games m = 20 /\
    find_rating_plateaus df 30 3 = inr (ps, df').
Proof.
  destruct (analysis_then_reports (fun t => t) "magnuscarlsen" [busy_month]
              _ 30 3 eq_refl ltac:(lia))
    as ((m & Hm & Hgames) & (ps & df' & Hfind)).
  eexists. exists m, ps, df'. split; [reflexivity|].
  split; [exact Hm|]. split; [exact Hgames|exact Hfind].
Defined.

(** ** Rolling means of integer columns *)

Lemma diff_steps (xs : list Z) :
  xs <> [] ->
  diff xs = None :: map (fun z => Some (inject_Z z)) (steps xs).
Proof.
  destruct xs as [|x tl]; [congruence|]. intros _.
  unfold diff, steps. cbn [List.tl]. now rewrite map_map.
Qed.

Lemma steps_cons (x y : Z) (l : list Z) :
  steps (x :: y :: l) = (y - x) :: steps (y :: l).
Proof. reflexivity. Qed.

Lemma steps_length (xs : list Z) : length (steps xs) = (length xs - 1)%nat.
Proof.
  unfold steps. rewrite length_map, length_combine.
  destruct xs; cbn [length List.tl]; lia.
Qed.

(** The steps between two rows add up to the difference of the rows. *)
Lemma steps_telescope (xs : list Z) (a w : nat) :
  (a + w < length xs)%nat ->
  Zsum (firstn w (skipn a (steps xs))) = nth (a + w) xs 0 - nth a xs 0.
Proof.
  revert a w. induction xs as [|x l IH]; intros a w Hlen; [simpl in Hlen; lia|].
  destruct l as [|y l'].
  - simpl in Hlen. assert (a = 0%nat) by lia. assert (w = 0%nat) by lia.
    subst. simpl. lia.
  - rewrite steps_cons. destruct a as [|a'].
    + destruct w as [|w']; [simpl; lia|].
      cbn [skipn firstn Zsum fold_right Nat.add nth].
      specialize (IH 0%nat w' ltac:(simpl in *; lia)).
      cbn [skipn Nat.add] in IH. unfold Zsum in IH. rewrite IH.
      cbn [nth]. lia.
    + cbn [skipn Nat.add nth].
      apply IH. simpl in *. lia.
Qed.

Lemma observed_ints (zs : list Z) :
  observed (map (fun z => Some (inject_Z z)) zs) = map inject_Z zs.
Proof.
  induction zs as [|z zs IH]; [reflexivity|]. simpl. now rewrite IH.
Qed.

Lemma Qsum_ints (zs : list Z) :
  (Qsum (map inject_Z zs) == inject_Z (Zsum zs))%Q.
Proof.
  induction zs as [|z zs IH]; [reflexivity|].
  cbn [map Qsum Zsum fold_right]. fold (Qsum (map inject_Z zs)).
  fold (Zsum zs). rewrite inject_Z_plus, IH. reflexivity.
Qed.

(** The mean of a full window of integer cells. *)
Lemma window_mean_ints (zs : list Z) :
  zs <> [] ->
  exists q,
    window_mean (length zs) (map (fun z => Some (inject_Z z)) zs) = Some q /\
    (q == inject_Z (Zsum zs) / inject_Z (Z.of_nat (length zs)))%Q.
Proof.
  intros Hne. unfold window_mean.
  rewrite observed_ints, length_map, Nat.leb_refl.
  destruct (Nat.ltb_spec 0 (length zs)) as [_|Hz];
    [|destruct zs; [congruence|simpl in Hz; lia]].
  eexists. split; [reflexivity|].
  rewrite Qred_correct, Qsum_ints. reflexivity.
Qed.

(** The window of [diff xs] at a row [i >= w] holds the [w] steps that
    lead to row [i]. *)
Lemma window_at_diff (xs : list Z) (w i : nat) :
  (0 < w)%nat -> (w <= i)%nat -> (i < length xs)%nat ->
  window_at w (diff xs) i
  = map (fun z => Some (inject_Z z)) (firstn w (skipn (i - w) (steps xs))) /\
  length (firstn w (skipn (i - w) (steps xs))) = w.
Proof.
  intros Hw Hi Hlen. split.
  - rewrite diff_steps by (destruct xs; [simpl in Hlen; lia|discriminate]).
    unfold window_at.
    replace (S i - w)%nat with (S (i - w)) by lia.
    rewrite skipn_cons.
    replace (S i - S (i - w))%nat with w by lia.
    now rewrite skipn_map, firstn_map.
  - rewrite length_firstn, length_skipn, steps_length. lia.
Qed.

Lemma rolling_diff_cell (xs : list Z) (w i : nat) :
  (0 < w)%nat -> (w <= i)%nat -> (i < length xs)%nat ->
  exists q,
    nth_error (rolling_window_mean w (diff xs)) i = Some (Some q) /\
    (q == inject_Z (nth i xs 0 - nth (i - w) xs 0)%Z / inject_Z (Z.of_nat w))%Q.
Proof.
  intros Hw Hi Hlen.
  destruct (window_at_diff xs w i Hw Hi Hlen) as [Hcells Hfull].
  destruct (window_mean_ints (firstn w (skipn (i - w) (steps xs))))
    as (q & Hmean & Hq).
  { intros Hnil. rewrite Hnil in Hfull. simpl in Hfull. lia. }
  rewrite Hfull in Hmean, Hq.
  exists q. split.
  - rewrite (nth_error_nth' _ None)
      by (rewrite rolling_window_mean_length, diff_length; lia).
    rewrite rolling_window_mean_nth by (rewrite diff_length; lia).
    now rewrite Hcells, Hmean.
  - rewrite Hq, steps_telescope by lia.
    replace (i - w + w)%nat with i by lia. reflexivity.
Qed.

Lemma Qabs_div_lt (a : Z) (w : Z) (q threshold : Q) :
  0 < w -> (q == inject_Z a / inject_Z w)%Q ->
  (Qabs q < threshold)%Q <->
  (inject_Z (Z.abs a) < threshold * inject_Z w)%Q.
Proof.
  intros Hw Hq.
  assert (Hpos : (0 < inject_Z w)%Q) by (unfold Qlt; simpl; lia).
  assert (Habs : (Qabs q == inject_Z (Z.abs a) / inject_Z w)%Q).
  { rewrite Hq. unfold Qdiv. rewrite Qabs_Qmult, Qabs_Qinv.
    rewrite (Qabs_pos (inject_Z w)) by now apply Qlt_le_weak.
    reflexivity. }
  rewrite Habs. split.
  - intros Hlt.
    apply (Qmult_lt_r _ _ (inject_Z w)) in Hlt; [|exact Hpos].
    revert Hlt. unfold Qdiv. rewrite <- Qmult_assoc.
    rewrite (Qmult_comm (/ inject_Z w)), Qmult_inv_r, Qmult_1_r; [tauto|].
    intros Hz. rewrite Hz in Hpos. now apply (Qlt_irrefl 0).
  - intros Hlt. now apply Qlt_shift_div_r.
Qed.

(** X6.  On a frame built by lines 118 to 127, the rolling mean of
    [rating_change] over a positive window [W] is, at every row [i >= W],
    the net rating change over the last [W] games divided by [W]:
    [(rating[i] - rating[i - W]) / W], a quotient of integers that the
    program holds rounded to binary64.  For a threshold [t] that is an
    integer, as the default 5 and the 3 of [main] are, the test
    [abs(x) < t] of the plateau loop holds at row [i] exactly when the
    rating moved by less than [t * W] between game [i - W] and game [i]:
    a quotient of integers by [W] that is below the integer [t] is below
    it by [1 / W] at least, which rounding does not bridge as long as
    [t * W] and the ratings stay below 2^53. *)
Theorem rolling_change_is_net_change (entries : list Entry.t) (W t : Z)
  (i : nat) :
  0 < W -> W <= Z.of_nat i -> (i < length entries)%nat ->
  let ratings := map Entry.rating entries in
  let net := nth i ratings 0 - nth (i - Z.to_nat W) ratings 0 in
  exists rc q,
    rolling_mean W (DF.rating_change (derived_columns entries)) = inr rc /\
    nth_error rc i = Some (Some q) /\
    (q == inject_Z net / inject_Z W)%Q /\
    (below (inject_Z t) (Some q) = true <-> Z.abs net < t * W).
Proof.
  intros HW Hi Hlen ratings net.
  destruct (rolling_diff_cell ratings (Z.to_nat W) i)
    as (q & Hcell & Hq); try lia.
  { subst ratings. rewrite length_map. exact Hlen. }
  rewrite Z2Nat.id in Hq by lia.
  exists (rolling_window_mean (Z.to_nat W) (diff ratings)), q.
  split; [apply rolling_mean_ok; lia|].
  split; [exact Hcell|]. split; [exact Hq|].
  rewrite (Zlt_Qlt (Z.abs net) (t * W)), inject_Z_mult.
  rewrite below_true_iff. split.
  - intros (q' & Heq & Hlt). injection Heq as <-.
    now apply (Qabs_div_lt net W q (inject_Z t) HW Hq).
  - intros Hlt. exists q. split; [reflexivity|].
    now apply (Qabs_div_lt net W q (inject_Z t) HW Hq).
Qed.

Lemma rolling_change_is_net_change_witness :
  exists rc q,
    rolling_mean 2 (DF.rating_change (frame_of_ratings example_ratings))
    = inr rc /\
    nth_error rc 5 = Some (Some q) /\
    (q == inject_Z (1040 - 1001) / inject_Z 2)%Q /\
    below 3 (Some q) = false.
Proof.
  destruct (rolling_change_is_net_change
              (map (fun r => Entry.mk 0 r "600") example_ratings) 2 3 5
              ltac:(lia) ltac:(lia) ltac:(vm_compute; lia))
    as (rc & q & Hrc & Hcell & Hq & Htest).
  exists rc, q. split; [exact Hrc|]. split; [exact Hcell|].
  split; [exact Hq|].
  change 3%Q with (inject_Z 3).
  destruct (below (inject_Z 3) (Some q)); [|reflexivity].
  pose proof (proj1 Htest eq_refl) as Hlt. vm_compute in Hlt.
  discriminate Hlt.
Defined.

(** ** The plateaus in terms of the ratings *)

Lemma nth_error_combine_some {A B : Type} (l1 : list A) (l2 : list B)
  (k : nat) (a : A) (b : B) :
  nth_error l1 k = Some a -> nth_error l2 k = Some b ->
  nth_error (combine l1 l2) k = Some (a, b).
Proof.
  revert l2 k. induction l1 as [|x l1 IH]; intros [|y l2] [|k]; simpl;
    try discriminate.
  - intros Ha Hb. injection Ha as <-. injection Hb as <-. reflexivity.
  - apply IH.
Qed.

(** The row the scan reads at position [k] of a frame built by
    [derived_columns]. *)
Lemma iterrows_nth (entries : list Entry.t) (rc : list float) (k : nat)
  (e : Entry.t) :
  length rc = length entries ->
  nth_error entries k = Some e ->
  nth_error (iterrows (DF.set_rolling_change (derived_columns entries) rc)) k
  = Some (Row.mk (Entry.date e) (Entry.rating e) (Z.of_nat k)
                 (nth k rc None)).
Proof.
  intros Hlen He.
  assert (Hk : (k < length entries)%nat)
    by (apply nth_error_Some; congruence).
  rewrite iterrows_set, nth_error_map.
  rewrite (nth_error_combine_some _ _ k
             (Entry.date e, Entry.rating e, Z.of_nat k) (nth k rc None)).
  - reflexivity.
  - apply nth_error_combine_some; [apply nth_error_combine_some|].
    + cbn [derived_columns DF.date]. now rewrite nth_error_map, He.
    + cbn [derived_columns DF.rating]. now rewrite nth_error_map, He.
    + cbn [derived_columns DF.games_played].
      rewrite nth_error_map, nth_error_seq.
      destruct (Nat.ltb_spec k (length entries)); [reflexivity|lia].
  - apply nth_error_nth'. lia.
Qed.

Lemma iterrows_length (entries : list Entry.t) (rc : list float) :
  length rc = length entries ->
  length (iterrows (DF.set_rolling_change (derived_columns entries) rc))
  = length entries.
Proof.
  intros Hlen. rewrite iterrows_set, length_map, !length_combine.
  cbn [derived_columns DF.date DF.rating DF.games_played].
  rewrite !length_map, length_seq. lia.
Qed.

(** A row passes the test of the loop exactly when its game is slow. *)
Lemma qualifies_slow (entries : list Entry.t) (W : Z) (threshold : Q)
  (k : nat) :
  0 < W -> (k < length entries)%nat ->
  qualifies threshold
    (iterrows (DF.set_rolling_change (derived_columns entries)
       (rolling_window_mean (Z.to_nat W)
          (DF.rating_change (derived_columns entries))))) k = true
  <-> slow threshold W (map Entry.rating entries) k.
Proof.
  intros HW Hk. unfold qualifies.
  destruct (nth_error entries k) as [e|] eqn:He;
    [|apply nth_error_None in He; lia].
  cbn [derived_columns DF.rating_change].
  set (ratings := map Entry.rating entries).
  assert (Hlen : length ratings = length entries)
    by (subst ratings; apply length_map).
  rewrite (iterrows_nth entries _ k e)
    by (rewrite ?rolling_window_mean_length, ?diff_length; assumption).
  cbn [Row.rolling_change]. unfold slow.
  destruct (Z_le_gt_dec W (Z.of_nat k)) as [Hle|Hgt].
  - destruct (rolling_diff_cell ratings (Z.to_nat W) k) as (q & Hcell & Hq);
      try lia.
    rewrite Z2Nat.id in Hq by lia.
    rewrite (nth_error_nth _ _ None Hcell).
    rewrite below_true_iff. split.
    + intros (q' & Heq & Hlt). injection Heq as <-.
      split; [exact Hle|].
      now apply (Qabs_div_lt _ W q threshold HW Hq).
    + intros [_ Hlt]. exists q. split; [reflexivity|].
      now apply (Qabs_div_lt _ W q threshold HW Hq).
  - split; [|intros [Hle _]; lia].
    destruct (diff_shape ratings) as (tl & Hdiff & Hall).
    { intros Hnil. rewrite Hnil in Hlen. simpl in Hlen. lia. }
    pose proof (diff_length ratings) as Hdl.
    rewrite Hdiff in *. cbn [length] in Hdl.
    pose proof (rolling_defined_after_nan (Z.to_nat W) tl k
                  ltac:(lia) ltac:(lia) Hall) as Hdef.
    destruct (nth k (rolling_window_mean (Z.to_nat W) (None :: tl)) None)
      as [q|]; [|discriminate].
    destruct Hdef as [Hdef _]. specialize (Hdef eq_refl). lia.
Qed.

Lemma scanned_length (entries : list Entry.t) (W : Z) :
  length (scanned entries W) = length entries.
Proof.
  apply iterrows_length. cbn [derived_columns DF.rating_change].
  now rewrite rolling_window_mean_length, diff_length, length_map.
Qed.

Lemma find_rating_plateaus_scanned (entries : list Entry.t) (W : Z)
  (threshold : Q) (ps : list Plateau.t) (df' : DF.t) :
  find_rating_plateaus (derived_columns entries) W threshold
  = inr (ps, df') ->
  0 <= W /\ ps = snd (scan threshold (scanned entries W)).
Proof.
  unfold find_rating_plateaus, rolling_mean.
  destruct (Z.ltb_spec W 0) as [Hneg|Hpos]; [discriminate|].
  intros Heq. injection Heq as <- <-. split; [exact Hpos|reflexivity].
Qed.

(** The closed runs of the scanned rows are the maximal slow stretches
    that are followed by a game that is not slow. *)
Lemma closed_run_slow (entries : list Entry.t) (W : Z) (threshold : Q)
  (i j : nat) :
  0 < W ->
  closed_run threshold (scanned entries W) i j <->
  (Z.to_nat W <= i < j)%nat /\ (j < length entries)%nat /\
  (forall k, (i <= k < j)%nat ->
     slow threshold W (map Entry.rating entries) k) /\
  ~ slow threshold W (map Entry.rating entries) j /\
  ~ slow threshold W (map Entry.rating entries) (i - 1).
Proof.
  intros HW. unfold closed_run. rewrite scanned_length.
  assert (Hq : forall k, (k < length entries)%nat ->
            qualifies threshold (scanned entries W) k = true
            <-> slow threshold W (map Entry.rating entries) k).
  { intros k Hk. now apply qualifies_slow. }
  assert (Hnq : forall k, (k < length entries)%nat ->
            qualifies threshold (scanned entries W) k = false
            <-> ~ slow threshold W (map Entry.rating entries) k).
  { intros k Hk. rewrite <- (Hq k Hk).
    destruct (qualifies threshold (scanned entries W) k); split; congruence. }
  split.
  - intros (Hij & Hall & Hj & Hi).
    assert (HiW : (Z.to_nat W <= i)%nat).
    { assert (Hs : slow threshold W (map Entry.rating entries) i)
        by (apply Hq; [lia|apply Hall; lia]).
      destruct Hs as [Hs _]. lia. }
    split; [lia|]. split; [lia|].
    split; [intros k Hk; apply Hq; [lia|now apply Hall]|].
    split; [apply Hnq; [lia|exact Hj]|].
    destruct Hi as [->|Hi]; [lia|]. apply Hnq; [lia|exact Hi].
  - intros (Hij & Hj & Hall & Hnj & Hni).
    split; [lia|].
    split; [intros k Hk; apply Hq; [lia|now apply Hall]|].
    split; [apply Hnq; [lia|exact Hnj]|].
    right. apply Hnq; [lia|exact Hni].
Qed.

(** The plateau of a run reads its fields from the two games that bound
    the run. *)
Lemma spans_cells (entries : list Entry.t) (W : Z) (i j : nat)
  (p : Plateau.t) :
  (i < length entries)%nat -> (j < length entries)%nat ->
  spans (scanned entries W) i j p <->
  p = Plateau.mk (nth i (map Entry.rating entries) 0)
                 (nth j (map Entry.rating entries) 0)
                 (Z.of_nat j - Z.of_nat i) (Z.of_nat i) (Z.of_nat j)
                 (nth i (map Entry.date entries) 0)
                 (nth j (map Entry.date entries) 0).
Proof.
  intros Hi Hj. unfold spans, scanned.
  set (rc := rolling_window_mean (Z.to_nat W)
               (DF.rating_change (derived_columns entries))).
  assert (Hlen : length rc = length entries).
  { subst rc. cbn [derived_columns DF.rating_change].
    now rewrite rolling_window_mean_length, diff_length, length_map. }
  destruct (nth_error entries i) as [ei|] eqn:Hei;
    [|apply nth_error_None in Hei; lia].
  destruct (nth_error entries j) as [ej|] eqn:Hej;
    [|apply nth_error_None in Hej; lia].
  rewrite (iterrows_nth entries rc i ei Hlen Hei).
  rewrite (iterrows_nth entries rc j ej Hlen Hej).
  rewrite !(nth_error_nth _ _ 0
              (eq_trans (nth_error_map _ _ _) (f_equal _ Hei))).
  rewrite !(nth_error_nth _ _ 0
              (eq_trans (nth_error_map _ _ _) (f_equal _ Hej))).
  split.
  - intros (ri & rj & Hri & Hrj & ->).
    injection Hri as <-. injection Hrj as <-. reflexivity.
  - intros ->. eexists _, _. split; [reflexivity|]. split; reflexivity.
Qed.

(** X7.  The plateaus [find_rating_plateaus] returns for a positive
    window [W] and a threshold [t] that is an integer (as the default 5
    and the 3 of [main] are), read off the ratings alone: a plateau is a
    stretch of games [i, ..., j - 1] with [W <= i < j], at each of which
    the rating moved by less than [t * W] over the last [W] games, while
    this fails at game [j] and at game [i - 1]; its fields are the ratings
    and dates of games [i] and [j], their numbers, and [j - i].  The
    comparisons are between integers, so the rounding of the means to
    binary64 does not change them as long as [t * W] and the ratings
    stay below 2^53. *)
Theorem plateaus_from_ratings (entries : list Entry.t) (W t : Z)
  (ps : list Plateau.t) (df' : DF.t) :
  0 < W ->
  find_rating_plateaus (derived_columns entries) W (inject_Z t)
  = inr (ps, df') ->
  let ratings := map Entry.rating entries in
  let dates := map Entry.date entries in
  let threshold := inject_Z t in
  forall p, In p ps <->
    exists i j,
      (Z.to_nat W <= i < j)%nat /\ (j < length entries)%nat /\
      (forall k, (i <= k < j)%nat -> slow threshold W ratings k) /\
      ~ slow threshold W ratings j /\
      ~ slow threshold W ratings (i - 1) /\
      p = Plateau.mk (nth i ratings 0) (nth j ratings 0)
                     (Z.of_nat j - Z.of_nat i) (Z.of_nat i) (Z.of_nat j)
                     (nth i dates 0) (nth j dates 0).
Proof.
  intros HW Hrun ratings dates threshold p.
  destruct (find_rating_plateaus_scanned _ _ _ _ _ Hrun) as [_ ->].
  rewrite scan_plateaus. split.
  - intros (i & j & Hclosed & Hsp).
    pose proof (proj1 (closed_run_slow entries W threshold i j HW) Hclosed)
      as (Hij & Hj & Hall & Hnj & Hni).
    exists i, j. repeat (split; [assumption|]).
    apply (spans_cells entries W i j p); [lia|lia|exact Hsp].
  - intros (i & j & Hij & Hj & Hall & Hnj & Hni & Hp).
    exists i, j. split.
    + apply (closed_run_slow entries W threshold i j HW).
      repeat (split; [assumption|]). assumption.
    + apply (spans_cells entries W i j p); [lia|lia|exact Hp].
Qed.

Lemma plateaus_from_ratings_witness :
  let entries := map (fun r => Entry.mk 0 r "600") example_ratings in
  let ratings := map Entry.rating entries in
  let dates := map Entry.date entries in
  exists i j,
    (Z.to_nat 2 <= i < j)%nat /\ (j < length entries)%nat /\
    (forall k, (i <= k < j)%nat -> slow 3 2 ratings k) /\
    ~ slow 3 2 ratings j /\
    ~ slow 3 2 ratings (i - 1) /\
    example_plateau
    = Plateau.mk (nth i ratings 0) (nth j ratings 0)
                 (Z.of_nat j - Z.of_nat i) (Z.of_nat i) (Z.of_nat j)
                 (nth i dates 0) (nth j dates 0).
Proof.
  exact (proj1 (plateaus_from_ratings
                  (map (fun r => Entry.mk 0 r "600") example_ratings)
                  2 3 _ _ ltac:(lia) example_run example_plateau)
               (or_introl eq_refl)).
Defined.

(** ** The order of the plateaus *)

Lemma chained_weaken (lo lo' : Z) (ps : list Plateau.t) :
  lo' <= lo -> chained lo ps -> chained lo' ps.
Proof.
  destruct ps as [|p rest]; [trivial|].
  intros Hle (Hlo & Hlt & Hrest). cbn [chained].
  split; [lia|]. split; assumption.
Qed.

Lemma chained_from (lo W : Z) (ps : list Plateau.t) :
  chained lo ps ->
  (forall p, In p ps -> W <= Plateau.start_game_number p) ->
  chained (Z.max lo W) ps.
Proof.
  destruct ps as [|p rest]; [trivial|].
  intros (Hlo & Hlt & Hrest) Hall. cbn [chained].
  specialize (Hall p (or_introl eq_refl)).
  split; [lia|]. split; assumption.
Qed.

Lemma chained_count (lo hi : Z) (ps : list Plateau.t) :
  chained lo ps ->
  (forall p, In p ps -> Plateau.end_game_number p < hi) ->
  ps = [] \/ lo + 2 * Z.of_nat (length ps) <= hi.
Proof.
  revert lo. induction ps as [|p rest IH]; intros lo Hch Hall; [now left|].
  right. destruct Hch as (Hlo & Hlt & Hrest).
  pose proof (Hall p (or_introl eq_refl)) as Hp.
  destruct (IH _ Hrest (fun q Hq => Hall q (or_intror Hq))) as [->|Hle].
  - simpl. lia.
  - cbn [length]. lia.
Qed.

(** The plateaus of the scan on rows numbered from [g] on. *)
Lemma detect_chained (threshold : Q) (rows : list Row.t) :
  forall (g : Z) (anchor : option Current.t),
    (forall k row, nth_error rows k = Some row ->
       Row.games_played row = g + Z.of_nat k) ->
    (forall c, anchor = Some c -> Current.start_game c < g) ->
    chained (match anchor with
             | Some c => Current.start_game c
             | None => g
             end)
            (Spec.detect threshold anchor rows) /\
    (forall p, In p (Spec.detect threshold anchor rows) ->
       Plateau.end_game_number p < g + Z.of_nat (length rows)).
Proof.
  induction rows as [|r rows IH]; intros g anchor Hnum Hanchor.
  - split; [exact I|intros p []].
  - assert (Hr : Row.games_played r = g).
    { rewrite (Hnum 0%nat r eq_refl). lia. }
    assert (Hnum' : forall k row, nth_error rows k = Some row ->
              Row.games_played row = (g + 1) + Z.of_nat k).
    { intros k row Hk. rewrite (Hnum (S k) row Hk). lia. }
    assert (Hlen : g + Z.of_nat (length (r :: rows))
                   = (g + 1) + Z.of_nat (length rows))
      by (cbn [length]; lia).
    rewrite Hlen.
    assert (Hclose : forall c, anchor = Some c ->
              chained (Current.start_game c)
                (close c r :: Spec.detect threshold None rows) /\
              (forall p, In p (close c r :: Spec.detect threshold None rows) ->
                 Plateau.end_game_number p < g + 1 + Z.of_nat (length rows))).
    { intros c Hc.
      destruct (IH (g + 1) None Hnum' ltac:(discriminate)) as [Hch Hend].
      pose proof (Hanchor c Hc) as Hlt.
      split.
      - cbn [chained close Plateau.start_game_number Plateau.end_game_number].
        rewrite Hr. split; [lia|]. split; [lia|exact Hch].
      - intros p [<-|Hin]; [|now apply Hend].
        cbn [close Plateau.end_game_number]. lia. }
    assert (Hskip :
              chained g (Spec.detect threshold None rows) /\
              (forall p, In p (Spec.detect threshold None rows) ->
                 Plateau.end_game_number p < g + 1 + Z.of_nat (length rows))).
    { destruct (IH (g + 1) None Hnum' ltac:(discriminate)) as [Hch Hend].
      split; [|exact Hend]. apply (chained_weaken (g + 1)); [lia|exact Hch]. }
    cbn [Spec.detect].
    destruct (Row.rolling_change r) as [x|].
    + destruct (Qlt_le_dec (Qabs x) threshold) as [Hlt|Hle].
      * destruct anchor as [c|].
        -- apply (IH (g + 1) (Some c) Hnum').
           intros c' Hc'. injection Hc' as <-.
           specialize (Hanchor c eq_refl). lia.
        -- destruct (IH (g + 1) (Some (open r)) Hnum') as [Hch Hend].
           { intros c' Hc'. injection Hc' as <-.
             cbn [open Current.start_game]. lia. }
           split; [|exact Hend].
           cbn [open Current.start_game] in Hch. now rewrite Hr in Hch.
      * destruct anchor as [c|]; [now apply Hclose|exact Hskip].
    + destruct anchor as [c|]; [now apply Hclose|exact Hskip].
Qed.

Lemma scanned_numbered (entries : list Entry.t) (W : Z) (k : nat)
  (row : Row.t) :
  nth_error (scanned entries W) k = Some row ->
  Row.games_played row = 0 + Z.of_nat k.
Proof. apply iterrows_games_played. Qed.

(** A plateau of a frame built by [derived_columns] is anchored at a game
    with a full window behind it. *)
Lemma plateau_start_ge_window (entries : list Entry.t) (W : Z)
  (threshold : Q) (p : Plateau.t) :
  0 <= W ->
  In p (snd (scan threshold (scanned entries W))) ->
  W <= Plateau.start_game_number p.
Proof.
  intros HW Hin. apply scan_plateaus in Hin.
  destruct Hin as (i & j & Hclosed & Hsp).
  assert (Hij : (i < j < length entries)%nat).
  { destruct Hclosed as (Hij & _). now rewrite scanned_length in Hij. }
  apply (spans_cells entries W i j p) in Hsp; [|lia|lia].
  subst p. cbn [Plateau.start_game_number].
  destruct (Z.eq_dec W 0) as [->|Hne]; [lia|].
  apply closed_run_slow in Hclosed; [|lia]. lia.
Qed.

(** X8.  The plateaus are returned in the order of the games and do not
    overlap: each starts at game [window] or later, ends after it starts,
    and the next one starts after the game that closed it.  Every plateau
    ends at a game of the frame, so a frame of [n] games has at most
    [(n - window) / 2] plateaus. *)
Theorem plateaus_chained (entries : list Entry.t) (W : Z) (threshold : Q)
  (ps : list Plateau.t) (df' : DF.t) :
  find_rating_plateaus (derived_columns entries) W threshold
  = inr (ps, df') ->
  chained W ps /\
  (forall p, In p ps ->
     Plateau.end_game_number p < Z.of_nat (length entries)) /\
  (ps = [] \/ W + 2 * Z.of_nat (length ps) <= Z.of_nat (length entries)).
Proof.
  intros Hrun.
  destruct (find_rating_plateaus_scanned _ _ _ _ _ Hrun) as [HW ->].
  unfold scan.
  assert (Hall : forall p,
            In p (snd (fold_left (step threshold) (scanned entries W)
                         (None, []))) ->
            W <= Plateau.start_game_number p).
  { intros p. now apply plateau_start_ge_window. }
  rewrite scan_refines in *. cbn [app] in *.
  destruct (detect_chained threshold (scanned entries W) 0 None
              (scanned_numbered entries W) ltac:(discriminate))
    as [Hch Hend].
  rewrite scanned_length in Hend.
  assert (HchW : chained W (Spec.detect threshold None (scanned entries W))).
  { replace W with (Z.max 0 W) at 1 by lia. now apply chained_from. }
  split; [exact HchW|]. split; [exact Hend|].
  now apply chained_count.
Qed.

Lemma plateaus_chained_witness :
  chained 2 [example_plateau] /\
  (forall p, In p [example_plateau] -> Plateau.end_game_number p < 8) /\
  ([example_plateau] = [] \/ 2 + 2 * 1 <= 8).
Proof.
  exact (plateaus_chained (map (fun r => Entry.mk 0 r "600") example_ratings)
           2 3 _ _ example_run).
Defined.

(** ** Frames without plateaus *)

Lemma scan_none_below (threshold : Q) (rows : list Row.t) :
  Forall (fun r => below threshold (Row.rolling_change r) = false) rows ->
  scan threshold rows = (None, []).
Proof.
  induction rows as [|row rows IH] using rev_ind; intros Hall.
  - reflexivity.
  - apply Forall_app in Hall. destruct Hall as [Hrows Hrow].
    rewrite scan_snoc, (IH Hrows).
    inversion Hrow as [|? ? Hb _]; subst.
    unfold step. now rewrite Hb.
Qed.

Lemma below_nonpositive (threshold : Q) (x : float) :
  (threshold <= 0)%Q -> below threshold x = false.
Proof.
  intros Ht. apply below_false_iff.
  destruct x as [q|]; [right|now left].
  exists q. split; [reflexivity|].
  apply (Qle_trans _ 0); [exact Ht|apply Qabs_nonneg].
Qed.

(** X9.  With a threshold that is zero or negative
    [find_rating_plateaus] finds no plateau in any frame, since no
    magnitude is below the threshold: it raises for a negative window and
    returns the empty list otherwise. *)
Theorem nonpositive_threshold_no_plateaus (df : DF.t) (window : Z)
  (threshold : Q) :
  (threshold <= 0)%Q ->
  find_rating_plateaus df window threshold = inl ValueError /\ window < 0 \/
  exists rc,
    0 <= window /\
    rolling_mean window (DF.rating_change df) = inr rc /\
    find_rating_plateaus df window threshold
    = inr ([], DF.set_rolling_change df rc).
Proof.
  intros Ht. unfold find_rating_plateaus, rolling_mean.
  destruct (Z.ltb_spec window 0) as [Hneg|Hpos]; [left; now split|].
  right. eexists. split; [exact Hpos|]. split; [reflexivity|].
  rewrite scan_none_below; [reflexivity|].
  apply Forall_forall. intros row _. now apply below_nonpositive.
Qed.

Lemma nonpositive_threshold_no_plateaus_witness :
  exists rc,
    find_rating_plateaus (frame_of_ratings example_ratings) 2 0
    = inr ([], DF.set_rolling_change (frame_of_ratings example_ratings) rc).
Proof.
  destruct (nonpositive_threshold_no_plateaus
              (frame_of_ratings example_ratings) 2 0 ltac:(discriminate))
    as [[Hraise _]|(rc & _ & _ & Hrun)]; [discriminate Hraise|].
  now exists rc.
Defined.

Lemma no_closed_run_no_plateau (threshold : Q) (rows : list Row.t) :
  (forall i j, ~ closed_run threshold rows i j) ->
  snd (scan threshold rows) = [].
Proof.
  intros Hnone.
  destruct (snd (scan threshold rows)) as [|p ps] eqn:Hps; [reflexivity|].
  assert (Hin : In p (snd (scan threshold rows)))
    by (rewrite Hps; now left).
  apply scan_plateaus in Hin. destruct Hin as (i & j & Hclosed & _).
  now destruct (Hnone i j).
Qed.

Lemma scanned_zero_window (entries : list Entry.t) (threshold : Q) :
  snd (scan threshold (scanned entries 0)) = [].
Proof.
  rewrite scan_all_nan; [reflexivity|].
  apply Forall_forall. intros row Hin.
  unfold scanned in Hin. apply iterrows_rolling_change in Hin.
  change (Z.to_nat 0) with 0%nat in Hin.
  rewrite rolling_window_mean_zero in Hin.
  now apply repeat_spec in Hin.
Qed.

(** X10.  [find_rating_plateaus] returns no plateau for a frame of at
    most [window + 1] games, and none for a player whose rating never
    changes, whatever the window and the threshold: the rows of a constant
    rating all pass the test or all fail it, and a run that is never
    broken is not reported. *)
Theorem quiet_frames_have_no_plateaus (entries : list Entry.t) (W : Z)
  (threshold : Q) (ps : list Plateau.t) (df' : DF.t) :
  find_rating_plateaus (derived_columns entries) W threshold
  = inr (ps, df') ->
  Z.of_nat (length entries) <= W + 1 \/
  (forall e e', In e entries -> In e' entries ->
     Entry.rating e = Entry.rating e') ->
  ps = [].
Proof.
  intros Hrun Hcase.
  destruct (find_rating_plateaus_scanned _ _ _ _ _ Hrun) as [HW ->].
  destruct (Z.eq_dec W 0) as [->|Hne]; [apply scanned_zero_window|].
  apply no_closed_run_no_plateau. intros i j Hclosed.
  apply closed_run_slow in Hclosed; [|lia].
  destruct Hclosed as (Hij & Hj & Hall & Hnj & _).
  destruct Hcase as [Hshort|Hconst]; [lia|].
  apply Hnj.
  destruct (Hall i ltac:(lia)) as [_ Hslow]. cbv zeta in Hslow.
  split; [lia|]. cbv zeta.
  assert (Heq : forall a b, (a < length entries)%nat ->
            (b < length entries)%nat ->
            nth a (map Entry.rating entries) 0
            = nth b (map Entry.rating entries) 0).
  { intros a b Ha Hb.
    rewrite (nth_indep _ 0 (Entry.rating (Entry.mk 0 0 EmptyString)) (n := a))
      by (rewrite length_map; assumption).
    rewrite (nth_indep _ 0 (Entry.rating (Entry.mk 0 0 EmptyString)) (n := b))
      by (rewrite length_map; assumption).
    rewrite !map_nth. apply Hconst; apply nth_In; assumption. }
  rewrite (Heq j (j - Z.to_nat W)%nat) by lia.
  rewrite (Heq i (i - Z.to_nat W)%nat) in Hslow by lia.
  now rewrite Z.sub_diag in *.
Qed.

Lemma quiet_frames_have_no_plateaus_witness :
  exists df',
    find_rating_plateaus (frame_of_ratings (repeat 1500 40)) 30 3
    = inr ([], df').
Proof.
  destruct (find_rating_plateaus (frame_of_ratings (repeat 1500 40)) 30 3)
    as [e|[ps df']] eqn:Hrun; [vm_compute in Hrun; discriminate Hrun|].
  exists df'. f_equal. f_equal.
  apply (quiet_frames_have_no_plateaus _ 30 3 ps df' Hrun).
  right. intros e e' He He'.
  apply in_map_iff in He, He'.
  destruct He as (r & <- & Hr), He' as (r' & <- & Hr').
  apply repeat_spec in Hr, Hr'. now subst.
Defined.

(** ** Dates of the plateaus of an analysis *)

Lemma StronglySorted_nth {A : Type} (R : A -> A -> Prop) (l : list A)
  (d : A) (a b : nat) :
  StronglySorted R l -> (a < b < length l)%nat ->
  R (nth a l d) (nth b l d).
Proof.
  intros Hs. revert a b.
  induction Hs as [|x l Hs IH Hall]; intros a b Hab; [simpl in Hab; lia|].
  destruct b as [|b]; [lia|]. destruct a as [|a].
  - cbn [nth]. apply (proj1 (Forall_forall _ _) Hall).
    apply nth_In. simpl in Hab. lia.
  - cbn [nth]. apply IH. simpl in Hab. lia.
Qed.

Lemma Sorted_le_nth (l : list Z) (a b : nat) :
  Sorted Z.le l -> (a < b < length l)%nat -> nth a l 0 <= nth b l 0.
Proof.
  intros Hs Hab. apply StronglySorted_nth; [|exact Hab].
  apply Sorted_StronglySorted; [|exact Hs].
  intros x y z. apply Z.le_trans.
Qed.

(** X11.  For a frame returned by [analyze_rating_progression], every
    plateau [find_rating_plateaus] reports starts no later than it ends in
    time, and its dates and ratings are the cells of the frame at its
    start and end game numbers. *)
Theorem analysis_plateau_dates (fromtimestamp : Z -> Z) (username : string)
  (archives : list (list Game.t)) (df : DF.t) (window : Z) (threshold : Q)
  (ps : list Plateau.t) (df' : DF.t) :
  analyze_rating_progression fromtimestamp username archives = Some df ->
  find_rating_plateaus df window threshold = inr (ps, df') ->
  forall p, In p ps ->
    Plateau.start_date p <= Plateau.end_date p /\
    nth_error (DF.date df) (Z.to_nat (Plateau.start_game_number p))
    = Some (Plateau.start_date p) /\
    nth_error (DF.date df) (Z.to_nat (Plateau.end_game_number p))
    = Some (Plateau.end_date p) /\
    nth_error (DF.rating df) (Z.to_nat (Plateau.start_game_number p))
    = Some (Plateau.start_rating p) /\
    nth_error (DF.rating df) (Z.to_nat (Plateau.end_game_number p))
    = Some (Plateau.end_rating p).
Proof.
  intros Hdf Hrun p Hin.
  destruct (analyze_rating_progression_some _ _ _ _ Hdf) as [_ ->].
  set (entries := sort_values (rating_history fromtimestamp username archives))
    in *.
  destruct (find_rating_plateaus_scanned _ _ _ _ _ Hrun) as [HW ->].
  apply scan_plateaus in Hin. destruct Hin as (i & j & Hclosed & Hsp).
  assert (Hij : (i < j < length entries)%nat).
  { destruct Hclosed as (Hij & _). now rewrite scanned_length in Hij. }
  apply (spans_cells entries window i j p) in Hsp; [|lia|lia].
  subst p.
  cbn [Plateau.start_date Plateau.end_date Plateau.start_game_number
       Plateau.end_game_number Plateau.start_rating Plateau.end_rating
       derived_columns DF.date DF.rating].
  rewrite !Nat2Z.id.
  split.
  - apply Sorted_le_nth; [apply sort_values_sorted|].
    rewrite length_map. exact Hij.
  - repeat split; apply nth_error_nth'; rewrite length_map; lia.
Qed.

Lemma analysis_plateau_dates_witness :
  exists df ps df',
    analyze_rating_progression (fun t => t) "magnuscarlsen" [busy_month]
    = Some df /\
    find_rating_plateaus df 2 3 = inr (ps, df') /\
    In (Plateau.mk 2842 2839 4 13 17 1700000060 1700000080) ps /\
    1700000060 <= 1700000080 /\
    nth_error (DF.rating df) 13 = Some 2842 /\
    nth_error (DF.rating df) 17 = Some 2839.
Proof.
  pose (df := derived_columns
                (sort_values
                   (rating_history (fun t => t) "magnuscarlsen" [busy_month]))).
  pose (ps := [Plateau.mk 2849 2831 1 6 7 1700000030 1700000030;
               Plateau.mk 2843 2830 1 11 12 1700000050 1700000050;
               Plateau.mk 2842 2839 4 13 17 1700000060 1700000080]).
  pose (df' := DF.set_rolling_change df
                 (rolling_window_mean 2 (DF.rating_change df))).
  assert (Hdf : analyze_rating_progression (fun t => t) "magnuscarlsen"
                  [busy_month] = Some df) by reflexivity.
  assert (Hrun : find_rating_plateaus df 2 3 = inr (ps, df'))
    by (vm_compute; reflexivity).
  assert (Hin : In (Plateau.mk 2842 2839 4 13 17 1700000060 1700000080) ps)
    by (right; right; now left).
  exists df, ps, df'. split; [exact Hdf|]. split; [exact Hrun|].
  split; [exact Hin|].
  destruct (analysis_plateau_dates _ _ _ _ _ _ _ _ Hdf Hrun _ Hin)
    as (Hdates & _ & _ & Hstart & Hend).
  split; [exact Hdates|]. split; [exact Hstart|exact Hend].
Defined.

(** ** A history that is already in order *)

Lemma sorted_permutation_unique (l l' : list nat) :
  StronglySorted lt l -> StronglySorted lt l' -> Permutation l l' -> l = l'.
Proof.
  revert l'. induction l as [|x l IH]; intros l' Hs Hs' Hperm.
  - apply Permutation_nil in Hperm. now subst.
  - destruct l' as [|y l'];
      [apply Permutation_sym, Permutation_nil in Hperm; discriminate|].
    inversion Hs as [|? ? Hsl Hall]; subst.
    inversion Hs' as [|? ? Hsl' Hall']; subst.
    assert (Hxy : x = y).
    { assert (Hx : In x (y :: l'))
        by (apply (Permutation_in _ Hperm); now left).
      assert (Hy : In y (x :: l))
        by (apply (Permutation_in _ (Permutation_sym Hperm)); now left).
      destruct Hx as [Hx|Hx]; [now symmetry|].
      destruct Hy as [Hy|Hy]; [exact Hy|].
      apply (proj1 (Forall_forall _ _) Hall') in Hx.
      apply (proj1 (Forall_forall _ _) Hall) in Hy. lia. }
    subst y. f_equal. apply IH; [assumption|assumption|].
    now apply Permutation_cons_inv in Hperm.
Qed.

Lemma seq_sorted (start len : nat) : StronglySorted lt (seq start len).
Proof.
  revert start. induction len as [|len IH]; intros start; [constructor|].
  cbn [seq]. constructor; [apply IH|].
  apply Forall_forall. intros y Hy. apply in_seq in Hy. lia.
Qed.

(** An indexer that reads strictly increasing keys in non-decreasing
    order, naming no position twice, lists the positions in order. *)
Lemma indexer_sorted (keys : list Z) (indexer : list nat) :
  StronglySorted Z.lt keys ->
  NoDup indexer ->
  (forall i, In i indexer -> (i < length keys)%nat) ->
  StronglySorted Z.le (map (fun i => nth i keys 0) indexer) ->
  StronglySorted lt indexer.
Proof.
  intros Hkeys. induction indexer as [|x ix IH]; intros Hnd Hval Hs;
    [constructor|].
  inversion Hnd as [|? ? Hnotin Hnd']; subst.
  cbn [map] in Hs. inversion Hs as [|? ? Hs' Hall]; subst.
  constructor.
  - apply IH; [assumption|intros i Hi; apply Hval; now right|assumption].
  - apply Forall_forall. intros y Hy.
    assert (Hle : nth x keys 0 <= nth y keys 0).
    { apply (proj1 (Forall_forall _ _) Hall).
      exact (in_map (fun i => nth i keys 0) ix y Hy). }
    pose proof (Hval x (or_introl eq_refl)) as Hx.
    pose proof (Hval y (or_intror Hy)) as Hyv.
    destruct (Nat.lt_trichotomy x y) as [Hlt|[Heq|Hgt]].
    + exact Hlt.
    + subst y. contradiction.
    + pose proof (StronglySorted_nth Z.lt keys 0 y x Hkeys ltac:(lia)). lia.
Qed.

Lemma argsort_increasing (keys : list Z) :
  StronglySorted Z.lt keys -> Npy.argsort keys = seq 0 (length keys).
Proof.
  intros Hkeys.
  pose proof (NpyFacts.argsort_sorts keys) as Hsort.
  pose proof (is_argsort_permutation _ _ Hsort) as Hperm.
  symmetry. apply sorted_permutation_unique; [apply seq_sorted| |exact Hperm].
  assert (Hval : forall i, In i (Npy.argsort keys) -> (i < length keys)%nat).
  { intros i Hi. apply (Permutation_in _ (Permutation_sym Hperm)) in Hi.
    apply in_seq in Hi. lia. }
  apply (indexer_sorted keys); [exact Hkeys| |exact Hval|].
  - apply (Permutation_NoDup Hperm). apply seq_NoDup.
  - rewrite <- NpyFacts.take_valid by exact Hval.
    apply Sorted_StronglySorted; [intros x y z; apply Z.le_trans|].
    apply nondecreasing_sorted.
    unfold is_argsort in Hsort. apply andb_true_iff in Hsort. apply Hsort.
Qed.

(** X12.  [sort_values('date')] leaves a history alone whose dates
    strictly increase in retrieval order: the frame keeps the order in
    which the games were appended. *)
Theorem sort_values_keeps_ordered_history (entries : list Entry.t) :
  StronglySorted Z.lt (map Entry.date entries) ->
  sort_values entries = entries.
Proof.
  intros Hdates. unfold sort_values.
  rewrite argsort_increasing by exact Hdates.
  rewrite length_map. apply take_seq.
Qed.

Lemma sort_values_keeps_ordered_history_witness :
  let history :=
    map (fun k => Entry.mk (1700000000 + 60 * Z.of_nat k)
                           (1500 - Z.of_nat k) "600") (seq 0 20) in
  StronglySorted Z.lt (map Entry.date history) /\
  sort_values history = history.
Proof.
  assert (Hdates : StronglySorted Z.lt
            (map Entry.date
               (map (fun k => Entry.mk (1700000000 + 60 * Z.of_nat k)
                                       (1500 - Z.of_nat k) "600")
                    (seq 0 20))))
    by (vm_compute; repeat constructor).
  split; [exact Hdates|].
  apply sort_values_keeps_ordered_history. exact Hdates.
Defined.

(** ** The rolling columns and the range of the ratings *)

Lemma window_mean_ints_inv (w : nat) (zs : list Z) (q : Q) :
  window_mean w (map (fun z => Some (inject_Z z)) zs) = Some q ->
  (0 < length zs)%nat /\
  (q == inject_Z (Zsum zs) / inject_Z (Z.of_nat (length zs)))%Q.
Proof.
  unfold window_mean. rewrite observed_ints, length_map.
  destruct (Nat.leb w (length zs)); [|discriminate].
  destruct (Nat.ltb_spec 0 (length zs)) as [Hpos|_]; [|discriminate].
  change (true && true)%bool with true. cbv iota.
  intros Heq.
  assert (Hq : Qred (Qsum (map inject_Z zs)
                     / inject_Z (Z.of_nat (length zs))) = q) by congruence.
  rewrite <- Hq.
  split; [exact Hpos|]. rewrite Qred_correct, Qsum_ints. reflexivity.
Qed.

Lemma Zsum_bounds (lo hi : Z) (zs : list Z) :
  (forall z, In z zs -> lo <= z <= hi) ->
  Z.of_nat (length zs) * lo <= Zsum zs <= Z.of_nat (length zs) * hi.
Proof.
  induction zs as [|z zs IH]; intros Hall; [simpl; lia|].
  specialize (IH (fun y Hy => Hall y (or_intror Hy))).
  pose proof (Hall z (or_introl eq_refl)).
  cbn [Zsum fold_right length]. fold (Zsum zs). lia.
Qed.

Lemma mean_bounds (lo hi s n : Z) (q : Q) :
  0 < n -> n * lo <= s <= n * hi ->
  (q == inject_Z s / inject_Z n)%Q ->
  (inject_Z lo <= q <= inject_Z hi)%Q.
Proof.
  intros Hn Hs Hq.
  assert (Hpos : (0 < inject_Z n)%Q) by (unfold Qlt; simpl; lia).
  rewrite Hq. split.
  - apply Qle_shift_div_l; [exact Hpos|].
    rewrite <- inject_Z_mult. rewrite <- Zle_Qle. lia.
  - apply Qle_shift_div_r; [exact Hpos|].
    rewrite <- inject_Z_mult. rewrite <- Zle_Qle. lia.
Qed.

Lemma Qabs_quotient (a w : Z) (q : Q) :
  0 < w -> (q == inject_Z a / inject_Z w)%Q ->
  (Qabs q * inject_Z w == inject_Z (Z.abs a))%Q.
Proof.
  intros Hw Hq.
  assert (Hpos : (0 < inject_Z w)%Q) by (unfold Qlt; simpl; lia).
  rewrite Hq. unfold Qdiv. rewrite Qabs_Qmult, Qabs_Qinv.
  rewrite (Qabs_pos (inject_Z w)) by now apply Qlt_le_weak.
  change (Qabs (inject_Z a)) with (inject_Z (Z.abs a)).
  field. intros Hz. rewrite Hz in Hpos. now apply (Qlt_irrefl 0).
Qed.

Lemma window_at_map {A B : Type} (f : A -> B) (w : nat) (xs : list A)
  (i : nat) :
  window_at w (map f xs) i = map f (window_at w xs i).
Proof.
  unfold window_at. now rewrite skipn_map, firstn_map.
Qed.

Lemma ratings_within (df : DF.t) (m : Metrics.t) :
  calculate_progress_metrics df = inr m ->
  forall r, In r (DF.rating df) ->
    Metrics.min_rating m <= r <= Metrics.max_rating m.
Proof.
  intros Hrun.
  destruct (calculate_progress_metrics_inr df m Hrun)
    as (first & rest & Hr & ->).
  rewrite Hr. cbn [Metrics.min_rating Metrics.max_rating].
  intros r Hin. split.
  - now apply fold_min_bounds.
  - now apply fold_max_bounds.
Qed.

(** X13.  The rolling columns of lines 126 and 127 stay within the range
    of the ratings: every defined cell of [rolling_rating] lies between
    [min_rating] and [max_rating] of the summary, and every defined cell
    of [rating_change_rate] is at most [(max_rating - min_rating) / 20] in
    magnitude. *)
Theorem rolling_columns_within_range (entries : list Entry.t)
  (m : Metrics.t) :
  calculate_progress_metrics (derived_columns entries) = inr m ->
  let df := derived_columns entries in
  let spread := Metrics.max_rating m - Metrics.min_rating m in
  (forall i q, nth_error (DF.rolling_rating df) i = Some (Some q) ->
     (inject_Z (Metrics.min_rating m) <= q <= inject_Z (Metrics.max_rating m))%Q)
  /\
  (forall i q, nth_error (DF.rating_change_rate df) i = Some (Some q) ->
     (Qabs q * 20 <= inject_Z spread)%Q).
Proof.
  intros Hrun df spread.
  pose proof (ratings_within _ _ Hrun) as Hin.
  cbn [derived_columns DF.rating] in Hin.
  set (ratings := map Entry.rating entries) in *.
  subst df. cbn [derived_columns DF.rolling_rating DF.rating_change_rate].
  fold ratings. split.
  - intros i q Hcell.
    assert (Hi : (i < length ratings)%nat).
    { assert (Hlt : (i < length (rolling_window_mean 20 (as_float ratings)))%nat)
        by (apply nth_error_Some; congruence).
      unfold as_float in Hlt.
      now rewrite rolling_window_mean_length, length_map in Hlt. }
    apply (nth_error_nth _ _ None) in Hcell.
    rewrite rolling_window_mean_nth in Hcell
      by (unfold as_float; now rewrite length_map).
    unfold as_float in Hcell. rewrite window_at_map in Hcell.
    apply window_mean_ints_inv in Hcell. destruct Hcell as [Hpos Hq].
    pose proof (Zsum_bounds (Metrics.min_rating m) (Metrics.max_rating m)
                  (window_at 20 ratings i)
                  (fun z Hz => Hin z (window_at_incl _ _ _ _ Hz))) as Hb.
    apply (mean_bounds _ _ (Zsum (window_at 20 ratings i))
             (Z.of_nat (length (window_at 20 ratings i))) q);
      [lia|exact Hb|exact Hq].
  - intros i q Hcell.
    assert (Hi : (i < length ratings)%nat).
    { assert (Hlt : (i < length (rolling_window_mean 20 (diff ratings)))%nat)
        by (apply nth_error_Some; congruence).
      now rewrite rolling_window_mean_length, diff_length in Hlt. }
    assert (H20 : (20 <= i)%nat).
    { destruct (diff_shape ratings) as (tl & Hdiff & Hall).
      { intros Hnil. rewrite Hnil in Hi. simpl in Hi. lia. }
      pose proof (diff_length ratings) as Hdl. rewrite Hdiff in Hdl, Hcell.
      cbn [length] in Hdl.
      apply (rolling_defined_after_nan 20 tl i ltac:(lia) ltac:(lia) Hall).
      now rewrite (nth_error_nth _ _ None Hcell). }
    destruct (rolling_diff_cell ratings 20 i ltac:(lia) H20 Hi)
      as (q' & Hcell' & Hq).
    rewrite Hcell in Hcell'. injection Hcell' as <-.
    change (inject_Z (Z.of_nat 20)) with (inject_Z 20) in Hq.
    rewrite (Qabs_quotient _ 20 q ltac:(lia) Hq).
    rewrite <- Zle_Qle.
    pose proof (Hin (nth i ratings 0) (nth_In _ _ Hi)).
    assert (Hi' : (i - 20 < length ratings)%nat) by lia.
    pose proof (Hin (nth (i - 20) ratings 0) (nth_In _ _ Hi')).
    subst spread. lia.
Qed.

Lemma rolling_columns_within_range_witness :
  let df := frame_of_ratings wandering_ratings in
  exists m q r,
    calculate_progress_metrics df = inr m /\
    nth_error (DF.rolling_rating df) 24 = Some (Some q) /\
    nth_error (DF.rating_change_rate df) 24 = Some (Some r) /\
    (inject_Z (Metrics.min_rating m) <= q <= inject_Z (Metrics.max_rating m))%Q
    /\
    (Qabs r * 20
     <= inject_Z (Metrics.max_rating m - Metrics.min_rating m))%Q.
Proof.
  intros df.
  destruct (calculate_progress_metrics df) as [e|m] eqn:Hm;
    [vm_compute in Hm; discriminate Hm|].
  destruct (nth_error (DF.rolling_rating df) 24) as [[q|]|] eqn:Hq;
    [|vm_compute in Hq; discriminate Hq|vm_compute in Hq; discriminate Hq].
  destruct (nth_error (DF.rating_change_rate df) 24) as [[r|]|] eqn:Hr;
    [|vm_compute in Hr; discriminate Hr|vm_compute in Hr; discriminate Hr].
  exists m, q, r. repeat (split; [reflexivity|]).
  destruct (rolling_columns_within_range _ m Hm) as [Hrating Hrate].
  split; [exact (Hrating 24%nat q Hq)|exact (Hrate 24%nat r Hr)].
Defined.

(** ** The rating changes and the total gain *)

Lemma last_nth (first : Z) (rest : list Z) :
  last rest first = nth (length rest) (first :: rest) 0.
Proof.
  revert first. induction rest as [|y rest IH]; intros first; [reflexivity|].
  rewrite last_cons, IH. reflexivity.
Qed.

(** X14.  The rating changes of line 122, the first row's NaN apart, add
    up to the [total_gain] of the summary. *)
Theorem rating_changes_sum_to_gain (entries : list Entry.t) (m : Metrics.t) :
  calculate_progress_metrics (derived_columns entries) = inr m ->
  (Qsum (observed (DF.rating_change (derived_columns entries)))
   == inject_Z (Metrics.total_gain m))%Q.
Proof.
  intros Hrun.
  destruct (calculate_progress_metrics_inr _ m Hrun)
    as (first & rest & Hr & ->).
  cbn [derived_columns DF.rating DF.rating_change] in *.
  cbn [Metrics.total_gain Metrics.average_gain_per_game Metrics.total_games].
  rewrite Hr.
  assert (Hsum : (Qsum (observed (diff (first :: rest)))
                  == inject_Z (last rest first - first))%Q).
  { rewrite diff_steps by discriminate.
    cbn [observed]. rewrite observed_ints, Qsum_ints.
    pose proof (steps_telescope (first :: rest) 0 (length rest)
                  ltac:(simpl; lia)) as Htel.
    cbn [skipn Nat.add] in Htel.
    rewrite firstn_all2 in Htel by (rewrite steps_length; simpl; lia).
    rewrite Htel, last_nth. reflexivity. }
  exact Hsum.
Qed.

Lemma rating_changes_sum_to_gain_witness :
  exists m,
    calculate_progress_metrics (frame_of_ratings example_ratings) = inr m /\
    (Qsum (observed (DF.rating_change (frame_of_ratings example_ratings)))
     == inject_Z (Metrics.total_gain m))%Q.
Proof.
  eexists. split; [reflexivity|].
  exact (rating_changes_sum_to_gain
           (map (fun r => Entry.mk 0 r "600") example_ratings) _ eq_refl).
Defined.


(** * The program around the analysis *)

(** ** Logs *)

Lemma requested_app (l1 l2 : list event) :
  requested (l1 ++ l2) = requested l1 ++ requested l2.
Proof. unfold requested. apply flat_map_app. Qed.

Lemma pace_app (seconds : Z) (rested : bool) (l1 l2 : list event) :
  pace seconds rested (l1 ++ l2)
  = match pace seconds rested l1 with
    | Some rested' => pace seconds rested' l2
    | None => None
    end.
Proof.
  revert rested. induction l1 as [|e l1 IH]; intros rested; [reflexivity|].
  destruct e; cbn [app pace]; try apply IH.
  destruct rested; [apply IH|reflexivity].
Qed.


Lemma extends_refl (s : Run.state) : extends s s [].
Proof. split; [now rewrite app_nil_r|simpl; lia]. Qed.

Lemma extends_trans (s1 s2 s3 : Run.state) (t1 t2 : list event) :
  extends s1 s2 t1 -> extends s2 s3 t2 -> extends s1 s3 (t1 ++ t2).
Proof.
  intros [Hl1 Hs1] [Hl2 Hs2]. split.
  - now rewrite Hl2, Hl1, app_assoc.
  - rewrite Hs2, Hs1, requested_app, length_app. lia.
Qed.

Lemma keeps_pace_nil : keeps_pace [].
Proof. intros rested. exists rested. now split. Qed.

Lemma keeps_pace_app (l1 l2 : list event) :
  keeps_pace l1 -> keeps_pace l2 -> keeps_pace (l1 ++ l2).
Proof.
  intros H1 H2 rested.
  destruct (H1 rested) as (r1 & Hp1 & Hr1).
  destruct (H2 r1) as (r2 & Hp2 & Hr2).
  exists r2. rewrite pace_app, Hp1. split; [exact Hp2|].
  intros Hrested. apply Hr2. now apply Hr1.
Qed.

Lemma pace_prints (seconds : Z) (rested : bool) (prints : list message) :
  pace seconds rested (map Print prints) = Some rested.
Proof.
  induction prints as [|m prints IH]; [reflexivity|exact IH].
Qed.

Lemma requested_prints (prints : list message) :
  requested (map Print prints) = [].
Proof.
  induction prints as [|m prints IH]; [reflexivity|exact IH].
Qed.

Lemma keeps_pace_prints (prints : list message) :
  keeps_pace (map Print prints).
Proof.
  intros rested. exists rested. now rewrite pace_prints.
Qed.

(** A pause, a request and what is printed around them. *)
Lemma keeps_pace_request (before after : list message) (url : string) :
  keeps_pace (Sleep 2 :: map Print before ++ Get url :: map Print after).
Proof.
  intros rested. exists false. split; [|reflexivity].
  cbn [pace]. rewrite orb_true_r, pace_app, pace_prints. cbn [pace].
  apply pace_prints.
Qed.

Lemma keeps_pace_false (tail : list event) :
  keeps_pace tail -> pace 2 false tail = Some false.
Proof.
  intros H. destruct (H false) as (r & Hp & Hr). now rewrite Hp, Hr.
Qed.

Lemma subsequence_refl {A : Type} (l : list A) : subsequence l l.
Proof.
  induction l as [|x l IH]; [constructor|now constructor].
Qed.

Lemma subsequence_length {A : Type} (l l' : list A) :
  subsequence l l' -> (length l <= length l')%nat.
Proof.
  induction 1; simpl; lia.
Qed.

(** ** The archive loop *)

Section Loop.

Variable remote : nat -> string -> reply.
Variable user : nat -> bool.
Variable fromtimestamp : Z -> option Z.
Variable username : string.

(** One game: the entry is appended, or an exception other than an
    interrupt is raised and nothing is appended. *)
Lemma record_game_run (game : Raw.game) (s : Run.state) :
  match decode fromtimestamp username game with
  | Some entry =>
      Run.record_game fromtimestamp username game s
      = (Run.Returned tt,
         Run.mk_state (Run.served s) (Run.log s)
                      (Run.rating_history s ++ [entry]))
  | None =>
      exists e,
        Run.record_game fromtimestamp username game s = (Run.Raised e, s) /\
        e <> KeyboardInterrupt
  end.
Proof.
  unfold decode, Run.record_game, Run.bind, Run.subscript, Run.convert,
    Run.ret, Run.raise, Run.append.
  destruct game as [[end_time|] [[[white_name|] white_rating]|] black
                    [time_control|]];
    cbn; try (eexists; split; [reflexivity|discriminate]);
    destruct (fromtimestamp end_time) as [date|]; cbn;
    try (eexists; split; [reflexivity|discriminate]).
  - destruct (String.eqb (lower white_name) (lower username)).
    + destruct white_rating as [r|]; cbn;
        [reflexivity|eexists; split; [reflexivity|discriminate]].
    + destruct black as [[black_name [r|]]|]; cbn;
        [reflexivity|eexists; split; [reflexivity|discriminate]
        |eexists; split; [reflexivity|discriminate]].
  - destruct (String.eqb (lower white_name) (lower username)).
    + destruct white_rating as [r|]; cbn;
        eexists; (split; [reflexivity|discriminate]).
    + destruct black as [[black_name [r|]]|]; cbn;
        eexists; (split; [reflexivity|discriminate]).
Qed.

(** The games of a month: the entries before the first game that raises
    are appended; such a game ends the loop. *)
Lemma record_games_run (games : list Raw.game) (s : Run.state) :
  exists r,
    Run.record_games fromtimestamp username games s
    = (r, Run.mk_state (Run.served s) (Run.log s)
            (Run.rating_history s ++ recorded fromtimestamp username games))
    /\
    (r = Run.Returned tt \/
     exists e, r = Run.Raised e /\ e <> KeyboardInterrupt).
Proof.
  revert s. induction games as [|game rest IH]; intros s.
  - exists (Run.Returned tt). cbn. rewrite app_nil_r.
    destruct s; split; [reflexivity|now left].
  - cbn [Run.record_games recorded]. unfold Run.bind.
    pose proof (record_game_run game s) as Hgame.
    destruct (decode fromtimestamp username game) as [entry|].
    + rewrite Hgame.
      destruct (IH (Run.mk_state (Run.served s) (Run.log s)
                      (Run.rating_history s ++ [entry]))) as (r & Hrun & Hr).
      exists r. split; [|exact Hr].
      rewrite Hrun. cbn. now rewrite <- app_assoc.
    + destruct Hgame as (e & -> & He).
      exists (Run.Raised e). rewrite app_nil_r.
      destruct s; split; [reflexivity|right; now exists e].
Qed.

(** One archive: the turn of the loop returns whatever happens.  When
    the pause is interrupted no request is sent; otherwise one is. *)
Lemma fetch_archive_run (total i : nat) (archive_url : string)
  (s : Run.state) :
  exists s' tail,
    Run.fetch_archive remote user fromtimestamp username total i
      archive_url s
    = (Run.Returned tt, s') /\
    extends s s' tail /\ keeps_pace tail /\
    if user (length (Run.log s)) then
      tail = [Print AnalysisInterrupted] /\
      Run.rating_history s' = Run.rating_history s
    else
      (exists prints,
         tail
         = [Sleep 2; Print (FetchingArchive (i + 1) total); Get archive_url]
           ++ map Print prints /\
         (remote (Run.served s) archive_url = Interrupted ->
          prints = [AnalysisInterrupted])) /\
      Run.rating_history s'
      = Run.rating_history s
        ++ kept fromtimestamp username (remote (Run.served s) archive_url).
Proof.
  assert (Hshape : forall prints,
            keeps_pace
              ([Sleep 2; Print (FetchingArchive (i + 1) total);
                Get archive_url] ++ map Print prints)).
  { intros prints.
    apply (keeps_pace_request [FetchingArchive (i + 1) total] prints). }
  unfold Run.fetch_archive, Run.try_except, Run.archive_handler, Run.bind,
    Run.sleep.
  destruct (user (length (Run.log s))).
  { unfold Run.print, Run.emit. eexists. exists [Print AnalysisInterrupted].
    split; [reflexivity|]. cbn [Run.log Run.served Run.rating_history].
    split; [split; [reflexivity|cbn; lia]|].
    split; [apply (keeps_pace_prints [AnalysisInterrupted])|now split]. }
  unfold Run.print, Run.emit, Run.get, Run.json, Run.subscript,
    Run.ret, Run.raise, kept.
  cbn [Run.served Run.log Run.rating_history fst snd].
  assert (Hleaf : forall prints hist,
            extends s
              (Run.mk_state (S (Run.served s))
                 (Run.log s
                  ++ [Sleep 2; Print (FetchingArchive (i + 1) total);
                      Get archive_url] ++ map Print prints) hist)
              ([Sleep 2; Print (FetchingArchive (i + 1) total);
                Get archive_url] ++ map Print prints)).
  { intros prints hist. split; [reflexivity|].
    cbn [Run.served]. rewrite requested_app, requested_prints. cbn. lia. }
  destruct (remote (Run.served s) archive_url) as [| |code [body|]].
  - eexists. exists ([Sleep 2; Print (FetchingArchive (i + 1) total);
                      Get archive_url] ++ map Print [AnalysisError]).
    cbn. rewrite <- !app_assoc. cbn.
    split; [reflexivity|]. split; [apply (Hleaf [AnalysisError])|].
    split; [apply (Hshape [AnalysisError])|]. split; [|now rewrite app_nil_r].
    exists [AnalysisError]. split; [reflexivity|discriminate].
  - eexists. exists ([Sleep 2; Print (FetchingArchive (i + 1) total);
                      Get archive_url] ++ map Print [AnalysisInterrupted]).
    cbn. rewrite <- !app_assoc. cbn.
    split; [reflexivity|]. split; [apply (Hleaf [AnalysisInterrupted])|].
    split; [apply (Hshape [AnalysisInterrupted])|].
    split; [|now rewrite app_nil_r].
    exists [AnalysisInterrupted]. split; reflexivity.
  - cbn [fst snd]. destruct (Z.eqb_spec code 200) as [->|Hcode]; cbn.
    + destruct (Raw.games body) as [games|]; cbn.
      * match goal with
        | |- context [Run.record_games _ _ _ ?s0] =>
            destruct (record_games_run games s0) as (r & Hrun & Hr)
        end.
        rewrite Hrun. cbn in *.
        destruct Hr as [->|(e & -> & He)]; cbn.
        -- eexists.
           exists ([Sleep 2; Print (FetchingArchive (i + 1) total);
                    Get archive_url]
                   ++ map Print [FoundGames (length games) (i + 1)]).
           rewrite <- !app_assoc. cbn.
           split; [reflexivity|].
           split; [apply (Hleaf [FoundGames (length games) (i + 1)])|].
           split; [apply (Hshape [FoundGames (length games) (i + 1)])|].
           split; [|reflexivity].
           exists [FoundGames (length games) (i + 1)].
           split; [reflexivity|discriminate].
        -- destruct e; try (now destruct He); cbn;
             (eexists;
              exists ([Sleep 2; Print (FetchingArchive (i + 1) total);
                       Get archive_url]
                      ++ map Print [FoundGames (length games) (i + 1);
                                    AnalysisError]);
              rewrite <- !app_assoc; cbn;
              split; [reflexivity|];
              split; [apply (Hleaf [FoundGames (length games) (i + 1);
                                    AnalysisError])|];
              split; [apply (Hshape [FoundGames (length games) (i + 1);
                                     AnalysisError])|];
              split; [|reflexivity];
              exists [FoundGames (length games) (i + 1); AnalysisError];
              split; [reflexivity|discriminate]).
      * eexists. exists ([Sleep 2; Print (FetchingArchive (i + 1) total);
                          Get archive_url] ++ map Print [AnalysisError]).
        rewrite <- !app_assoc. cbn.
        split; [reflexivity|]. split; [apply (Hleaf [AnalysisError])|].
        split; [apply (Hshape [AnalysisError])|].
        split; [|now rewrite app_nil_r].
        exists [AnalysisError]. split; [reflexivity|discriminate].
    + eexists. exists ([Sleep 2; Print (FetchingArchive (i + 1) total);
                        Get archive_url]
                       ++ map Print [ArchiveError archive_url code]).
      rewrite <- !app_assoc. cbn.
      split; [reflexivity|].
      split; [apply (Hleaf [ArchiveError archive_url code])|].
      split; [apply (Hshape [ArchiveError archive_url code])|].
      split; [|now rewrite app_nil_r].
      exists [ArchiveError archive_url code].
      split; [reflexivity|discriminate].
  - cbn [fst snd]. destruct (Z.eqb_spec code 200) as [->|Hcode]; cbn.
    + eexists. exists ([Sleep 2; Print (FetchingArchive (i + 1) total);
                        Get archive_url] ++ map Print [AnalysisError]).
      rewrite <- !app_assoc. cbn.
      split; [reflexivity|]. split; [apply (Hleaf [AnalysisError])|].
      split; [apply (Hshape [AnalysisError])|].
      split; [|now rewrite app_nil_r].
      exists [AnalysisError]. split; [reflexivity|discriminate].
    + eexists. exists ([Sleep 2; Print (FetchingArchive (i + 1) total);
                        Get archive_url]
                       ++ map Print [ArchiveError archive_url code]).
      rewrite <- !app_assoc. cbn.
      split; [reflexivity|].
      split; [apply (Hleaf [ArchiveError archive_url code])|].
      split; [apply (Hshape [ArchiveError archive_url code])|].
      split; [|now rewrite app_nil_r].
      exists [ArchiveError archive_url code].
      split; [reflexivity|discriminate].
Qed.

(** The loop: it returns, whatever the replies and the user do.  The
    archives requested are some of the archives, in order; they are all
    of them when no pause is interrupted. *)
Lemma fetch_archives_run (archives : list string) :
  forall (total i : nat) (s : Run.state),
  exists s' tail,
    Run.fetch_archives remote user fromtimestamp username total i archives s
    = (Run.Returned tt, s') /\
    extends s s' tail /\ keeps_pace tail /\
    subsequence (requested tail) archives /\
    ((forall n, user n = false) ->
     requested tail = archives /\
     Run.rating_history s'
     = Run.rating_history s
       ++ gathered remote fromtimestamp username (Run.served s) archives).
Proof.
  induction archives as [|archive_url rest IH]; intros total i s.
  - exists s, []. cbn. rewrite app_nil_r.
    split; [reflexivity|]. split; [apply extends_refl|].
    split; [apply keeps_pace_nil|]. split; [constructor|now split].
  - cbn [Run.fetch_archives gathered]. unfold Run.bind.
    destruct (fetch_archive_run total i archive_url s)
      as (s1 & tail1 & Hrun & Hext1 & Hpace1 & Hturn).
    rewrite Hrun.
    destruct (IH total (S i) s1)
      as (s2 & tail2 & Hrest & Hext2 & Hpace2 & Hsub & Hquiet).
    exists s2, (tail1 ++ tail2).
    split; [exact Hrest|].
    split; [now apply (extends_trans s s1 s2)|].
    split; [now apply keeps_pace_app|].
    rewrite requested_app.
    destruct (user (length (Run.log s))) eqn:Huser.
    + destruct Hturn as [-> Hhist1]. cbn [requested flat_map app].
      split; [now constructor|].
      intros Hnever. rewrite Hnever in Huser. discriminate Huser.
    + destruct Hturn as [(prints & -> & _) Hhist1].
      rewrite requested_app, requested_prints. cbn [requested flat_map app].
      split; [now constructor|].
      intros Hnever. destruct (Hquiet Hnever) as [Hreq Hhist2].
      split; [now rewrite Hreq|].
      rewrite Hhist2, Hhist1.
      destruct Hext1 as [_ Hserved1].
      rewrite requested_app, requested_prints in Hserved1.
      cbn in Hserved1. replace (Run.served s1) with (S (Run.served s)) by lia.
      now rewrite app_assoc.
Qed.

End Loop.

(** ** get_player_stats *)

Ltac leaf :=
  cbn; rewrite <- ?app_assoc; cbn;
  split; [reflexivity|];
  split; [split; [reflexivity|cbn; lia]|];
  split; [reflexivity|];
  split; [intros rested; exists false; (split; [|reflexivity]);
          cbn [pace]; rewrite orb_true_r; reflexivity|].

Lemma get_player_stats_run (remote : nat -> string -> reply)
  (user : nat -> bool) (flag : bool) (username : string) (s : Run.state) :
  let first := remote (Run.served s) (Run.stats_url (lower username)) in
  let second :=
    remote (S (Run.served s)) (Run.games_url (lower username)) in
  let hurry := user (length (Run.log s)) in
  let hurry' := user (length (Run.log s) + 3)%nat in
  exists r s' tail,
    Run.get_player_stats remote user flag username s = (r, s') /\
    extends s s' tail /\
    Run.rating_history s' = Run.rating_history s /\
    keeps_pace tail /\
    ((hurry = false /\ hurry' = false /\
      exists stats body archives,
        first = Response 200 (Some stats) /\
        second = Response 200 (Some body) /\
        Raw.archives body = Some archives /\
        r = Run.Returned (Some stats, Some archives) /\
        requested tail
        = [Run.stats_url (lower username); Run.games_url (lower username)])
     \/
     (r = Run.Returned (None, None) /\
      hurry = false /\ first <> Interrupted /\
      ((forall stats, first <> Response 200 (Some stats)) /\
       requested tail = [Run.stats_url (lower username)]
       \/
       (exists stats, first = Response 200 (Some stats)) /\
       hurry' = false /\ second <> Interrupted /\
       (forall body, second <> Response 200 (Some body)) /\
       requested tail
       = [Run.stats_url (lower username); Run.games_url (lower username)]))
     \/
     (r = Run.Raised KeyboardInterrupt /\
      (hurry = true /\ requested tail = []
       \/
       hurry = false /\ first = Interrupted /\
       requested tail = [Run.stats_url (lower username)]
       \/
       hurry = false /\ (exists stats, first = Response 200 (Some stats)) /\
       hurry' = true /\
       requested tail = [Run.stats_url (lower username)]
       \/
       hurry = false /\ (exists stats, first = Response 200 (Some stats)) /\
       hurry' = false /\ second = Interrupted /\
       requested tail
       = [Run.stats_url (lower username); Run.games_url (lower username)]))
     \/
     (r = Run.Raised (KeyError "archives") /\
      hurry = false /\ hurry' = false /\
      (exists stats, first = Response 200 (Some stats)) /\
      (exists body,
         second = Response 200 (Some body) /\ Raw.archives body = None) /\
      requested tail
      = [Run.stats_url (lower username); Run.games_url (lower username)])).
Proof.
  intros first second hurry hurry'. subst first second hurry hurry'.
  unfold Run.get_player_stats, Run.try_except, Run.stats_handler, Run.bind,
    Run.sleep.
  destruct (user (length (Run.log s))) eqn:Hhurry.
  { exists (Run.Raised KeyboardInterrupt), s, [].
    split; [reflexivity|]. split; [apply extends_refl|].
    split; [reflexivity|]. split; [apply keeps_pace_nil|].
    right. right. left. split; [reflexivity|]. left. now split. }
  unfold Run.print, Run.emit, Run.get, Run.json, Run.subscript,
    Run.ret, Run.raise, extends.
  cbn [Run.served Run.log Run.rating_history fst snd].
  destruct (remote (Run.served s) (Run.stats_url (lower username)))
    as [| |code [stats|]] eqn:Hfirst; cbn [fst snd].
  - do 2 eexists.
    exists [Sleep 2; Get (Run.stats_url (lower username)); Print FetchError].
    leaf.
    right. left. split; [reflexivity|]. split; [reflexivity|].
    split; [discriminate|].
    left. split; [discriminate|reflexivity].
  - do 2 eexists.
    exists [Sleep 2; Get (Run.stats_url (lower username))].
    leaf.
    right. right. left. split; [reflexivity|]. right. left. now split.
  - destruct (Z.eqb_spec code 200) as [->|Hcode]; cbn.
    + rewrite !length_app. cbn [length].
      replace (length (Run.log s) + 1 + 1 + 1)%nat
        with (length (Run.log s) + 3)%nat by lia.
      destruct (user (length (Run.log s) + 3)%nat) eqn:Hhurry'.
      { do 2 eexists.
        exists [Sleep 2; Get (Run.stats_url (lower username));
                Print (StatsStatus 200)].
        leaf.
        right. right. left. split; [reflexivity|]. right. right. left.
        split; [reflexivity|]. split; [now exists stats|]. now split. }
      cbn.
      destruct (remote (S (Run.served s)) (Run.games_url (lower username)))
        as [| |code2 [body|]] eqn:Hsecond; cbn [fst snd].
      * do 2 eexists.
        exists [Sleep 2; Get (Run.stats_url (lower username));
                Print (StatsStatus 200); Sleep 2;
                Get (Run.games_url (lower username)); Print FetchError].
        leaf.
        right. left. split; [reflexivity|]. split; [reflexivity|].
        split; [discriminate|].
        right. split; [now exists stats|]. split; [reflexivity|].
        split; [discriminate|]. split; [discriminate|reflexivity].
      * do 2 eexists.
        exists [Sleep 2; Get (Run.stats_url (lower username));
                Print (StatsStatus 200); Sleep 2;
                Get (Run.games_url (lower username))].
        leaf.
        right. right. left. split; [reflexivity|]. right. right. right.
        split; [reflexivity|]. split; [now exists stats|]. now split.
      * destruct (Z.eqb_spec code2 200) as [->|Hcode2]; cbn.
        -- destruct (Raw.archives body) as [archives|] eqn:Harchives; cbn.
           ++ do 2 eexists.
              exists [Sleep 2; Get (Run.stats_url (lower username));
                      Print (StatsStatus 200); Sleep 2;
                      Get (Run.games_url (lower username));
                      Print (ArchivesStatus 200)].
              leaf.
              left. split; [reflexivity|]. split; [reflexivity|].
              exists stats, body, archives. repeat split; assumption.
           ++ do 2 eexists.
              exists [Sleep 2; Get (Run.stats_url (lower username));
                      Print (StatsStatus 200); Sleep 2;
                      Get (Run.games_url (lower username));
                      Print (ArchivesStatus 200)].
              leaf.
              right. right. right. split; [reflexivity|].
              split; [reflexivity|]. split; [reflexivity|].
              split; [now exists stats|]. split; [|reflexivity].
              exists body. now split.
        -- do 2 eexists.
           exists [Sleep 2; Get (Run.stats_url (lower username));
                   Print (StatsStatus 200); Sleep 2;
                   Get (Run.games_url (lower username));
                   Print (ArchivesStatus code2);
                   Print (ArchivesError code2)].
           leaf.
           right. left. split; [reflexivity|]. split; [reflexivity|].
           split; [discriminate|].
           right. split; [now exists stats|]. split; [reflexivity|].
           split; [discriminate|].
           split; [|reflexivity]. intros body' Heq. congruence.
      * destruct (Z.eqb_spec code2 200) as [->|Hcode2]; cbn.
        -- destruct flag; cbn.
           ++ do 2 eexists.
              exists [Sleep 2; Get (Run.stats_url (lower username));
                      Print (StatsStatus 200); Sleep 2;
                      Get (Run.games_url (lower username));
                      Print (ArchivesStatus 200); Print FetchError].
              leaf.
              right. left. split; [reflexivity|]. split; [reflexivity|].
              split; [discriminate|].
              right. split; [now exists stats|]. split; [reflexivity|].
              split; [discriminate|]. split; [discriminate|reflexivity].
           ++ do 2 eexists.
              exists [Sleep 2; Get (Run.stats_url (lower username));
                      Print (StatsStatus 200); Sleep 2;
                      Get (Run.games_url (lower username));
                      Print (ArchivesStatus 200); Print ParsingError].
              leaf.
              right. left. split; [reflexivity|]. split; [reflexivity|].
              split; [discriminate|].
              right. split; [now exists stats|]. split; [reflexivity|].
              split; [discriminate|]. split; [discriminate|reflexivity].
        -- do 2 eexists.
           exists [Sleep 2; Get (Run.stats_url (lower username));
                   Print (StatsStatus 200); Sleep 2;
                   Get (Run.games_url (lower username));
                   Print (ArchivesStatus code2);
                   Print (ArchivesError code2)].
           leaf.
           right. left. split; [reflexivity|]. split; [reflexivity|].
           split; [discriminate|].
           right. split; [now exists stats|]. split; [reflexivity|].
           split; [discriminate|]. split; [discriminate|reflexivity].
    + do 2 eexists.
      exists [Sleep 2; Get (Run.stats_url (lower username));
              Print (StatsStatus code); Print (StatsError code)].
      leaf.
      right. left. split; [reflexivity|]. split; [reflexivity|].
      split; [discriminate|].
      left. split; [|reflexivity]. intros stats' Heq. congruence.
  - destruct (Z.eqb_spec code 200) as [->|Hcode]; cbn.
    + destruct flag; cbn.
      * do 2 eexists.
        exists [Sleep 2; Get (Run.stats_url (lower username));
                Print (StatsStatus 200); Print FetchError].
        leaf.
        right. left. split; [reflexivity|]. split; [reflexivity|].
        split; [discriminate|].
        left. split; [discriminate|reflexivity].
      * do 2 eexists.
        exists [Sleep 2; Get (Run.stats_url (lower username));
                Print (StatsStatus 200); Print ParsingError].
        leaf.
        right. left. split; [reflexivity|]. split; [reflexivity|].
        split; [discriminate|].
        left. split; [discriminate|reflexivity].
    + do 2 eexists.
      exists [Sleep 2; Get (Run.stats_url (lower username));
              Print (StatsStatus code); Print (StatsError code)].
      leaf.
      right. left. split; [reflexivity|]. split; [reflexivity|].
      split; [discriminate|].
      left. split; [discriminate|reflexivity].
Qed.

(** ** analyze_rating_progression *)

Lemma recent_archives_length {A : Type} (max_archives : Z)
  (archives : list A) :
  0 < max_archives ->
  (length (recent_archives max_archives archives)
   <= Z.to_nat max_archives)%nat.
Proof.
  intros Hpos. unfold recent_archives, slice_from.
  destruct (Z.eqb_spec max_archives 0); [lia|].
  destruct (Z.ltb_spec (- max_archives) 0); [|lia].
  rewrite length_skipn. lia.
Qed.

Lemma analyze_rating_progression_run (remote : nat -> string -> reply)
  (user : nat -> bool) (flag : bool) (fromtimestamp : Z -> option Z)
  (username : string) (max_archives : Z) (s : Run.state) :
  let first := remote (Run.served s) (Run.stats_url (lower username)) in
  let second :=
    remote (S (Run.served s)) (Run.games_url (lower username)) in
  let fetched stats body archives :=
    first = Response 200 (Some stats) /\
    second = Response 200 (Some body) /\
    Raw.archives body = Some archives /\
    Raw.truthy stats = true /\ archives <> [] /\
    user (length (Run.log s)) = false /\
    user (length (Run.log s) + 3)%nat = false in
  exists r s' tail,
    Run.analyze_rating_progression remote user flag fromtimestamp username
      max_archives s = (r, s') /\
    extends s s' tail /\
    keeps_pace tail /\
    ((exists stats body archives,
        fetched stats body archives /\
        let recent := recent_archives max_archives archives in
        (exists rest,
           requested tail
           = Run.stats_url (lower username)
             :: Run.games_url (lower username) :: rest /\
           subsequence rest recent) /\
        r = Run.Returned
              (match Run.rating_history s' with
               | [] => None
               | _ :: _ =>
                   Some (derived_columns
                           (sort_values (Run.rating_history s')))
               end) /\
        ((forall n, user n = false) ->
         requested tail
         = Run.stats_url (lower username)
           :: Run.games_url (lower username) :: recent /\
         Run.rating_history s'
         = gathered remote fromtimestamp username (S (S (Run.served s)))
                    recent))
     \/
     ((r = Run.Returned None \/ r = Run.Raised KeyboardInterrupt \/
       r = Run.Raised (KeyError "archives")) /\
      Run.rating_history s' = Run.rating_history s /\
      (requested tail = [] \/
       requested tail = [Run.stats_url (lower username)] \/
       requested tail
       = [Run.stats_url (lower username); Run.games_url (lower username)]) /\
      ~ (exists stats body archives, fetched stats body archives))).
Proof.
  intros first second fetched.
  unfold Run.analyze_rating_progression, Run.bind.
  destruct (get_player_stats_run remote user flag username s)
    as (r0 & s0 & tail0 & Hrun & Hext & Hhist & Hpace & Hcases).
  fold first second in Hcases. rewrite Hrun.
  destruct Hcases
    as [(Hh & Hh' & stats & body & archives & Hfirst & Hsecond & Harch & ->
         & Hreq)
       |[(-> & Hh & Hni & Hcase)
        |[(-> & Hcase)|(-> & Hh & Hh' & Hstats & Hbody & Hreq)]]].
  - (* both fetched *)
    cbv iota beta. unfold Run.nothing_fetched.
    destruct (Raw.truthy stats) eqn:Htruthy; cbn [negb orb].
    + destruct archives as [|url urls] eqn:Hlist; cbn [negb].
      * exists (Run.Returned None), s0, tail0.
        split; [reflexivity|]. split; [exact Hext|]. split; [exact Hpace|].
        right. split; [now left|]. split; [exact Hhist|].
        split; [right; now right|].
        intros (stats' & body' & archives' & _ & Hsecond' & Harch' & _ & Hne
                & _).
        rewrite Hsecond in Hsecond'. injection Hsecond' as <-.
        rewrite Harch in Harch'. injection Harch' as <-. now apply Hne.
      * rewrite <- Hlist in *.
        assert (Hne : archives <> []) by (rewrite Hlist; discriminate).
        clear Hlist.
        set (recent := recent_archives max_archives archives).
        unfold Run.print, Run.emit, Run.new_rating_history,
          Run.read_rating_history.
        match goal with
        | |- context [Run.fetch_archives _ _ _ _ _ _ _ ?s1] =>
            destruct (fetch_archives_run remote user fromtimestamp username
                        recent (length recent) 0 s1)
              as (s2 & tail2 & Hloop & Hext2 & Hpace2 & Hsub & Hquiet)
        end.
        rewrite Hloop. destruct s2 as [served2 log2 history2].
        cbn [Run.served Run.log Run.rating_history] in *.
        destruct Hext as [Hlog0 Hserved0]. destruct Hext2 as [Hlog2 Hserved2].
        cbn [Run.served Run.log Run.rating_history] in *.
        assert (Hs0 : Run.served s0 = S (S (Run.served s)))
          by (rewrite Hserved0, Hreq; simpl; lia).
        set (closing := match history2 with
                        | [] => [NoRatingHistory]
                        | _ :: _ => [AnalyzingGames (length history2)]
                        end).
        exists (Run.Returned
                  (match history2 with
                   | [] => None
                   | _ :: _ => Some (derived_columns (sort_values history2))
                   end)).
        exists (Run.mk_state served2 (log2 ++ map Print closing) history2).
        exists (tail0 ++ [Print (AnalyzingArchives (length recent))]
                ++ tail2 ++ map Print closing).
        split.
        { subst closing. destruct history2; reflexivity. }
        split.
        { split; cbn [Run.served Run.log].
          - rewrite Hlog2, Hlog0. now rewrite <- !app_assoc.
          - rewrite Hserved2.
            rewrite Hserved0, !requested_app, requested_prints, !length_app.
            simpl. lia. }
        split.
        { apply keeps_pace_app; [exact Hpace|].
          apply (keeps_pace_app [Print (AnalyzingArchives (length recent))]);
            [apply (keeps_pace_prints [AnalyzingArchives (length recent)])|].
          apply keeps_pace_app; [exact Hpace2|apply keeps_pace_prints]. }
        left. exists stats, body, archives.
        split; [repeat split; assumption|].
        assert (Hall : requested
                         (tail0 ++ [Print (AnalyzingArchives (length recent))]
                          ++ tail2 ++ map Print closing)
                       = Run.stats_url (lower username)
                         :: Run.games_url (lower username)
                         :: requested tail2).
        { rewrite !requested_app, Hreq, requested_prints.
          cbn. now rewrite app_nil_r. }
        cbn [Run.rating_history].
        split; [exists (requested tail2); now split|].
        split; [reflexivity|].
        intros Hnever. destruct (Hquiet Hnever) as [Hreq2 Hhist2].
        rewrite Hall, Hreq2. split; [reflexivity|].
        rewrite Hhist2, Hs0. reflexivity.
    + exists (Run.Returned None), s0, tail0.
      split; [reflexivity|]. split; [exact Hext|]. split; [exact Hpace|].
      right. split; [now left|]. split; [exact Hhist|].
      split; [right; now right|].
      intros (stats' & ? & ? & Hfirst' & _ & _ & Htruthy' & _).
      rewrite Hfirst in Hfirst'. injection Hfirst' as <-. congruence.
  - exists (Run.Returned None), s0, tail0.
    split; [reflexivity|]. split; [exact Hext|]. split; [exact Hpace|].
    right. split; [now left|]. split; [exact Hhist|].
    split.
    + destruct Hcase as [[_ Hreq]|(_ & _ & _ & _ & Hreq)];
        [right; now left|right; now right].
    + intros (stats' & body' & ? & Hfirst' & Hsecond' & _).
      destruct Hcase as [[Hnone _]|(_ & _ & _ & Hnone & _)];
        [now destruct (Hnone stats')|now destruct (Hnone body')].
  - exists (Run.Raised KeyboardInterrupt), s0, tail0.
    split; [reflexivity|]. split; [exact Hext|]. split; [exact Hpace|].
    right. split; [right; now left|]. split; [exact Hhist|].
    split.
    + destruct Hcase as [[_ Hreq]|[(_ & _ & Hreq)|[(_ & _ & _ & Hreq)
                                                  |(_ & _ & _ & _ & Hreq)]]];
        [now left|right; now left|right; now left|right; now right].
    + intros (stats' & body' & ? & Hfirst' & Hsecond' & _ & _ & _ & Hu & Hu').
      destruct Hcase as [[Hh _]|[(_ & Hint & _)|[(_ & _ & Hh' & _)
                                                |(_ & _ & _ & Hint & _)]]];
        congruence.
  - exists (Run.Raised (KeyError "archives")), s0, tail0.
    split; [reflexivity|]. split; [exact Hext|]. split; [exact Hpace|].
    right. split; [right; now right|]. split; [exact Hhist|].
    split; [right; now right|].
    intros (? & body' & archives' & _ & Hsecond' & Harch' & _).
    destruct Hbody as (body & Hsecond & Harch).
    rewrite Hsecond in Hsecond'. injection Hsecond' as <-. congruence.
Qed.

(** ** verify_username and main *)

Lemma verify_username_run (remote : nat -> string -> reply)
  (username : string) (s : Run.state) :
  let profile := remote (Run.served s) (Run.profile_url username) in
  exists r prints,
    Run.verify_username remote username s
    = (r, Run.mk_state (S (Run.served s))
            (Run.log s ++ Get (Run.profile_url username) :: map Print prints)
            (Run.rating_history s)) /\
    match profile with
    | ConnectionFails => r = Run.Raised RequestException /\ prints = []
    | Interrupted => r = Run.Raised KeyboardInterrupt /\ prints = []
    | Response code json =>
        if code =? 200 then
          match json with
          | Some data =>
              r = Run.Returned true /\
              prints = [ProfileURL (Run.profile_url username);
                        StatusCode code;
                        PlayerFound (Raw.profile_name data)]
          | None =>
              r = Run.Raised JSONDecodeError /\
              prints = [ProfileURL (Run.profile_url username);
                        StatusCode code]
          end
        else
          r = Run.Returned false /\
          prints = [ProfileURL (Run.profile_url username);
                    StatusCode code; PlayerNotFound code]
    end.
Proof.
  intros profile. subst profile.
  unfold Run.verify_username, Run.bind, Run.print, Run.emit, Run.get,
    Run.json, Run.ret, Run.raise.
  cbn [Run.served Run.log Run.rating_history fst snd].
  destruct (remote (Run.served s) (Run.profile_url username))
    as [| |code [data|]]; cbn [fst snd].
  - exists (Run.Raised RequestException), []. now split.
  - exists (Run.Raised KeyboardInterrupt), []. now split.
  - destruct (code =? 200); cbn.
    + eexists. eexists. split; [|split; reflexivity].
      rewrite <- !app_assoc. reflexivity.
    + eexists. eexists. split; [|split; reflexivity].
      rewrite <- !app_assoc. reflexivity.
  - destruct (code =? 200); cbn.
    + eexists. eexists. split; [|split; reflexivity].
      rewrite <- !app_assoc. reflexivity.
    + eexists. eexists. split; [|split; reflexivity].
      rewrite <- !app_assoc. reflexivity.
Qed.

Lemma print_plateaus_run (plateaus : list Plateau.t) (s : Run.state) :
  Run.print_plateaus plateaus s
  = (Run.Returned tt,
     Run.mk_state (Run.served s)
       (Run.log s ++ map (fun p => Print (PlateauLine p)) plateaus)
       (Run.rating_history s)).
Proof.
  revert s. induction plateaus as [|p rest IH]; intros s.
  - cbn. rewrite app_nil_r. now destruct s.
  - cbn [Run.print_plateaus map]. unfold Run.bind, Run.print, Run.emit.
    rewrite IH. cbn. now rewrite <- app_assoc.
Qed.

Lemma extends_tail (s s' : Run.state) (tail : list event) :
  extends s s' tail ->
  skipn (length (Run.log s)) (Run.log s') = tail.
Proof.
  intros [Hlog _]. rewrite Hlog, skipn_app, skipn_all, Nat.sub_diag.
  reflexivity.
Qed.

(** ** What the program does with the remote service *)





(** ** The analysis of archives that are served whole *)

Lemma decode_of_game (fromtimestamp : Z -> option Z) (dates : Z -> Z)
  (username : string) (g : Game.t) :
  fromtimestamp (Game.end_time g) = Some (dates (Game.end_time g)) ->
  decode fromtimestamp username (Raw.of_game g)
  = Some (entry_of dates username g).
Proof.
  intros Hdate.
  unfold decode, Raw.of_game, entry_of, rating_of.
  cbn [Raw.end_time Raw.white Raw.black Raw.time_control Raw.username
       Raw.rating].
  rewrite Hdate.
  now destruct (String.eqb (lower (Player.username (Game.white g)))
                           (lower username)).
Qed.

Lemma recorded_of_games (fromtimestamp : Z -> option Z) (dates : Z -> Z)
  (username : string) (games : list Game.t) (rest : list Raw.game) :
  (forall g, In g games ->
             fromtimestamp (Game.end_time g)
             = Some (dates (Game.end_time g))) ->
  match rest with
  | [] => True
  | bad :: _ => decode fromtimestamp username bad = None
  end ->
  recorded fromtimestamp username (map Raw.of_game games ++ rest)
  = map (entry_of dates username) games.
Proof.
  intros Hdates Hrest. induction games as [|g games IH].
  - destruct rest as [|bad rest]; [reflexivity|].
    cbn [map app recorded]. now rewrite Hrest.
  - cbn [map app recorded].
    rewrite (decode_of_game fromtimestamp dates), IH;
      [reflexivity| |]; intros; apply Hdates; simpl; auto.
Qed.

Lemma gathered_whole (remote : nat -> string -> reply)
  (fromtimestamp : Z -> option Z) (dates : Z -> Z) (username : string)
  (recent : list string) :
  forall (n : nat) (months : list (list Game.t)),
    length months = length recent ->
    (forall k url games,
       nth_error recent k = Some url -> nth_error months k = Some games ->
       exists body,
         remote (n + k)%nat url = Response 200 (Some body) /\
         Raw.games body = Some (map Raw.of_game games)) ->
    (forall games g,
       In games months -> In g games ->
       fromtimestamp (Game.end_time g) = Some (dates (Game.end_time g))) ->
    gathered remote fromtimestamp username n recent
    = rating_history dates username months.
Proof.
  induction recent as [|url recent IH]; intros n months Hlen Hall Hdates.
  - destruct months; [reflexivity|discriminate].
  - destruct months as [|games months]; [discriminate|].
    cbn [gathered]. unfold rating_history. cbn [flat_map].
    destruct (Hall 0%nat url games eq_refl eq_refl) as (body & Hreply & Hgames).
    rewrite Nat.add_0_r in Hreply. rewrite Hreply. cbn [kept Z.eqb].
    change (200 =? 200) with true. cbv iota. rewrite Hgames.
    rewrite <- (app_nil_r (map Raw.of_game games)).
    rewrite (recorded_of_games fromtimestamp dates _ games []);
      [|intros g Hg; apply (Hdates games g); simpl; auto|exact I].
    f_equal. apply IH; [now injection Hlen| |].
    + intros k url' games' Hk Hk'.
      destruct (Hall (S k) url' games' Hk Hk') as (body' & Hreply' & Hgames').
      exists body'. split; [|exact Hgames'].
      now rewrite <- Nat.add_succ_comm in Hreply'.
    + intros games' g Hin Hg. apply (Hdates games' g); simpl; auto.
Qed.

(** X18.  When no pause is interrupted, every archive the limit keeps is
    served with status 200 and games that have all their keys, and every
    end time of these games converts to a date, the program's
    [analyze_rating_progression] returns what the analysis of these
    months gives: the frame, or [None], of the function on game lists the
    other statements are about. *)
Theorem analysis_of_whole_archives (remote : nat -> string -> reply)
  (user : nat -> bool) (flag : bool) (fromtimestamp : Z -> option Z)
  (dates : Z -> Z) (username : string) (max_archives : Z)
  (stats body : Raw.body) (archives : list string)
  (months : list (list Game.t)) :
  (forall n, user n = false) ->
  remote 0%nat (Run.stats_url (lower username)) = Response 200 (Some stats) ->
  remote 1%nat (Run.games_url (lower username)) = Response 200 (Some body) ->
  Raw.archives body = Some archives ->
  Raw.truthy stats = true -> archives <> [] ->
  length months = length (recent_archives max_archives archives) ->
  (forall k url games,
     nth_error (recent_archives max_archives archives) k = Some url ->
     nth_error months k = Some games ->
     exists month,
       remote (2 + k)%nat url = Response 200 (Some month) /\
       Raw.games month = Some (map Raw.of_game games)) ->
  (forall games g,
     In games months -> In g games ->
     fromtimestamp (Game.end_time g) = Some (dates (Game.end_time g))) ->
  fst (Run.analyze_rating_progression remote user flag fromtimestamp username
         max_archives Run.start)
  = Run.Returned (analyze_rating_progression dates username months).
Proof.
  intros Hpatient Hfirst Hsecond Harch Htruthy Hne Hlen Hall Hdates.
  destruct (analyze_rating_progression_run remote user flag fromtimestamp
              username max_archives Run.start)
    as (r & s' & tail & Hrun & _ & _ & Hcases).
  cbn [Run.start Run.served Run.log length Nat.add] in *.
  rewrite Hrun. cbn [fst].
  destruct Hcases
    as [(stats' & body' & archives' & (Hfirst' & Hsecond' & Harch' & _)
         & _ & -> & Hgather)
       |(_ & _ & _ & Hnot)].
  - rewrite Hsecond in Hsecond'. injection Hsecond' as <-.
    rewrite Harch in Harch'. injection Harch' as <-.
    destruct (Hgather Hpatient) as [_ ->].
    rewrite (gathered_whole remote fromtimestamp dates username
               (recent_archives max_archives archives) 2 months Hlen Hall
               Hdates).
    unfold analyze_rating_progression.
    now destruct (rating_history dates username months).
  - destruct Hnot. exists stats, body, archives.
    repeat (split; [assumption|]). split; apply Hpatient.
Qed.

Lemma analysis_of_whole_archives_witness :
  fst (Run.analyze_rating_progression example_remote patient true
         (fun t => Some t) "MagnusCarlsen" 1 Run.start)
  = Run.Returned
      (analyze_rating_progression (fun t => t) "MagnusCarlsen" [busy_month]).
Proof.
  apply (analysis_of_whole_archives example_remote patient true
           (fun t => Some t) (fun t => t)
           "MagnusCarlsen" 1 example_stats
           (Raw.mk_body (Some example_archives) None None [])
           example_archives [busy_month]
           (fun n => eq_refl)
           eq_refl eq_refl eq_refl eq_refl ltac:(discriminate) eq_refl).
  - intros k url games Hurl Hgames.
    destruct k as [|k]; [|destruct k; discriminate Hgames].
    injection Hurl as <-. injection Hgames as <-.
    eexists. split; reflexivity.
  - intros games g _ _. reflexivity.
Defined.

(** ** main *)

Lemma bind_run {A B : Type} (m : Run.M A) (k : A -> Run.M B)
  (s : Run.state) :
  Run.bind m k s
  = match m s with
    | (Run.Returned a, s') => k a s'
    | (Run.Raised e, s') => (Run.Raised e, s')
    end.
Proof. reflexivity. Qed.

Lemma requested_plateau_lines (plateaus : list Plateau.t) :
  requested (map (fun p => Print (PlateauLine p)) plateaus) = [].
Proof.
  induction plateaus as [|p rest IH]; [reflexivity|exact IH].
Qed.

Lemma derived_metrics_inr (entries : list Entry.t) :
  entries <> [] ->
  exists m, calculate_progress_metrics (derived_columns entries) = inr m.
Proof.
  intros Hne. unfold calculate_progress_metrics.
  cbn [derived_columns DF.rating].
  destruct entries as [|e entries]; [congruence|].
  cbn [map]. eexists. reflexivity.
Qed.

(** What [main] does once the name is verified and the analysis has
    returned. *)
Lemma report_run (df : option DF.t) (s : Run.state) :
  (forall frame, df = Some frame ->
     exists entries, entries <> [] /\ frame = derived_columns entries) ->
  exists closing,
    match df with
    | Some df =>
        Run.bind (Run.lift (calculate_progress_metrics df)) (fun metrics =>
        Run.bind (Run.print (OverallMetrics metrics)) (fun _ =>
        Run.bind (Run.lift (find_rating_plateaus df 30 3)) (fun found =>
        let (plateaus, df) := found in
        Run.bind (Run.print RatingPlateaus) (fun _ =>
        Run.bind (Run.print_plateaus plateaus) (fun _ =>
        Run.plot_rating_progression df)))))
    | None => Run.print FailedToFetch
    end s
    = (Run.Returned tt,
       Run.mk_state (Run.served s) (Run.log s ++ closing)
                    (Run.rating_history s)) /\
    requested closing = [] /\
    match df with
    | Some df =>
        exists m ps df',
          calculate_progress_metrics df = inr m /\
          find_rating_plateaus df 30 3 = inr (ps, df') /\
          closing
          = Print (OverallMetrics m) :: Print RatingPlateaus
            :: map (fun p => Print (PlateauLine p)) ps
            ++ [Plot (DF.games_played df') (DF.rating df')
                     (DF.rolling_rating df') (DF.rating_change_rate df')]
    | None => closing = [Print FailedToFetch]
    end.
Proof.
  intros Hdf. destruct df as [df|].
  - destruct (Hdf df eq_refl) as (entries & Hne & ->).
    destruct (derived_metrics_inr entries Hne) as (m & Hm).
    destruct (find_rating_plateaus (derived_columns entries) 30 3)
      as [e|[ps df']] eqn:Hfind.
    { unfold find_rating_plateaus in Hfind.
      rewrite rolling_mean_ok in Hfind by lia. discriminate Hfind. }
    rewrite bind_run, Hm. cbn [Run.lift Run.ret]. rewrite bind_run.
    unfold Run.print at 1, Run.emit at 1. rewrite bind_run.
    cbn [Run.lift Run.ret]. rewrite bind_run.
    unfold Run.print at 1, Run.emit at 1. rewrite bind_run.
    rewrite print_plateaus_run.
    unfold Run.plot_rating_progression, Run.emit.
    cbn [Run.served Run.log Run.rating_history].
    exists (Print (OverallMetrics m) :: Print RatingPlateaus
            :: map (fun p => Print (PlateauLine p)) ps
            ++ [Plot (DF.games_played df') (DF.rating df')
                     (DF.rolling_rating df') (DF.rating_change_rate df')]).
    split; [|split].
    + rewrite <- !app_assoc. reflexivity.
    + cbn [requested flat_map app].
      change (flat_map _ ?l) with (requested l).
      rewrite requested_app, requested_plateau_lines. reflexivity.
    + now exists m, ps, df'.
  - exists [Print FailedToFetch]. repeat split; reflexivity.
Qed.

Lemma main_run (remote : nat -> string -> reply) (user : nat -> bool)
  (flag : bool) (fromtimestamp : Z -> option Z) :
  let profile := remote 0%nat (Run.profile_url "MagnusCarlsen") in
  exists r s',
    Run.main remote user flag fromtimestamp Run.start = (r, s') /\
  (exists rest,
     Run.log s' = Print (Verifying "MagnusCarlsen")
           :: Get (Run.profile_url "MagnusCarlsen") :: rest) /\
  pace 2 false (Run.log s') = None /\
  (length (requested (Run.log s')) <= 6)%nat /\
  Run.served s' = length (requested (Run.log s')) /\
  (forall e, r <> Run.Raised (Uncaught e)) /\
  ((forall data, profile <> Response 200 (Some data)) ->
   requested (Run.log s') = [Run.profile_url "MagnusCarlsen"]) /\
  (forall code json,
     profile = Response code json -> code <> 200 ->
     r = Run.Returned tt /\
     Run.log s'
     = [Print (Verifying "MagnusCarlsen");
        Get (Run.profile_url "MagnusCarlsen");
        Print (ProfileURL (Run.profile_url "MagnusCarlsen"));
        Print (StatusCode code);
        Print (PlayerNotFound code);
        Print CheckUsername]) /\
  (forall data frame after,
     profile = Response 200 (Some data) ->
     Run.analyze_rating_progression remote user flag fromtimestamp
       "MagnusCarlsen" 3 (verified (Raw.profile_name data))
     = (Run.Returned (Some frame), after) ->
     exists m ps df',
       calculate_progress_metrics frame = inr m /\
       find_rating_plateaus frame 30 3 = inr (ps, df') /\
       r = Run.Returned tt /\
       Run.log s'
       = Run.log after
         ++ Print (OverallMetrics m) :: Print RatingPlateaus
            :: map (fun p => Print (PlateauLine p)) ps
         ++ [Plot (DF.games_played df') (DF.rating df')
                  (DF.rolling_rating df') (DF.rating_change_rate df')]).
Proof.
  intros profile.
  unfold Run.main. cbv zeta. rewrite bind_run.
  change (Run.print (Verifying "MagnusCarlsen") Run.start)
    with (Run.Returned tt,
          Run.mk_state 0 [Print (Verifying "MagnusCarlsen")] []).
  cbv iota beta. rewrite bind_run.
  destruct (verify_username_run remote "MagnusCarlsen"
              (Run.mk_state 0 [Print (Verifying "MagnusCarlsen")] []))
    as (r & prints & Hverify & Hprofile).
  rewrite Hverify. clear Hverify.
  cbn [Run.served Run.log Run.rating_history app] in *.
  fold profile in Hprofile.
  destruct profile as [| |code [data|]] eqn:Hp.
  - destruct Hprofile as [-> ->].
    do 2 eexists. split; [reflexivity|].
    cbn [Run.log Run.served map app].
    split; [eexists; reflexivity|]. split; [reflexivity|].
    split; [cbn; lia|]. split; [reflexivity|].
    split; [discriminate|]. split; [reflexivity|].
    split; [discriminate|discriminate].
  - destruct Hprofile as [-> ->].
    do 2 eexists. split; [reflexivity|].
    cbn [Run.log Run.served map app].
    split; [eexists; reflexivity|]. split; [reflexivity|].
    split; [cbn; lia|]. split; [reflexivity|].
    split; [discriminate|]. split; [reflexivity|].
    split; [discriminate|discriminate].
  - destruct (Z.eqb_spec code 200) as [->|Hcode].
    + destruct Hprofile as [-> ->]. cbv iota.
      rewrite bind_run. unfold Run.print at 1, Run.emit at 1.
      cbn [Run.served Run.log Run.rating_history map app].
      cbv iota beta. rewrite bind_run.
      change (Run.mk_state 1 _ []) with (verified (Raw.profile_name data)).
      destruct (analyze_rating_progression_run remote user flag
                  fromtimestamp "MagnusCarlsen" 3
                  (verified (Raw.profile_name data)))
        as (ra & sa & taila & Hrun & [Hlog Hserved] & _ & Hcases).
      rewrite Hrun.
      assert (Hreq : (length (requested taila) <= 5)%nat).
      { destruct Hcases
          as [(stats & body & archives & _ & (rest & Hreq & Hsub) & _)
             |(_ & _ & Hreq & _)].
        - rewrite Hreq. cbn [length].
          pose proof (subsequence_length _ _ Hsub).
          pose proof (recent_archives_length 3 archives ltac:(lia)). lia.
        - destruct Hreq as [-> |[-> | ->]]; simpl; lia. }
      assert (Hshape : forall a, ra = Run.Returned a ->
                forall frame, a = Some frame ->
                  exists entries,
                    entries <> [] /\ frame = derived_columns entries).
      { intros a -> frame ->.
        destruct Hcases as [(stats & body & archives & _ & _ & Hr & _)
                           |([Hr|[Hr|Hr]] & _)]; try discriminate Hr.
        match type of Hr with
        | _ = Run.Returned (match ?h with _ => _ end) =>
            destruct h as [|e l] eqn:Hh; [discriminate Hr|]
        end.
        injection Hr as ->. eexists. split; [|reflexivity].
        intros Hnil. apply (f_equal (@length Entry.t)) in Hnil.
        pose proof (Permutation_length
                      (proj2 (sort_values_sorted (e :: l)))) as Hperm.
        rewrite Hnil in Hperm. discriminate Hperm. }
      cbn [verified Run.log Run.served] in Hlog, Hserved.
      destruct ra as [a|e].
      * destruct (report_run a sa (Hshape a eq_refl))
          as (closing & Hreport & Hclosing & Hparts).
        rewrite Hreport. do 2 eexists. split; [reflexivity|].
        cbn [Run.log Run.served]. rewrite Hlog.
        split; [eexists; reflexivity|]. split; [reflexivity|].
        cbn [app requested flat_map].
        change (flat_map _ ?l) with (requested l).
        rewrite !requested_app, Hclosing, app_nil_r.
        split; [cbn [length]; lia|].
        split; [cbn [length]; lia|].
        split; [discriminate|].
        split; [intros Hnone; now destruct (Hnone data)|].
        split; [intros code json Heq Hne; congruence|].
        intros data' frame after Heq Hrun'.
        injection Heq as <-. rewrite Hrun in Hrun'.
        injection Hrun' as -> <-.
        destruct Hparts as (m & ps & df' & Hm & Hfind & ->).
        exists m, ps, df'. rewrite Hlog.
        split; [exact Hm|]. split; [exact Hfind|]. split; reflexivity.
      * do 2 eexists. split; [reflexivity|].
        cbn [Run.log Run.served]. rewrite Hlog.
        split; [eexists; reflexivity|]. split; [reflexivity|].
        cbn [app requested flat_map].
        change (flat_map _ ?l) with (requested l).
        split; [cbn [length]; lia|].
        split; [cbn [length]; lia|].
        split.
        { intros e' Heq. injection Heq as ->.
          destruct Hcases as [(stats & body & archives & _ & _ & Hr & _)
                             |([Hr|[Hr|Hr]] & _)]; discriminate Hr. }
        split; [intros Hnone; now destruct (Hnone data)|].
        split; [intros code json Heq Hne; congruence|].
        intros data' frame after Heq Hrun'. injection Heq as <-.
        rewrite Hrun in Hrun'. discriminate Hrun'.
    + destruct Hprofile as [-> ->]. cbv iota.
      unfold Run.print, Run.emit.
      cbn [Run.log Run.served Run.rating_history map app].
      do 2 eexists. split; [reflexivity|].
    cbn [Run.log Run.served map app].
    split; [eexists; reflexivity|]. split; [reflexivity|].
    split; [cbn; lia|]. split; [reflexivity|].
    split; [discriminate|]. split; [reflexivity|].
      split.
      * intros code' json Heq _. injection Heq as <- <-. now split.
      * intros data' frame after Heq. congruence.
  - destruct (Z.eqb_spec code 200) as [->|Hcode].
    + destruct Hprofile as [-> ->].
      do 2 eexists. split; [reflexivity|].
    cbn [Run.log Run.served map app].
    split; [eexists; reflexivity|]. split; [reflexivity|].
    split; [cbn; lia|]. split; [reflexivity|].
    split; [discriminate|]. split; [reflexivity|].
      split; [intros code json Heq Hne; congruence|discriminate].
    + destruct Hprofile as [-> ->]. cbv iota.
      unfold Run.print, Run.emit.
      cbn [Run.log Run.served Run.rating_history map app].
      do 2 eexists. split; [reflexivity|].
    cbn [Run.log Run.served map app].
    split; [eexists; reflexivity|]. split; [reflexivity|].
    split; [cbn; lia|]. split; [reflexivity|].
    split; [discriminate|]. split; [reflexivity|].
      split.
      * intros code' json Heq _. injection Heq as <- <-. now split.
      * discriminate.
Qed.


(** ** One turn of the archive loop *)


